(** * reader: the HTML-to-LLM-text processors

    A shallow embedding of [src/local-playground/enhanced-html-processor.ts]
    (the enhanced processor) and of its minimal sibling, with the properties
    their specification states about them.

    - JavaScript strings are sequences of UTF-16 code units: lists of [N].
    - A call that may throw returns a [Result]; [try]/[catch] is a match on it.
    - The DOM is a first-order tree; a document is the list of the children
      of its Document node, and its root element is the first element among
      them.  The DOM calls the processors spell out ([querySelectorAll] with
      a literal selector, [remove], [textContent], [getAttribute], ...) are
      functions on that tree, with tag and attribute names as an HTML parser
      gives them (lower case).  [forEach] over a selection runs over the nodes
      selected before the first callback.
    - [document.head], [document.body] and the tree walker are linkedom's:
      the getters throw a [TypeError] on a document without root element and
      put a missing head or body into the root element; the tree walker
      throws likewise and walks the root element only.  The getters return
      the document as they leave it, and the processors go on with that.
    - What the libraries compute from strings, and what depends on the caller's
      selectors or on time, is a field of the environment [Env]: linkedom's
      parser and serializer, the text of [document.title], the selector engine
      on a caller-supplied selector, the [URL] constructor, Readability,
      Turndown and the clock.  The processors are functions of that
      environment.
    - The one place where the identity of a DOM object matters (the tables
      [prepareDomForTurndown] tags) has an explicit heap of DOM objects. *)

From Stdlib Require Import List NArith ZArith String Ascii Bool Lia.
From Stdlib Require QArith Qround.
Import ListNotations.


(* ================================================================== *)
(** ** JavaScript strings *)

Module Js.

Definition char16 := N.
Definition jsstring := list char16.

(** A literal: the code units of an ASCII string. *)
Definition js (s : string) : jsstring :=
  map N_of_ascii (list_ascii_of_string s).

Definition LF : char16 := 10%N.
Definition CR : char16 := 13%N.
Definition SP : char16 := 32%N.
Definition DQUOTE : char16 := 34%N.

(** ECMAScript [WhiteSpace] and [LineTerminator] code points: what
    [String.prototype.trim] strips and what [\s] matches. *)
Definition is_whitespace (c : char16) : bool :=
  ((9 <=? c) && (c <=? 13)            (* TAB LF VT FF CR *)
   || (c =? 32) || (c =? 160)          (* SP, NBSP *)
   || (c =? 5760)                      (* U+1680 *)
   || ((8192 <=? c) && (c <=? 8202))   (* U+2000 .. U+200A *)
   || (c =? 8232) || (c =? 8233)       (* LS, PS *)
   || (c =? 8239) || (c =? 8287)       (* U+202F, U+205F *)
   || (c =? 12288) || (c =? 65279))%N. (* U+3000, U+FEFF *)

Fixpoint trimStart (s : jsstring) : jsstring :=
  match s with
  | c :: r => if is_whitespace c then trimStart r else s
  | [] => []
  end.

Definition trimEnd (s : jsstring) : jsstring := rev (trimStart (rev s)).

(** [s.trim()] *)
Definition trim (s : jsstring) : jsstring := trimEnd (trimStart s).

(** Truthiness of a string: every string but the empty one. *)
Definition truthy (s : jsstring) : bool :=
  match s with [] => false | _ :: _ => true end.

(** Truthiness of a possibly [null]/[undefined] string. *)
Definition truthy_opt (o : option jsstring) : bool :=
  match o with Some s => truthy s | None => false end.

(** [a || b] on strings. *)
Definition or_else (a b : jsstring) : jsstring := if truthy a then a else b.

Fixpoint jseqb (a b : jsstring) : bool :=
  match a, b with
  | [], [] => true
  | x :: a', y :: b' => (x =? y)%N && jseqb a' b'
  | _, _ => false
  end.

(** [s.startsWith(p)] *)
Fixpoint startsWith (p s : jsstring) : bool :=
  match p, s with
  | [], _ => true
  | x :: p', y :: s' => (x =? y)%N && startsWith p' s'
  | _ :: _, [] => false
  end.

(** [s.includes(p)] *)
Fixpoint includes (p s : jsstring) : bool :=
  startsWith p s || match s with [] => false | _ :: s' => includes p s' end.

(** [s.replace(/\s+/g, ' ')]: every maximal run of whitespace becomes one
    space. *)
Fixpoint collapse_ws_from (in_run : bool) (s : jsstring) : jsstring :=
  match s with
  | [] => []
  | c :: r =>
      if is_whitespace c
      then if in_run then collapse_ws_from true r
           else SP :: collapse_ws_from true r
      else c :: collapse_ws_from false r
  end.

Definition collapse_ws (s : jsstring) : jsstring := collapse_ws_from false s.

(** [s.toLowerCase()] on the ASCII letters (the only ones the processor's
    comparison against ['display: none'] can be sensitive to). *)
Definition lower (c : char16) : char16 :=
  if ((65 <=? c) && (c <=? 90))%N then (c + 32)%N else c.
Definition toLowerCase (s : jsstring) : jsstring := map lower s.

(** [text.split(/\r?\n/g)]: the separators are found left to right, a
    carriage return belongs to the separator only when a line feed follows
    it immediately.  The empty string splits into one empty line. *)
Fixpoint split_lines (s : jsstring) : list jsstring :=
  match s with
  | [] => [[]]
  | c :: r =>
      if (c =? LF)%N then [] :: split_lines r
      else
        match (c =? CR)%N, r with
        | true, d :: r' =>
            if (d =? LF)%N then [] :: split_lines r'
            else match split_lines r with
                 | l :: ls => (c :: l) :: ls
                 | [] => [[c]]
                 end
        | _, _ =>
            match split_lines r with
            | l :: ls => (c :: l) :: ls
            | [] => [[c]]
            end
        end
  end.

(** [lines.join(sep)] *)
Fixpoint join (sep : jsstring) (ls : list jsstring) : jsstring :=
  match ls with
  | [] => []
  | [l] => l
  | l :: rest => l ++ sep ++ join sep rest
  end.

(** [arr[i]] for any integer index: [undefined] outside the array, in
    particular at [-1]. *)
Definition index {A} (l : list A) (i : Z) : option A :=
  if (i <? 0)%Z then None else nth_error l (Z.to_nat i).

(** Truthiness of a possibly [undefined] boolean. *)
Definition truthy_flag (o : option bool) : bool :=
  match o with Some b => b | None => false end.

(** [arr.filter((x, i) => f x i)], the callback receiving the index. *)
Fixpoint filter_from {A} (f : A -> Z -> bool) (i : Z) (l : list A) : list A :=
  match l with
  | [] => []
  | x :: r => if f x i then x :: filter_from f (i + 1) r
              else filter_from f (i + 1) r
  end.

Definition filter_indexed {A} (f : A -> Z -> bool) (l : list A) : list A :=
  filter_from f 0 l.

End Js.
Import Js.

(* ================================================================== *)
(** ** The whitespace normalizer *)

(** [Boolean(line.trim())] *)
Definition significant (line : jsstring) : bool := truthy (trim line).

(** The lines [cleanRedundantEmptyLines] keeps, before they are joined. *)
Definition keptLines (text : jsstring) : list jsstring :=
  let lines := split_lines text in
  let mappedFlag := map significant lines in
  filter_indexed
    (fun _ i => truthy_flag (index mappedFlag i)
                || truthy_flag (index mappedFlag (i - 1)))
    lines.

(** [cleanRedundantEmptyLines] (the same function in both processors). *)
Definition cleanRedundantEmptyLines (text : jsstring) : jsstring :=
  join [LF] (keptLines text).

(* ================================================================== *)
(** ** Exceptions *)

Inductive Exn := TypeError | SyntaxError | OtherError.

(** The outcome of a call that may throw. *)
Inductive Result (A : Type) : Type :=
| Ok (a : A)
| Throw (e : Exn).
Arguments Ok {A} a.
Arguments Throw {A} e.

Definition bind {A B} (r : Result A) (k : A -> Result B) : Result B :=
  match r with Ok a => k a | Throw e => Throw e end.

Notation "'do' x <- r ; k" := (bind r (fun x => k))
  (at level 10, x name, r at level 100, k at level 200).

(** Running a fallible callback over an array, left to right
    ([forEach] / [for ... of] with a body that may throw). *)
Fixpoint foldM {A S} (f : S -> A -> Result S) (l : list A) (s : S) : Result S :=
  match l with
  | [] => Ok s
  | x :: r => do s' <- f s x; foldM f r s'
  end.

(* ================================================================== *)
(** ** The document tree *)

#[warnings="-register-all"]
Inductive node : Type :=
| Element (tag : jsstring) (attrs : list (jsstring * jsstring)) (children : list node)
| Text (data : jsstring)
| Comment (data : jsstring).

(** A document is the list of the children of its Document node. *)
Definition document := list node.

(** A node of a document is identified by the child indices leading to it. *)
Definition path := list nat.

Definition is_element (n : node) : bool :=
  match n with Element _ _ _ => true | _ => false end.

Definition is_comment (n : node) : bool :=
  match n with Comment _ => true | _ => false end.

Definition childNodes (n : node) : list node :=
  match n with Element _ _ cs => cs | _ => [] end.

(** The element has the tag [t] (a lower-case name). *)
Definition has_tag (t : string) (n : node) : bool :=
  match n with Element t' _ _ => jseqb t' (js t) | _ => false end.

Fixpoint lookup_attr (name : jsstring) (attrs : list (jsstring * jsstring)) : option jsstring :=
  match attrs with
  | [] => None
  | (k, v) :: r => if jseqb k name then Some v else lookup_attr name r
  end.

(** [el.getAttribute(name)]: [None] is [null]. *)
Definition getAttribute (name : string) (n : node) : option jsstring :=
  match n with Element _ a _ => lookup_attr (js name) a | _ => None end.

(** [[name]] *)
Definition hasAttribute (name : string) (n : node) : bool :=
  match getAttribute name n with Some _ => true | None => false end.

(** [[name="value"]]: the attribute is there with exactly this value. *)
Definition attr_is (name value : string) (n : node) : bool :=
  match getAttribute name n with Some v => jseqb v (js value) | None => false end.

(** [[name="value"]] for an attribute whose values the selector engine compares
    without regard to case ([rel] is one): the lower-cased value is [value],
    which is in lower case. *)
Definition attr_is_ci (name value : string) (n : node) : bool :=
  match getAttribute name n with
  | Some v => jseqb (toLowerCase v) (js value)
  | None => false
  end.

(** [el.setAttribute(name, v)] on the attributes of [el]. *)
Fixpoint set_attr (name v : jsstring) (attrs : list (jsstring * jsstring)) : list (jsstring * jsstring) :=
  match attrs with
  | [] => [(name, v)]
  | (k, w) :: r => if jseqb k name then (k, v) :: r else (k, w) :: set_attr name v r
  end.

(** [el.removeAttribute(name)] *)
Definition remove_attr (name : jsstring) (attrs : list (jsstring * jsstring)) : list (jsstring * jsstring) :=
  filter (fun kv => negb (jseqb (fst kv) name)) attrs.

(** [node.textContent] of an element: the text of its descendants, comments apart. *)
Fixpoint textContent (n : node) : jsstring :=
  match n with
  | Element _ _ cs => flat_map textContent cs
  | Text s => s
  | Comment _ => []
  end.

(** The elements below a node, itself included, in document order. *)
Fixpoint elements_of (n : node) : list node :=
  match n with
  | Element _ _ cs => n :: flat_map elements_of cs
  | _ => []
  end.

(** [root.querySelectorAll(sel)] for a selector that looks at one element only
    (its tag and attributes): the matching descendants in document order. *)
Definition querySelectorAll (sel : node -> bool) (roots : list node) : list node :=
  filter sel (flat_map elements_of roots).

(** [root.querySelector(sel)]: the first match. *)
Definition querySelector (sel : node -> bool) (roots : list node) : option node :=
  hd_error (querySelectorAll sel roots).

(** [querySelectorAll(sel).forEach(el => el.remove())]: the matched nodes
    leave the tree with everything below them. *)
Fixpoint prune (sel : node -> bool) (n : node) : node :=
  match n with
  | Element t a cs =>
      Element t a (flat_map (fun c => if sel c then [] else [prune sel c]) cs)
  | _ => n
  end.

Definition removeAll (sel : node -> bool) (d : list node) : list node :=
  flat_map (fun c => if sel c then [] else [prune sel c]) d.

(** [querySelectorAll('*').forEach(el => ...)] with a callback that rewrites
    the attributes of [el]. *)
Fixpoint map_attrs (f : list (jsstring * jsstring) -> list (jsstring * jsstring)) (n : node) : node :=
  match n with
  | Element t a cs => Element t (f a) (map (map_attrs f) cs)
  | _ => n
  end.

(** [document.documentElement]: the first element child, if any. *)
Definition documentElement (d : document) : option node :=
  find is_element d.

(** Rewriting the root element of a document. *)
Fixpoint on_root (f : node -> node) (d : document) : document :=
  match d with
  | [] => []
  | n :: r => if is_element n then f n :: r else n :: on_root f r
  end.

Definition with_children (f : list node -> list node) (n : node) : node :=
  match n with
  | Element t a cs => Element t a (f cs)
  | _ => n
  end.

Definition emptyElement (t : string) : node := Element (js t) [] [].

(** *** linkedom's [document.head] and [document.body]

    The getters destructure [document.documentElement], so they throw a
    [TypeError] on a document without root element.  [head] is the first
    element child of the root when that is a [head]; otherwise a new, empty
    [head] is put in front of the root's children.  [body] is the next element
    sibling of the head when that is a [body]; otherwise a new, empty [body]
    is put right after the head.  Both insertions stay in the document. *)

(** The children of the root once [head] has been read. *)
Definition withHead (cs : list node) : list node :=
  match find is_element cs with
  | Some h => if has_tag "head" h then cs else emptyElement "head" :: cs
  | None => emptyElement "head" :: cs
  end.

(** What follows the first element among [cs]. *)
Fixpoint afterFirstElement (cs : list node) : list node :=
  match cs with
  | [] => []
  | n :: r => if is_element n then r else afterFirstElement r
  end.

Definition nextIsBody (cs : list node) : bool :=
  match find is_element (afterFirstElement cs) with
  | Some b => has_tag "body" b
  | None => false
  end.

(** The children of the root, the first element of which is the head, once
    [body] has been read. *)
Fixpoint withBody (cs : list node) : list node :=
  match cs with
  | [] => []
  | n :: r =>
      if is_element n
      then if nextIsBody cs then cs else n :: emptyElement "body" :: r
      else n :: withBody r
  end.

(** The head among children that went through [withHead]. *)
Definition headIn (cs : list node) : node :=
  match find is_element cs with
  | Some h => h
  | None => emptyElement "head"
  end.

(** The body among children that went through [withHead]. *)
Definition bodyIn (cs : list node) : node :=
  match find is_element (afterFirstElement cs) with
  | Some b => if has_tag "body" b then b else emptyElement "body"
  | None => emptyElement "body"
  end.

(** [document.head]: the head, and the document as the getter leaves it. *)
Definition head (d : document) : Result (node * document) :=
  match documentElement d with
  | Some root => Ok (headIn (withHead (childNodes root)), on_root (with_children withHead) d)
  | None => Throw TypeError
  end.

(** [document.body]: the body, and the document as the getter leaves it. *)
Definition body (d : document) : Result (node * document) :=
  match documentElement d with
  | Some root =>
      Ok (bodyIn (withHead (childNodes root)),
          on_root (with_children (fun cs => withBody (withHead cs))) d)
  | None => Throw TypeError
  end.

(** *** Nodes by identity *)

Fixpoint path_eqb (p q : path) : bool :=
  match p, q with
  | [], [] => true
  | i :: p', j :: q' => Nat.eqb i j && path_eqb p' q'
  | _, _ => false
  end.

(** [allNodes.includes(el)] *)
Definition includes_path (p : path) (ps : list path) : bool := existsb (path_eqb p) ps.

(** The paths of the elements at and below [n], which sits at [here]. *)
Fixpoint element_paths_at (here : path) (n : node) {struct n} : list path :=
  match n with
  | Element _ _ cs =>
      here ::
      (fix go (i : nat) (cs : list node) {struct cs} : list path :=
         match cs with
         | [] => []
         | c :: r => element_paths_at (here ++ [i]) c ++ go (S i) r
         end) 0 cs
  | _ => []
  end.

Fixpoint element_paths_from (i : nat) (d : list node) : list path :=
  match d with
  | [] => []
  | c :: r => element_paths_at [i] c ++ element_paths_from (S i) r
  end.

(** Every element of a document, in document order. *)
Definition element_paths (d : document) : list path := element_paths_from 0 d.

Fixpoint node_at (d : list node) (p : path) : option node :=
  match p with
  | [] => None
  | i :: p' =>
      match nth_error d i with
      | None => None
      | Some n =>
          match p' with
          | [] => Some n
          | _ :: _ => node_at (childNodes n) p'
          end
      end
  end.

(** The node [n] at [here] once the nodes at the paths [gone] have left it. *)
Fixpoint without_at (gone : list path) (here : path) (n : node) {struct n} : node :=
  match n with
  | Element t a cs =>
      Element t a
        ((fix go (i : nat) (cs : list node) {struct cs} : list node :=
            match cs with
            | [] => []
            | c :: r =>
                if includes_path (here ++ [i]) gone then go (S i) r
                else without_at gone (here ++ [i]) c :: go (S i) r
            end) 0 cs)
  | _ => n
  end.

Fixpoint without_from (gone : list path) (i : nat) (d : list node) : list node :=
  match d with
  | [] => []
  | c :: r =>
      if includes_path [i] gone then without_from gone (S i) r
      else without_at gone [i] c :: without_from gone (S i) r
  end.

(** [matched.forEach(el => el.remove())] for nodes given by identity. *)
Definition removePaths (gone : list path) (d : document) : document :=
  without_from gone 0 d.

(* ================================================================== *)
(** ** The collaborators *)

(** What [Readability.parse()] returns when it returns an article; both fields
    may be [null]. *)
Record Article := { art_title : option jsstring; art_content : option jsstring }.

(** A DOM tree as a JavaScript object: besides its nodes it records the
    property [rows] that some of its elements carry, by the element. *)
Record DomObject := { tree : list node; rowsProp : list (path * list node) }.

(** The objects allocated so far, oldest first; an object is named by its
    position. *)
Definition Heap := list DomObject.

(** How a processor sets Turndown up.  The enhanced processor (lines 300-380)
    passes the four options, installs the three GFM plugins and registers four
    rules, of which the link rule closes over [options.baseUrl]; the minimal
    one passes the four options and registers the paragraph rule. *)
Inductive TurndownSetup :=
| EnhancedSetup (base : option jsstring)
| MinimalSetup.

Record Env := {
  (** linkedom: [parseHTML(markup).window.document] *)
  parseHTML : jsstring -> document;
  (** linkedom: the children [el.innerHTML = markup] gives [el] *)
  parseFragment : jsstring -> list node;
  (** linkedom: [el.innerHTML] read back, from the children of [el] *)
  innerHTML : list node -> jsstring;
  (** linkedom: [document.title] *)
  documentTitle : document -> jsstring;
  (** the selector engine on a caller-supplied selector: the error it throws
      for a selector it cannot parse, else the test a node of a document
      (named by its path) passes when it matches *)
  compileSelector : jsstring -> Result (document -> path -> bool);
  (** [new URL(href, base).toString()] *)
  newURL : jsstring -> jsstring -> Result jsstring;
  (** [new Readability(doc).parse()] *)
  readabilityParse : document -> Result (option Article);
  (** Turndown: the tree its own parser builds from the markup string it is
      given, a new object, with whatever that parser puts on its elements *)
  turndownParse : jsstring -> DomObject;
  (** Turndown: the conversion of that tree by the service as set up *)
  turndownConvert : TurndownSetup -> DomObject -> Result jsstring;
  (** [performance.now()]: the reading of the k-th call, in milliseconds *)
  now : nat -> QArith_base.Q
}.

(* ================================================================== *)
(** ** Options and results *)

Inductive FormatOption := markdown | text.

(** [string | string[]] *)
Inductive Selectors :=
| OneSelector (s : jsstring)
| ManySelectors (ss : list jsstring).

(** Every field is optional: [None] is [undefined]. *)
Record ProcessingOptions := {
  format : option FormatOption;
  baseUrl : option jsstring;
  trackPerformance : option bool;
  targetSelector : option Selectors;
  removeSelector : option Selectors;
  removeComments : option bool;
  withShadowDom : option bool;
  withIframe : option bool
}.

(** [FormatOption | ProcessingOptions] *)
Inductive FormatOrOptions :=
| AsFormat (f : FormatOption)
| AsOptions (o : ProcessingOptions).

Record Performance := {
  totalTime : Z; parsingTime : Z; cleaningTime : Z; renderTime : Z
}.

Record ProcessedHTML := {
  content : jsstring;
  title : jsstring;
  description : jsstring;
  links : list (jsstring * jsstring);
  performance : option Performance
}.

(** [x !== false] on an optional boolean *)
Definition not_false (o : option bool) : bool :=
  match o with Some false => false | _ => true end.

(** [x || false] on an optional boolean *)
Definition or_false (o : option bool) : bool :=
  match o with Some b => b | None => false end.

(** Truthiness of [string | string[]]: an array is truthy even when empty. *)
Definition truthy_selectors (o : option Selectors) : bool :=
  match o with
  | Some (OneSelector s) => truthy s
  | Some (ManySelectors _) => true
  | None => false
  end.

(** [arr.filter(Boolean)] on an array of pairs and [null]s *)
Fixpoint filterBoolean {A} (l : list (option A)) : list A :=
  match l with
  | [] => []
  | Some a :: r => a :: filterBoolean r
  | None :: r => filterBoolean r
  end.

(* ================================================================== *)
(** ** The selectors the processors spell out *)

(** ['[data-shadow-host="true"]'] *)
Definition sel_shadow_host (n : node) : bool := attr_is "data-shadow-host" "true" n.
(** ['iframe[src],frame[src]'] *)
Definition sel_frame (n : node) : bool :=
  (has_tag "iframe" n || has_tag "frame" n) && hasAttribute "src" n.
(** ['script, style'] *)
Definition sel_script_style (n : node) : bool := has_tag "script" n || has_tag "style" n.
(** ['a[href]'] *)
Definition sel_anchor (n : node) : bool := has_tag "a" n && hasAttribute "href" n.
(** ['script, style, noscript, meta, link[rel="stylesheet"]']; the selector
    engine compares the values of [rel] without regard to case. *)
Definition sel_noise (n : node) : bool :=
  has_tag "script" n || has_tag "style" n || has_tag "noscript" n || has_tag "meta" n
  || (has_tag "link" n && attr_is_ci "rel" "stylesheet" n).
(** ['script, style, noscript, meta'] *)
Definition sel_noise_minimal (n : node) : bool :=
  has_tag "script" n || has_tag "style" n || has_tag "noscript" n || has_tag "meta" n.
(** ['meta[name="description"]'] *)
Definition sel_meta_description (n : node) : bool :=
  has_tag "meta" n && attr_is "name" "description" n.

(** [/^(https?:)?\/\//] *)
Definition has_scheme_or_slashes (s : jsstring) : bool :=
  startsWith (js "//") s || startsWith (js "http://") s || startsWith (js "https://") s.

(* ================================================================== *)
(** ** Stages shared by the two processors *)

Section Stages.

Variable E : Env.

(** Lines 93-96: parse, and parse again inside a shell when no root element
    came out. *)
Definition loadDocument (html : jsstring) : document :=
  let dom := parseHTML E html in
  match documentElement dom with
  | Some _ => dom
  | None => parseHTML E (js "<html><body>" ++ html ++ js "</body></html>")
  end.

(** [document.title || '']: the getter reads the title below [document.head]. *)
Definition readTitle (dom : document) : Result (jsstring * document) :=
  do h <- head dom;
  Ok (or_else (documentTitle E (snd h)) [], snd h).

(** [document.head?.querySelector('meta[name="description"]')?.getAttribute('content') || ''] *)
Definition readDescription (dom : document) : Result (jsstring * document) :=
  do h <- head dom;
  Ok (match querySelector sel_meta_description (childNodes (fst h)) with
      | None => []
      | Some m =>
          match getAttribute "content" m with
          | Some c => or_else c []
          | None => []
          end
      end, snd h).

(** Shadow hosts: the hosts are listed once, in document order, before any of
    them is rewritten; a host that carries content gets it as its children (so
    the hosts that were below it are no longer in the document). *)
Fixpoint inlineShadow (n : node) : node :=
  match n with
  | Element t a cs =>
      match (if sel_shadow_host n then getAttribute "data-shadow-content" n else None) with
      | Some shadowContent =>
          if truthy shadowContent then Element t a (parseFragment E shadowContent)
          else Element t a (map inlineShadow cs)
      | None => Element t a (map inlineShadow cs)
      end
  | _ => n
  end.

(** The rewriting of one element's [src] or [href] inside inlined frame content
    (lines 128-137 and 140-149): relative values are resolved against the
    frame's own [src]; a value that does not resolve stays. *)
Definition absolutize (name : string) (src : jsstring)
    (a : list (jsstring * jsstring)) : list (jsstring * jsstring) :=
  match lookup_attr (js name) a with
  | Some v =>
      if truthy v && negb (has_scheme_or_slashes v)
      then match newURL E v src with
           | Ok u => set_attr (js name) u a
           | Throw _ => a
           end
      else a
  | None => a
  end.

(** The content a frame receives. [fixUrls] is [src && options.baseUrl]; the
    minimal processor never rewrites. *)
Definition frameChildren (fixUrls : bool) (src frameContent : jsstring) : list node :=
  let kids := parseFragment E frameContent in
  let kids := removeAll sel_script_style kids in
  if fixUrls
  then map (map_attrs (absolutize "href" src)) (map (map_attrs (absolutize "src" src)) kids)
  else kids.

Fixpoint inlineFrames (haveBase : bool) (n : node) : node :=
  match n with
  | Element t a cs =>
      match (if sel_frame n then getAttribute "data-frame-content" n else None) with
      | Some frameContent =>
          if truthy frameContent
          then let src := match getAttribute "src" n with Some s => s | None => [] end in
               Element t a (frameChildren (truthy src && haveBase) src frameContent)
          else Element t a (map (inlineFrames haveBase) cs)
      | None => Element t a (map (inlineFrames haveBase) cs)
      end
  | _ => n
  end.

(** [x.textContent?.replace(/\s+/g, ' ').trim() || ''] *)
Definition linkText (x : node) : jsstring :=
  or_else (trim (collapse_ws (textContent x))) [].

(** The [try] of the link callback: the URL of an accepted href. *)
Definition linkUrl (base : option jsstring) (href : jsstring) : Result jsstring :=
  match base with
  | Some b => if truthy b then newURL E href b else Ok href
  | None => Ok href
  end.

(** [svg.innerHTML = ''] for every [svg] *)
Fixpoint emptySvg (n : node) : node :=
  match n with
  | Element t a cs =>
      if has_tag "svg" n then Element t a [] else Element t a (map emptySvg cs)
  | _ => n
  end.

(** [document.body.innerHTML] *)
Definition bodyMarkup (dom : document) : Result (jsstring * document) :=
  do b <- body dom;
  Ok (innerHTML E (childNodes (fst b)), snd b).

(** Readability on a clone of the document, with the body's markup as the
    fallback (lines 278-288; minimal processor, lines 87-97): the working
    markup, [readabilityResult] and the document.  The body is read inside the
    [try] and again inside the [catch]: a [TypeError] it throws leaves the
    [catch] as well. *)
Definition extractMain (dom : document) : Result (jsstring * option Article * document) :=
  match readabilityParse E dom with
  | Ok (Some r) =>
      match art_content r with
      | Some c => if truthy c then Ok (c, Some r, dom)
                  else do m <- bodyMarkup dom; Ok (fst m, Some r, snd m)
      | None => do m <- bodyMarkup dom; Ok (fst m, Some r, snd m)
      end
  | Ok None => do m <- bodyMarkup dom; Ok (fst m, None, snd m)
  | Throw _ => do m <- bodyMarkup dom; Ok (fst m, None, snd m)
  end.

(** [document.body.textContent?.trim() || ''] *)
Definition bodyText (dom : document) : Result jsstring :=
  do b <- body dom;
  Ok (or_else (trim (textContent (fst b))) []).

(** The text rendering: the working markup parsed again, its body's text. *)
Definition renderText (mainContent : jsstring) : Result jsstring :=
  bodyText (parseHTML E mainContent).

(** [readabilityResult?.title || title] *)
Definition resultTitle (readabilityResult : option Article) (title : jsstring) : jsstring :=
  match readabilityResult with
  | Some r => match art_title r with
              | Some t => or_else t title
              | None => title
              end
  | None => title
  end.

(** [turndownService.turndown(markup)]: Turndown builds a tree of its own from
    the string, a new object, and converts it.  Returns the outcome, the name of
    the object that was converted, and the heap. *)
Definition turndown (setup : TurndownSetup) (markup : jsstring) (h : Heap)
  : Result jsstring * nat * Heap :=
  let root := turndownParse E markup in
  (turndownConvert E setup root, List.length h, h ++ [root]).

(** [Math.round(x)] *)
Definition mathRound (x : QArith_base.Q) : Z :=
  Qround.Qfloor (QArith_base.Qplus x (QArith_base.Qmake 1 2)).

End Stages.

(* ================================================================== *)
(** ** The enhanced processor ([enhanced-html-processor.ts]) *)

Module Enhanced.

Section Processor.

Variable E : Env.

(** The callback of the link extraction (lines 160-172). *)
Definition harvestLink (base : option jsstring) (x : node) : option (jsstring * jsstring) :=
  let text := linkText x in
  match getAttribute "href" x with
  | None => None
  | Some href =>
      if negb (truthy href) then None
      else if startsWith (js "javascript:") href || startsWith (js "file:") href then None
      else match linkUrl E base href with
           | Ok url => Some (text, url)
           | Throw _ => None
           end
  end.

(** Lines 159-173. *)
Definition harvestLinks (base : option jsstring) (dom : document) : list (jsstring * jsstring) :=
  filterBoolean (map (harvestLink base) (querySelectorAll sel_anchor dom)).

(** [document.querySelectorAll(selector)] for a caller's selector: the
    matching elements by identity, in document order. *)
Definition querySelectorAllBy (selector : jsstring) (dom : document) : Result (list path) :=
  do matches <- compileSelector E selector;
  Ok (filter (matches dom) (element_paths dom)).

Definition removeBy (dom : document) (selector : jsstring) : Result document :=
  do found <- querySelectorAllBy selector dom;
  Ok (removePaths found dom).

(** Lines 182-190. *)
Definition applyRemoveSelector (o : option Selectors) (dom : document) : Result document :=
  match o with
  | Some (ManySelectors ss) => foldM removeBy ss dom
  | Some (OneSelector s) => if truthy s then removeBy dom s else Ok dom
  | None => Ok dom
  end.

(** Lines 209-216: no attribute named [data-*] or [aria-*] stays. *)
Definition dropDataAria (a : list (jsstring * jsstring)) : list (jsstring * jsstring) :=
  filter (fun kv => negb (startsWith (js "data-") (fst kv)
                          || startsWith (js "aria-") (fst kv))) a.

(** Lines 219-226: [style] goes unless it starts, in lower case, with
    ['display: none']. *)
Definition dropStyle (a : list (jsstring * jsstring)) : list (jsstring * jsstring) :=
  match lookup_attr (js "style") a with
  | Some v =>
      if startsWith (js "display: none") (toLowerCase (or_else v []))
      then a else remove_attr (js "style") a
  | None => a
  end.

(** [if (!allNodes.includes(el)) allNodes.push(el)] *)
Definition pushNew (allNodes : list path) (el : path) : list path :=
  if includes_path el allNodes then allNodes else allNodes ++ [el].

(** Lines 234-250. *)
Definition collectTargets (sels : Selectors) (dom : document) : Result (list path) :=
  match sels with
  | ManySelectors ss =>
      foldM (fun allNodes selector =>
               do found <- querySelectorAllBy selector dom;
               Ok (fold_left pushNew found allNodes)) ss []
  | OneSelector s =>
      do found <- querySelectorAllBy s dom;
      Ok (fold_left pushNew found [])
  end.

(** Lines 255-260: the children the body of the new document ends with.
    [appendChild] moves a node: a matched node that sat below another
    matched node is no longer below it once both have been appended.
    [selectedDoc.body] is the getter of the new document. *)
Definition selectedBody (dom : document) (allNodes : list path) : Result (list node) :=
  do b <- body (parseHTML E (js "<html><body></body></html>"));
  Ok (childNodes (fst b)
      ++ flat_map (fun p => match node_at dom p with
                            | Some n => [without_at allNodes p n; Text [LF; LF]]
                            | None => []
                            end) allNodes).

(** Lines 229-268: [Some kids] when the processor goes on with a new document
    whose body holds [kids]; [None] when it goes on with the whole document
    (the warning on the console is not modelled). *)
Definition selectTarget (o : option Selectors) (dom : document) : Result (option (list node)) :=
  match o with
  | Some sels =>
      if truthy_selectors o
      then do allNodes <- collectTargets sels dom;
           match allNodes with
           | [] => Ok None
           | _ :: _ => do kids <- selectedBody dom allNodes; Ok (Some kids)
           end
      else Ok None
  | None => Ok None
  end.

(** [Object.defineProperty(table, 'rows', { value, enumerable: true })] on an
    element of the object named [obj]. *)
Fixpoint update_obj (obj : nat) (f : DomObject -> DomObject) (h : Heap) : Heap :=
  match h, obj with
  | [], _ => []
  | o :: r, O => f o :: r
  | o :: r, S k => o :: update_obj k f r
  end.

Definition defineRows (obj : nat) (table : path) (rows : list node) (h : Heap) : Heap :=
  update_obj obj (fun o => {| tree := tree o; rowsProp := rowsProp o ++ [(table, rows)] |}) h.

(** The [table] elements of a tree, by identity. *)
Definition tablesOf (dom : list node) : list path :=
  filter (fun p => match node_at dom p with
                   | Some n => has_tag "table" n
                   | None => false
                   end) (element_paths dom).

(** [Array.from(table.querySelectorAll('tr'))] *)
Definition rowsOf (dom : list node) (table : path) : list node :=
  match node_at dom table with
  | Some n => querySelectorAll (has_tag "tr") (childNodes n)
  | None => []
  end.

(** [prepareDomForTurndown] (lines 425-436): it parses the markup into a DOM
    of its own, defines [rows] on the tables of that DOM and returns nothing. *)
Definition prepareDomForTurndown (html : jsstring) (h : Heap) : Heap :=
  let dom := parseHTML E html in
  let obj := List.length h in
  fold_left (fun h table => defineRows obj table (rowsOf dom table) h)
            (tablesOf dom)
            (h ++ [{| tree := dom; rowsProp := [] |}]).

(** Lines 298-389: the Markdown rendering with its fallback, which re-parses
    the working markup and reads the body of what it gets.  Besides the
    outcome: the name of the object Turndown converted, and the heap. *)
Definition renderMarkdown (base : option jsstring) (mainContent : jsstring)
  : Result jsstring * nat * Heap :=
  let h := prepareDomForTurndown mainContent [] in
  let '(outcome, obj, h) := turndown E (EnhancedSetup base) mainContent h in
  (match outcome with
   | Ok md => Ok md
   | Throw _ => renderText E mainContent
   end, obj, h).

(** Lines 84-86: the options the call works with. [None] for an argument is
    [undefined], which the default ['markdown'] replaces. *)
Definition effectiveOptions (formatOrOptions : option FormatOrOptions)
    (baseUrl0 : option jsstring) : ProcessingOptions :=
  match formatOrOptions with
  | Some (AsOptions o) => o
  | Some (AsFormat f) =>
      {| format := Some f; baseUrl := baseUrl0; trackPerformance := None;
         targetSelector := None; removeSelector := None; removeComments := None;
         withShadowDom := None; withIframe := None |}
  | None =>
      {| format := Some markdown; baseUrl := baseUrl0; trackPerformance := None;
         targetSelector := None; removeSelector := None; removeComments := None;
         withShadowDom := None; withIframe := None |}
  end.

(** Lines 104-156: the document the links are read from. *)
Definition inlineEmbedded (options : ProcessingOptions) (dom : document) : document :=
  let dom := if not_false (withShadowDom options) then map (inlineShadow E) dom else dom in
  if not_false (withIframe options)
  then map (inlineFrames E (truthy_opt (baseUrl options))) dom else dom.

(** Lines 93-156: the document is parsed, its title and description are read
    and the embedded content is inlined.  Title, description, and the document
    the links are read from. *)
Definition openDocument (options : ProcessingOptions) (html : jsstring)
  : Result (jsstring * jsstring * document) :=
  do titled <- readTitle E (loadDocument E html);
  do described <- readDescription (snd titled);
  Ok (fst titled, fst described, inlineEmbedded options (snd described)).

(** Lines 193-202.  linkedom's tree walker on a document walks the root
    element and what is below it: it destructures [documentElement], so its
    constructor throws a [TypeError] on a document without root element, and
    the comments that are not below the root element stay. *)
Definition dropComments (dom : document) : Result document :=
  match documentElement dom with
  | Some _ => Ok (on_root (prune is_comment) dom)
  | None => Throw TypeError
  end.

(** Lines 176-226. *)
Definition sanitize (options : ProcessingOptions) (dom : document) : Result document :=
  let dom := map emptySvg dom in
  let dom := removeAll sel_noise dom in
  do dom <- applyRemoveSelector (removeSelector options) dom;
  do dom <- (if not_false (removeComments options) then dropComments dom else Ok dom);
  let dom := removeAll (has_tag "img") dom in
  let dom := map (map_attrs dropDataAria) dom in
  let dom := map (map_attrs dropStyle) dom in
  Ok dom.

(** Lines 229-292: the working markup [mainContent] and [readabilityResult]. *)
Definition workingMarkup (options : ProcessingOptions) (dom : document)
  : Result (jsstring * option Article) :=
  do target <- selectTarget (targetSelector options) dom;
  match target with
  | None => do main <- extractMain E dom; Ok (fst main)
  | Some kids => Ok (innerHTML E kids, None)
  end.

(** Lines 295-394. *)
Definition render (fmt : FormatOption) (base : option jsstring) (mainContent : jsstring)
  : Result jsstring :=
  match fmt with
  | markdown => fst (fst (renderMarkdown base mainContent))
  | text => renderText E mainContent
  end.

(** The readings of the clock (lines 80, 92, 97, 270, 296, 398), in the order
    the calls are made, as the metrics of lines 410-415. *)
Definition measure (track : bool) : option Performance :=
  let zero := QArith_base.Qmake 0 1 in
  let t0 := now E 0 in
  let parseStartTime := if track then now E 1 else zero in
  let t1 := if track then now E 2 else zero in
  let t2 := if track then now E 3 else zero in
  let renderStartTime := if track then now E 4 else zero in
  let t3 := if track then now E 5 else now E 1 in
  if track
  then Some {| totalTime := mathRound (QArith_base.Qminus t3 t0);
               parsingTime := mathRound (QArith_base.Qminus t1 parseStartTime);
               cleaningTime := mathRound (QArith_base.Qminus t2 t1);
               renderTime := mathRound (QArith_base.Qminus t3 renderStartTime) |}
  else None.

(** [processHtml] (lines 75-419). *)
Definition processHtml (html : jsstring) (formatOrOptions : option FormatOrOptions)
    (baseUrl0 : option jsstring) : Result ProcessedHTML :=
  let options := effectiveOptions formatOrOptions baseUrl0 in
  let fmt := match format options with Some f => f | None => markdown end in
  let track := or_false (trackPerformance options) in
  do opened <- openDocument options html;
  let title0 := fst (fst opened) in
  let description0 := snd (fst opened) in
  let links0 := harvestLinks (baseUrl options) (snd opened) in
  do dom <- sanitize options (snd opened);
  do main <- workingMarkup options dom;
  let mainContent := fst main in
  let readabilityResult := snd main in
  do processedContent <- render fmt (baseUrl options) mainContent;
  let cleanedContent := cleanRedundantEmptyLines processedContent in
  Ok {| content := cleanedContent;
        title := resultTitle readabilityResult title0;
        description := description0;
        links := links0;
        performance := measure track |}.

End Processor.

End Enhanced.

(* ================================================================== *)
(** ** The minimal processor *)

Module Minimal.

Section Processor.

Variable E : Env.

(** The callback of the link extraction (lines 61-72). *)
Definition harvestLink (base : option jsstring) (x : node) : option (jsstring * jsstring) :=
  let text := linkText x in
  match getAttribute "href" x with
  | None => None
  | Some href =>
      if negb (truthy href) then None
      else match linkUrl E base href with
           | Ok url => Some (text, url)
           | Throw _ => None
           end
  end.

(** Lines 60-73. *)
Definition harvestLinks (base : option jsstring) (dom : document) : list (jsstring * jsstring) :=
  filterBoolean (map (harvestLink base) (querySelectorAll sel_anchor dom)).

(** Lines 43-57: the document the links are read from. *)
Definition inlineEmbedded (dom : document) : document :=
  map (inlineFrames E false) (map (inlineShadow E) dom).

(** Lines 76-82. *)
Definition sanitize (dom : document) : document :=
  let dom := map emptySvg dom in
  let dom := removeAll sel_noise_minimal dom in
  removeAll (has_tag "img") dom.

(** Lines 33-57: title, description, and the document the links are read
    from. *)
Definition openDocument (html : jsstring) : Result (jsstring * jsstring * document) :=
  do titled <- readTitle E (loadDocument E html);
  do described <- readDescription (snd titled);
  Ok (fst titled, fst described, inlineEmbedded (snd described)).

(** Lines 100-129: the fallback of the Markdown rendering reads the text of
    the whole document's body. *)
Definition render (fmt : FormatOption) (dom : document) (mainContent : jsstring)
  : Result jsstring :=
  match fmt with
  | markdown =>
      match fst (fst (turndown E MinimalSetup mainContent [])) with
      | Ok md => Ok md
      | Throw _ => bodyText dom
      end
  | text => renderText E mainContent
  end.

(** [processHtml] (lines 31-140). *)
Definition processHtml (html : jsstring) (format0 : option FormatOption)
    (baseUrl0 : option jsstring) : Result ProcessedHTML :=
  let fmt := match format0 with Some f => f | None => markdown end in
  do opened <- openDocument html;
  let title0 := fst (fst opened) in
  let description0 := snd (fst opened) in
  let links0 := harvestLinks baseUrl0 (snd opened) in
  let dom := sanitize (snd opened) in
  do main <- extractMain E dom;
  let mainContent := fst (fst main) in
  let readabilityResult := snd (fst main) in
  do processedContent <- render fmt (snd main) mainContent;
  let cleanedContent := cleanRedundantEmptyLines processedContent in
  Ok {| content := cleanedContent;
        title := resultTitle readabilityResult title0;
        description := description0;
        links := links0;
        performance := None |}.

End Processor.

End Minimal.

(* ================================================================== *)
(** ** Vocabulary of the statements about the whitespace normalizer *)

(** By the specification's words: a line is kept when it is significant, or
    when the line immediately before it is. *)
Definition keptBySpec (lines : list jsstring) : list jsstring :=
  map snd
    (filter (fun il =>
               significant (snd il)
               || match fst il with
                  | O => false
                  | S j => match nth_error lines j with
                           | Some before => significant before
                           | None => false
                           end
                  end)
            (combine (seq 0 (List.length lines)) lines)).

(** The same selection read line by line: [prev] tells whether the line
    before the first of [ls] was significant. *)
Fixpoint keep (prev : bool) (ls : list jsstring) : list jsstring :=
  match ls with
  | [] => []
  | l :: r =>
      if significant l || prev then l :: keep (significant l) r
      else keep (significant l) r
  end.

(** Two blank lines in a row somewhere in a list of lines. *)
Fixpoint has_blank_run (ls : list jsstring) : bool :=
  match ls with
  | a :: r =>
      match r with
      | b :: _ => (negb (significant a) && negb (significant b)) || has_blank_run r
      | [] => false
      end
  | [] => false
  end.

(** The last code unit of a line is a carriage return. *)
Fixpoint ends_with_CR (l : jsstring) : bool :=
  match l with
  | [] => false
  | c :: r => match r with
              | [] => (c =? CR)%N
              | _ :: _ => ends_with_CR r
              end
  end.

(** Some line other than the last ends with a carriage return. *)
Fixpoint inner_line_ends_with_CR (ls : list jsstring) : bool :=
  match ls with
  | l :: r => match r with
              | [] => false
              | _ :: _ => ends_with_CR l || inner_line_ends_with_CR r
              end
  | [] => false
  end.

(** A carriage return that no line feed follows immediately. *)
Fixpoint has_stray_CR (s : jsstring) : bool :=
  match s with
  | [] => false
  | c :: r =>
      ((c =? CR)%N && negb (match r with d :: _ => (d =? LF)%N | [] => false end))
      || has_stray_CR r
  end.

(** A line without its final carriage return, if it has one. *)
Fixpoint strip_CR (l : jsstring) : jsstring :=
  match l with
  | [] => []
  | c :: r => match r with
              | [] => if (c =? CR)%N then [] else [c]
              | _ :: _ => c :: strip_CR r
              end
  end.

(** Every line but the last without its final carriage return. *)
Fixpoint strip_inner_CR (ls : list jsstring) : list jsstring :=
  match ls with
  | [] => []
  | l :: r => match r with
              | [] => [l]
              | _ :: _ => strip_CR l :: strip_inner_CR r
              end
  end.

(** The number of code units in a list of lines. *)
Fixpoint total_length (ls : list jsstring) : nat :=
  match ls with
  | [] => 0
  | l :: r => List.length l + total_length r
  end.

(** A line without line feed. *)
Definition LF_free (l : jsstring) : Prop :=
  forallb (fun c => negb (c =? LF)%N) l = true.

(* ================================================================== *)
(** ** Vocabulary of the statements about the sanitizer *)

(** No node at or below [n] passes the test [bad]. *)
Fixpoint free_of (bad : node -> bool) (n : node) : bool :=
  negb (bad n)
  && match n with
     | Element _ _ cs => forallb (free_of bad) cs
     | _ => true
     end.

(** A test that does not look below the node it is asked about. *)
Definition shallow (bad : node -> bool) : Prop :=
  forall t a cs cs', bad (Element t a cs) = bad (Element t a cs').

(** What the enhanced sanitizer takes out of every document. *)
Definition noise (n : node) : bool := sel_noise n || has_tag "img" n.

(** What the minimal sanitizer takes out of every document. *)
Definition noise_minimal (n : node) : bool := sel_noise_minimal n || has_tag "img" n.

(* ================================================================== *)
(** ** Vocabulary of the statements about the processors *)

(** The options with another [format]. *)
Definition withFormat (f : FormatOption) (o : ProcessingOptions) : ProcessingOptions :=
  {| format := Some f; baseUrl := baseUrl o; trackPerformance := trackPerformance o;
     targetSelector := targetSelector o; removeSelector := removeSelector o;
     removeComments := removeComments o; withShadowDom := withShadowDom o;
     withIframe := withIframe o |}.

(** The options that only name a base URL. *)
Definition plainOptions (base : option jsstring) : ProcessingOptions :=
  {| format := None; baseUrl := base; trackPerformance := None;
     targetSelector := None; removeSelector := None; removeComments := None;
     withShadowDom := None; withIframe := None |}.

(** An href the enhanced link extraction turns away. *)
Definition rejectedHref (href : jsstring) : bool :=
  negb (truthy href)
  || startsWith (js "javascript:") href || startsWith (js "file:") href.

Definition link_eq_dec (a b : jsstring * jsstring) : {a = b} + {a <> b}.
Proof. repeat decide equality. Defined.

(** The anchors whose callback result is the entry [e]. *)
Definition anchorsYielding (harvest : node -> option (jsstring * jsstring))
    (e : jsstring * jsstring) (anchors : list node) : list node :=
  filter (fun x => match harvest x with
                   | Some e' => if link_eq_dec e' e then true else false
                   | None => false
                   end) anchors.


(** The options without [targetSelector]. *)
Definition withoutTarget (o : ProcessingOptions) : ProcessingOptions :=
  {| format := format o; baseUrl := baseUrl o; trackPerformance := trackPerformance o;
     targetSelector := None; removeSelector := removeSelector o;
     removeComments := removeComments o; withShadowDom := withShadowDom o;
     withIframe := withIframe o |}.

(** Whitespace-collapsed text: the only whitespace is the space, and never two
    in a row.  [afterSpace] tells whether the code unit before [s] was one. *)
Fixpoint single_spaced (afterSpace : bool) (s : jsstring) : bool :=
  match s with
  | [] => true
  | c :: r =>
      if is_whitespace c
      then (c =? SP)%N && negb afterSpace && single_spaced true r
      else single_spaced false r
  end.

(** Trimmed text: neither the first nor the last code unit is whitespace. *)
Definition trimmed (s : jsstring) : bool :=
  match s with
  | [] => true
  | c :: _ => negb (is_whitespace c) && negb (is_whitespace (last s c))
  end.

(* ================================================================== *)
(** ** Sample documents and collaborators

    Small environments in which the processors compute; the theorems are
    instantiated with them. *)

Definition el (tag : string) (attrs : list (string * string)) (children : list node) : node :=
  Element (js tag) (map (fun kv => (js (fst kv), js (snd kv))) attrs) children.

(** A whole page: a root element with a head and a body. *)
Definition page (bodyChildren : list node) : document :=
  [el "html" [] [el "head" [] []; el "body" [] bodyChildren]].

(** The markup of a whole page around the markup of its body. *)
Definition wholePage (inner : jsstring) : jsstring :=
  js "<html><head></head><body>" ++ inner ++ js "</body></html>".

(** The shell of line 95 around a markup, and the document of the empty
    shell: linkedom's parser adds no head. *)
Definition shellMarkup (inner : jsstring) : jsstring :=
  js "<html><body>" ++ inner ++ js "</body></html>".
Definition shell : document := [el "html" [] [el "body" [] []]].

(** A parser given by the finitely many markups it knows, with the elements
    linkedom's parser gives: the elements of the markup as they are written,
    none added.  Any other markup parses to the empty document, as the empty
    string does. *)
Fixpoint parseFrom (pages : list (jsstring * document)) (markup : jsstring) : document :=
  match pages with
  | [] => []
  | (m, d) :: r => if jseqb m markup then d else parseFrom r markup
  end.

Fixpoint markupOf (n : node) : jsstring :=
  match n with
  | Element t a cs =>
      js "<" ++ t
      ++ flat_map (fun kv => js " " ++ fst kv ++ js "=" ++ [DQUOTE] ++ snd kv ++ [DQUOTE]) a
      ++ js ">" ++ flat_map markupOf cs ++ js "</" ++ t ++ js ">"
  | Text s => s
  | Comment s => js "<!--" ++ s ++ js "-->"
  end.

(** The sample collaborators: the parser knows [pages]; Readability answers
    [article]; Turndown answers [md]; a selector is a tag name, and ["["] is
    not a selector; a URL resolves against an [http] base by concatenation
    when it starts with a slash; the k-th reading of the clock is k. *)
Definition sampleEnv (pages : list (jsstring * document))
    (article : Result (option Article)) (md : Result jsstring) : Env :=
  {| parseHTML := parseFrom pages;
     parseFragment := parseFrom pages;
     innerHTML := flat_map markupOf;
     documentTitle := fun _ => [];
     compileSelector := fun s =>
       if jseqb s (js "[") then Throw SyntaxError
       else Ok (fun d p => match node_at d p with
                           | Some (Element t _ _) => jseqb t s
                           | _ => false
                           end);
     newURL := fun href base =>
       if startsWith (js "http") base
       then if startsWith (js "/") href then Ok (base ++ href) else Ok href
       else Throw TypeError;
     readabilityParse := fun _ => article;
     turndownParse := fun markup => {| tree := parseFrom pages markup; rowsProp := [] |};
     turndownConvert := fun _ _ => md;
     now := fun k => QArith_base.Qmake (Z.of_nat k) 1 |}.

(** [<p>Hello</p><script>evil()</script>]: two elements, the first of which
    is the root element of the document. *)
Definition helloMarkup : jsstring := js "<p>Hello</p><script>evil()</script>".
Definition helloNodes : list node :=
  [el "p" [] [Text (js "Hello")]; el "script" [] [Text (js "evil()")]].

(** The same inside a whole page, and that page once the script is gone. *)
Definition helloPage : document := page helloNodes.
Definition helloClean : document := page [el "p" [] [Text (js "Hello")]].

(** [<a href="/x">Link</a>] *)
Definition linkMarkup : jsstring :=
  js "<a href=" ++ [DQUOTE] ++ js "/x" ++ [DQUOTE] ++ js ">Link</a>".
Definition linkNodes : list node :=
  [el "a" [("href"%string, "/x"%string)] [Text (js "Link")]].

(** [<a href="javascript:alert(1)">x</a>] *)
Definition scriptLinkMarkup : jsstring :=
  js "<a href=" ++ [DQUOTE] ++ js "javascript:alert(1)" ++ [DQUOTE] ++ js ">x</a>".
Definition scriptLinkNodes : list node :=
  [el "a" [("href"%string, "javascript:alert(1)"%string)] [Text (js "x")]].

(** The same anchor twice. *)
Definition twoLinksMarkup : jsstring := linkMarkup ++ linkMarkup.
Definition twoLinksNodes : list node := linkNodes ++ linkNodes.


(** [<pre>A\n\n\n\nB</pre>] *)
Definition preMarkup : jsstring := js "<pre>A" ++ [LF; LF; LF; LF] ++ js "B</pre>".
Definition preNodes : list node :=
  [el "pre" [] [Text (js "A" ++ [LF; LF; LF; LF] ++ js "B")]].

(** Options whose [targetSelector] is ["article"]. *)
Definition articleOptions : ProcessingOptions :=
  {| format := None; baseUrl := None; trackPerformance := None;
     targetSelector := Some (OneSelector (js "article"));
     removeSelector := None; removeComments := None;
     withShadowDom := None; withIframe := None |}.

(** The whole page that says Hello, with a Readability that finds no article
    and a Turndown that answers [Hello]. *)
Definition helloEnv : Env :=
  sampleEnv [(wholePage helloMarkup, helloPage);
             (helloMarkup, helloNodes);
             (js "<p>Hello</p>", [el "p" [] [Text (js "Hello")]]);
             (js "<p>Hello</p>" ++ [LF; LF], [el "p" [] [Text (js "Hello")]; Text [LF; LF]]);
             (shellMarkup [], shell)]
            (Ok None) (Ok (js "Hello")).

(* ================================================================== *)
(** ** The rules the processors register with Turndown

    A rule is a filter on the nodes of the tree Turndown converts and a
    replacement that receives the converted content of the node.  [nodeName]
    is the tag in upper case: ['CODE'] is the tag [code]. *)

Module Rules.

Definition BACKTICK : char16 := 96%N.
Definition BACKSLASH : char16 := 92%N.

(** [s.endsWith(p)] *)
Definition endsWith (p s : jsstring) : bool := startsWith (rev p) (rev s).

(** *** remove-irrelevant (lines 318-321) *)

Definition irrelevantFilter (n : node) : bool :=
  has_tag "style" n || has_tag "script" n || has_tag "noscript" n
  || has_tag "link" n || has_tag "textarea" n || has_tag "select" n.

Definition irrelevantReplacement (content : jsstring) : jsstring := [].

(** *** remove-empty-paragraphs (lines 323-328; minimal processor, lines 112-117) *)

Definition paragraphFilter (n : node) : bool := has_tag "p" n.

(** [content.trim() ? content + '\n\n' : ''] *)
Definition paragraphReplacement (content : jsstring) : jsstring :=
  if truthy (trim content) then content ++ [LF; LF] else [].

(** *** improved-code (lines 331-351) *)

(** The filter, for the child at position [i] of [parent]: a [code] element
    unless it is the only child of a [pre]. *)
Definition codeFilter (parent : node) (i : nat) : bool :=
  match nth_error (childNodes parent) i with
  | Some n =>
      let hasSiblings := negb (Nat.eqb (List.length (childNodes parent)) 1) in
      let isCodeBlock := has_tag "pre" parent && negb hasSiblings in
      has_tag "code" n && negb isCodeBlock
  | None => false
  end.

(** [content.match(/`+/gm) || []]: the maximal runs of backticks, left to
    right.  [run] is the run being read. *)
Fixpoint backtickRuns (run : jsstring) (s : jsstring) : list jsstring :=
  match s with
  | [] => match run with [] => [] | _ :: _ => [run] end
  | c :: r =>
      if (c =? BACKTICK)%N then backtickRuns (c :: run) r
      else match run with
           | [] => backtickRuns [] r
           | _ :: _ => run :: backtickRuns [] r
           end
  end.

(** [matches.indexOf(delimiter) !== -1] *)
Definition isMatch (matches : list jsstring) (delimiter : jsstring) : bool :=
  existsb (jseqb delimiter) matches.

(** [while (matches.indexOf(delimiter) !== -1) delimiter = delimiter + '`'],
    with a bound on the number of rounds. *)
Fixpoint growDelimiter (rounds : nat) (matches : list jsstring) (delimiter : jsstring)
  : jsstring :=
  match rounds with
  | O => delimiter
  | S k =>
      if isMatch matches delimiter
      then growDelimiter k matches (delimiter ++ [BACKTICK])
      else delimiter
  end.

(** The delimiter the loop of line 342 ends with: no run is longer than the
    content, so one round more than the content has code units is enough. *)
Definition loopDelimiter (content : jsstring) : jsstring :=
  growDelimiter (S (List.length content)) (backtickRuns [] content) [BACKTICK].

Definition fence : jsstring := [BACKTICK; BACKTICK; BACKTICK].

(** Line terminators: what [.] does not match. *)
Definition is_line_terminator (c : char16) : bool :=
  ((c =? 10) || (c =? 13) || (c =? 8232) || (c =? 8233))%N.

(** [.*?[^ ].*] matches the whole of [s]: some code unit is not a space, and
    no other one is a line terminator. *)
Fixpoint dotsNonSpaceDots (s : jsstring) : bool :=
  match s with
  | [] => false
  | c :: r =>
      (negb (c =? SP)%N && forallb (fun d => negb (is_line_terminator d)) r)
      || (negb (is_line_terminator c) && dotsNonSpaceDots r)
  end.

(** [/^`|^ .*?[^ ].* $|`$/.test(content)] *)
Definition needsPad (content : jsstring) : bool :=
  startsWith [BACKTICK] content
  || match content with
     | c :: rest =>
         (c =? SP)%N
         && match rev rest with
            | z :: middle => (z =? SP)%N && dotsNonSpaceDots (rev middle)
            | [] => false
            end
     | [] => false
     end
  || endsWith [BACKTICK] content.

(** The replacement. *)
Definition codeReplacement (content : jsstring) : jsstring :=
  if negb (truthy content) then []
  else
    let delimiter := loopDelimiter content in
    let delimiter := if includes [LF] content then fence else delimiter in
    let extraSpace :=
      if jseqb delimiter fence then [LF]
      else if needsPad content then [SP] else [] in
    delimiter ++ extraSpace ++ content
    ++ (if jseqb delimiter fence && negb (endsWith extraSpace content)
        then extraSpace else [])
    ++ delimiter.

(** *** improved-links (lines 354-380) *)

(** [options.linkStyle === 'inlined' && node.nodeName === 'A' &&
    node.getAttribute('href')]; the service is set up with the inlined style. *)
Definition linkFilter (n : node) : bool :=
  has_tag "a" n && truthy_opt (getAttribute "href" n).

(** [title.replace(/"/g, '\\"')] *)
Definition escapeQuotes (title : jsstring) : jsstring :=
  flat_map (fun c => if (c =? DQUOTE)%N then [BACKSLASH; DQUOTE] else [c]) title.

(** [s.replace(/\s+/g, '')] *)
Definition remove_ws (s : jsstring) : jsstring :=
  filter (fun c => negb (is_whitespace c)) s.

(** The title as it is appended to the link: [title || ''] after line 365. *)
Definition titlePart (n : node) : jsstring :=
  match getAttribute "title" n with
  | Some t =>
      if truthy t then [SP; DQUOTE] ++ escapeQuotes t ++ [DQUOTE] else []
  | None => []
  end.

(** The href as it is written (lines 368-376): without whitespace, resolved
    against the base URL when there is one and the resolution does not throw. *)
Definition fixedHref (E : Env) (base : option jsstring) (href : jsstring) : jsstring :=
  let fixed := trim (remove_ws href) in
  match base with
  | Some b =>
      if truthy b
      then match newURL E fixed b with
           | Ok u => u
           | Throw _ => fixed
           end
      else fixed
  | None => fixed
  end.

(** The replacement.  [href.replace] throws on [null]. *)
Definition linkReplacement (E : Env) (base : option jsstring) (content : jsstring)
    (n : node) : Result jsstring :=
  match getAttribute "href" n with
  | None => Throw TypeError
  | Some href =>
      let fixedContent := trim (collapse_ws content) in
      Ok (js "[" ++ fixedContent ++ js "](" ++ fixedHref E base href
          ++ titlePart n ++ js ")")
  end.

End Rules.

(* ================================================================== *)
(** ** Vocabulary of the statements about the rules and the stages *)

(** Every element at or below [n] passes the test [P] on its tag, attributes
    and children. *)
Fixpoint every_element
    (P : jsstring -> list (jsstring * jsstring) -> list node -> bool) (n : node) : bool :=
  match n with
  | Element t a cs => P t a cs && forallb (every_element P) cs
  | _ => true
  end.

(** No attribute is named [data-*] or [aria-*]. *)
Definition noDataAria (t : jsstring) (a : list (jsstring * jsstring)) (cs : list node) : bool :=
  forallb (fun kv => negb (startsWith (js "data-") (fst kv)
                           || startsWith (js "aria-") (fst kv))) a.

(** The [style] attribute, if there is one, starts in lower case with
    ['display: none']. *)
Definition styleOnlyHides (t : jsstring) (a : list (jsstring * jsstring)) (cs : list node) : bool :=
  match lookup_attr (js "style") a with
  | Some v => startsWith (js "display: none") (toLowerCase v)
  | None => true
  end.

(** An [svg] element has no children. *)
Definition svgIsEmpty (t : jsstring) (a : list (jsstring * jsstring)) (cs : list node) : bool :=
  if jseqb t (js "svg") then match cs with [] => true | _ :: _ => false end else true.

(** A string of [k] backticks. *)
Definition backticks (k : nat) : jsstring := repeat Rules.BACKTICK k.

(** Every double quote comes right after a backslash. [afterBackslash] tells
    whether the code unit before [s] was one. *)
Fixpoint quotesEscaped (afterBackslash : bool) (s : jsstring) : bool :=
  match s with
  | [] => true
  | c :: r =>
      (if (c =? DQUOTE)%N then afterBackslash else true)
      && quotesEscaped (c =? Rules.BACKSLASH)%N r
  end.

(** The inverse of [escapeQuotes]: a backslash right before a double quote goes. *)
Fixpoint unescapeQuotes (s : jsstring) : jsstring :=
  match s with
  | [] => []
  | c :: r =>
      match r with
      | d :: _ =>
          if ((c =? Rules.BACKSLASH) && (d =? DQUOTE))%N then unescapeQuotes r
          else c :: unescapeQuotes r
      | [] => [c]
      end
  end.

(** [sub] is [l] with some members left out. *)
Fixpoint subsequence {A} (eqb : A -> A -> bool) (sub l : list A) : bool :=
  match sub, l with
  | [], _ => true
  | _ :: _, [] => false
  | x :: sub', y :: l' =>
      if eqb x y then subsequence eqb sub' l' else subsequence eqb sub l'
  end.

(** The environment with another Readability. *)
Definition withReadability (E : Env) (parse : document -> Result (option Article)) : Env :=
  {| parseHTML := parseHTML E; parseFragment := parseFragment E;
     innerHTML := innerHTML E; documentTitle := documentTitle E;
     compileSelector := compileSelector E; newURL := newURL E;
     readabilityParse := parse;
     turndownParse := turndownParse E; turndownConvert := turndownConvert E;
     now := now E |}.

(** The frames the processors inline are the [iframe] and [frame] elements
    with a [src] attribute (the selector of line 115) whose
    [data-frame-content] is not empty (line 117).  Such a frame has neither
    [script] nor [style] among its descendants. *)
Definition inlinedFrameIsClean (t : jsstring) (a : list (jsstring * jsstring))
    (cs : list node) : bool :=
  if sel_frame (Element t a cs)
     && truthy_opt (getAttribute "data-frame-content" (Element t a cs))
  then forallb (free_of sel_script_style) cs
  else true.

(** A page whose elements carry attributes of every kind, and what the
    enhanced clean-up makes of it. *)
Definition dressedPage : document :=
  page [el "div" [("data-x"%string, "1"%string); ("style"%string, "color: red"%string);
                  ("aria-label"%string, "x"%string); ("id"%string, "d"%string)]
          [el "svg" [] [el "path" [] []];
           el "p" [("style"%string, "DISPLAY: NONE"%string)] [Text (js "t")]]].
Definition dressedClean : document :=
  page [el "div" [("id"%string, "d"%string)]
          [el "svg" [] [];
           el "p" [("style"%string, "DISPLAY: NONE"%string)] [Text (js "t")]]].

(** The selectors a [string | string[]] stands for. *)
Definition selectorList (sels : Selectors) : list jsstring :=
  match sels with
  | OneSelector s => [s]
  | ManySelectors ss => ss
  end.

(** The element at [p] in [dom] matches the selector [s]. *)
Definition matchedBy (E : Env) (dom : document) (p : path) (s : jsstring) : Prop :=
  exists matches, compileSelector E s = Ok matches
                  /\ In p (element_paths dom) /\ matches dom p = true.

(** Options whose [targetSelector] is the array [selectors]. *)
Definition targetOptions (selectors : list string) : ProcessingOptions :=
  {| format := None; baseUrl := None; trackPerformance := None;
     targetSelector := Some (ManySelectors (map js selectors));
     removeSelector := None; removeComments := None;
     withShadowDom := None; withIframe := None |}.

(** The href of an anchor begins with [javascript:] or [file:]. *)
Definition schemeRejected (x : node) : bool :=
  match getAttribute "href" x with
  | Some href => startsWith (js "javascript:") href || startsWith (js "file:") href
  | None => false
  end.

(** Two entries of [links] are the same pair. *)
Definition linkEqb (a b : jsstring * jsstring) : bool :=
  if link_eq_dec a b then true else false.

(** An element that is neither a shadow host carrying content nor a frame
    carrying content. *)
Definition noEmbeddedContent (t : jsstring) (a : list (jsstring * jsstring))
    (cs : list node) : bool :=
  negb ((sel_shadow_host (Element t a cs)
         && truthy_opt (getAttribute "data-shadow-content" (Element t a cs)))
        || (sel_frame (Element t a cs)
            && truthy_opt (getAttribute "data-frame-content" (Element t a cs)))).

(** A later reading of the clock is not smaller than an earlier one. *)
Definition clockNeverRunsBack (E : Env) : Prop :=
  forall i j : nat, i <= j -> QArith_base.Qle (now E i) (now E j).

(** Options that ask for the performance metrics. *)
Definition trackedOptions : ProcessingOptions :=
  {| format := None; baseUrl := None; trackPerformance := Some true;
     targetSelector := None; removeSelector := None; removeComments := None;
     withShadowDom := None; withIframe := None |}.

(** Readability finds no article in a document: it throws, answers [null], or
    answers an article without content. *)
Definition findsNoArticle (E : Env) (d : document) : Prop :=
  match readabilityParse E d with
  | Ok (Some a) => truthy_opt (art_content a) = false
  | _ => True
  end.

(** The empty string and the shell of line 95, with a Readability that finds
    no article. *)
Definition emptyEnv : Env := sampleEnv [(shellMarkup [], shell)] (Ok None) (Ok []).

(** Environments that know one markup each, with a Readability that finds no
    article and a Turndown that answers the empty string. *)
Definition scriptLinkEnv : Env := sampleEnv [(scriptLinkMarkup, scriptLinkNodes)] (Ok None) (Ok []).
Definition linkEnv : Env := sampleEnv [(linkMarkup, linkNodes)] (Ok None) (Ok []).
Definition twoLinksEnv : Env := sampleEnv [(twoLinksMarkup, twoLinksNodes)] (Ok None) (Ok []).

(** [https://example.com] and the entry of [<a href="/x">Link</a>] with it. *)
Definition exampleBase : jsstring := js "https://example.com".
Definition exampleEntry : jsstring * jsstring := (js "Link", js "https://example.com/x").

(** The options that only name a format and a base URL. *)
Definition formatOptions (f : FormatOption) (base : option jsstring) : ProcessingOptions :=
  {| format := Some f; baseUrl := base; trackPerformance := None;
     targetSelector := None; removeSelector := None; removeComments := None;
     withShadowDom := None; withIframe := None |}.


(** Turndown throws on the preformatted text given as it is. *)
Definition preEnv : Env := sampleEnv [(preMarkup, preNodes)] (Ok None) (Throw OtherError).

(** The whole page around the preformatted text, of which the caller targets
    the root element: the working markup is that page once more, followed by
    the two line feeds of line 259, and Turndown throws on it. *)
Definition htmlTargetOptions : ProcessingOptions :=
  {| format := None; baseUrl := None; trackPerformance := None;
     targetSelector := Some (OneSelector (js "html"));
     removeSelector := None; removeComments := None;
     withShadowDom := None; withIframe := None |}.
Definition preTargetEnv : Env :=
  sampleEnv [(wholePage preMarkup, page preNodes);
             (shellMarkup [], shell);
             (wholePage preMarkup ++ [LF; LF], page preNodes ++ [Text [LF; LF]])]
            (Ok None) (Throw OtherError).

(** A whole page of which Readability takes the second paragraph, and on
    which Turndown throws. *)
Definition teaserMarkup : jsstring := js "<p>Teaser</p><p>Story</p>".
Definition teaserNodes : list node :=
  [el "p" [] [Text (js "Teaser")]; el "p" [] [Text (js "Story")]].
Definition storyMarkup : jsstring := js "<p>Story</p>".
Definition teaserEnv : Env :=
  sampleEnv [(wholePage teaserMarkup, page teaserNodes);
             (storyMarkup, [el "p" [] [Text (js "Story")]])]
            (Ok (Some {| art_title := None; art_content := Some storyMarkup |}))
            (Throw OtherError).

(** A page with a comment in front of its root element and another in its
    body, and what the enhanced clean-up makes of it. *)
Definition commentedPage : document :=
  [Comment (js "top");
   el "html" [] [el "head" [] [];
                 el "body" [] [Comment (js "in"); el "p" [] [Text (js "Hello")]]]].
Definition commentedClean : document :=
  [Comment (js "top");
   el "html" [] [el "head" [] []; el "body" [] [el "p" [] [Text (js "Hello")]]]].

(* ================================================================== *)
(** * Properties *)

(** ** The whitespace normalizer *)

Section Normalizer.

Local Open Scope list_scope.

(** Induction that follows [split_lines], which may consume two code units. *)
Lemma list_ind_two (A : Type) (P : list A -> Prop) :
  P [] -> (forall a, P [a]) ->
  (forall a b l, P l -> P (b :: l) -> P (a :: b :: l)) ->
  forall l, P l.
Proof.
  intros H0 H1 H2 l.
  assert (H : P l /\ forall a, P (a :: l)).
  { induction l as [|b l [IH1 IH2]].
    - split; [exact H0 | exact H1].
    - split; [apply IH2 | intros a; apply H2; [exact IH1 | apply IH2]]. }
  exact (proj1 H).
Qed.

Lemma trimStart_nil (s : jsstring) :
  trimStart s = [] <-> forallb is_whitespace s = true.
Proof.
  induction s as [|c r IH]; simpl.
  - tauto.
  - destruct (is_whitespace c); simpl.
    + exact IH.
    + split; discriminate.
Qed.

Lemma trimStart_all (s : jsstring) :
  forallb is_whitespace (trimStart s) = forallb is_whitespace s.
Proof.
  induction s as [|c r IH]; simpl; [reflexivity|].
  destruct (is_whitespace c) eqn:W; simpl; [exact IH | now rewrite W].
Qed.

Lemma forallb_rev (A : Type) (f : A -> bool) (l : list A) :
  forallb f (rev l) = forallb f l.
Proof.
  induction l as [|a l IH]; simpl; [reflexivity|].
  rewrite forallb_app, IH. simpl. rewrite andb_true_r. apply andb_comm.
Qed.

(** A line is significant exactly when some code unit of it is not whitespace. *)
Lemma significant_forallb (l : jsstring) :
  significant l = negb (forallb is_whitespace l).
Proof.
  unfold significant, trim, trimEnd.
  destruct (forallb is_whitespace l) eqn:W; simpl.
  - apply trimStart_nil in W. rewrite W. reflexivity.
  - destruct (rev (trimStart (rev (trimStart l)))) as [|x y] eqn:R; [|reflexivity].
    exfalso.
    apply (f_equal (@rev _)) in R. rewrite rev_involutive in R. simpl in R.
    apply trimStart_nil in R. rewrite forallb_rev, trimStart_all in R. congruence.
Qed.

Lemma strip_CR_cons (c : char16) (r : jsstring) :
  r <> [] -> strip_CR (c :: r) = c :: strip_CR r.
Proof. destruct r; [congruence | reflexivity]. Qed.

Lemma forallb_strip_CR (l : jsstring) :
  forallb is_whitespace (strip_CR l) = forallb is_whitespace l.
Proof.
  induction l as [|c r IH]; [reflexivity|].
  destruct r as [|d r'].
  - simpl. destruct (N.eqb_spec c CR) as [->|_]; reflexivity.
  - rewrite strip_CR_cons by discriminate.
    change (forallb is_whitespace (c :: strip_CR (d :: r')))
      with (is_whitespace c && forallb is_whitespace (strip_CR (d :: r'))).
    rewrite IH. reflexivity.
Qed.

Lemma significant_strip_CR (l : jsstring) : significant (strip_CR l) = significant l.
Proof. now rewrite !significant_forallb, forallb_strip_CR. Qed.

Lemma strip_CR_fixed (l : jsstring) : ends_with_CR l = false -> strip_CR l = l.
Proof.
  induction l as [|c r IH]; [reflexivity|].
  destruct r as [|d r'].
  - simpl. intros ->. reflexivity.
  - intros H. rewrite strip_CR_cons by discriminate. f_equal. apply IH. exact H.
Qed.

Lemma strip_CR_length (l : jsstring) :
  List.length (strip_CR l) = (List.length l - (if ends_with_CR l then 1 else 0))%nat.
Proof.
  induction l as [|c r IH]; [reflexivity|].
  destruct r as [|d r'].
  - simpl. destruct (c =? CR)%N; reflexivity.
  - rewrite strip_CR_cons by discriminate.
    change (ends_with_CR (c :: d :: r')) with (ends_with_CR (d :: r')).
    simpl List.length in *. rewrite IH.
    destruct (ends_with_CR (d :: r')); lia.
Qed.

Lemma strip_inner_CR_fixed (ls : list jsstring) :
  inner_line_ends_with_CR ls = false -> strip_inner_CR ls = ls.
Proof.
  induction ls as [|l r IH]; [reflexivity|].
  destruct r as [|l' r']; [reflexivity|].
  change (inner_line_ends_with_CR (l :: l' :: r'))
    with (ends_with_CR l || inner_line_ends_with_CR (l' :: r')).
  intros H. apply orb_false_iff in H. destruct H as [H1 H2].
  change (strip_inner_CR (l :: l' :: r')) with (strip_CR l :: strip_inner_CR (l' :: r')).
  now rewrite strip_CR_fixed, IH.
Qed.

Lemma map_significant_strip_inner (ls : list jsstring) :
  map significant (strip_inner_CR ls) = map significant ls.
Proof.
  induction ls as [|l r IH]; [reflexivity|].
  destruct r as [|l' r']; [reflexivity|].
  change (strip_inner_CR (l :: l' :: r')) with (strip_CR l :: strip_inner_CR (l' :: r')).
  rewrite map_cons, IH, significant_strip_CR. reflexivity.
Qed.

(** *** Splitting *)

Lemma split_lines_step (c : char16) (r : jsstring) :
  split_lines (c :: r)
  = if (c =? LF)%N then [] :: split_lines r
    else match (c =? CR)%N, r with
         | true, d :: r' =>
             if (d =? LF)%N then [] :: split_lines r'
             else match split_lines r with
                  | l :: ls => (c :: l) :: ls
                  | [] => [[c]]
                  end
         | _, _ =>
             match split_lines r with
             | l :: ls => (c :: l) :: ls
             | [] => [[c]]
             end
         end.
Proof. reflexivity. Qed.

Lemma split_lines_not_nil (s : jsstring) : split_lines s <> [].
Proof.
  destruct s as [|c r]; [discriminate|].
  rewrite split_lines_step.
  destruct (c =? LF)%N; [discriminate|].
  destruct (c =? CR)%N, r as [|e r'']; try destruct (e =? LF)%N;
    try discriminate; destruct (split_lines _); discriminate.
Qed.

Lemma split_lines_cons (c : char16) (r : jsstring) :
  (c =? LF)%N = false ->
  ((c =? CR)%N = false \/ (exists d r', r = d :: r' /\ (d =? LF)%N = false) \/ r = []) ->
  exists l ls, split_lines r = l :: ls /\ split_lines (c :: r) = (c :: l) :: ls.
Proof.
  intros HLF H.
  destruct (split_lines r) as [|l ls] eqn:Hs; [now destruct (split_lines_not_nil _ Hs)|].
  exists l, ls. split; [reflexivity|].
  rewrite split_lines_step, HLF, Hs.
  destruct H as [H | [(d' & r'' & Heq & Hd) | H]].
  - now rewrite H.
  - subst r. rewrite Hd. now destruct (c =? CR)%N.
  - subst r. now destruct (c =? CR)%N.
Qed.

(** A line without line feed is one line. *)
Lemma split_lines_LF_free (l : jsstring) : LF_free l -> split_lines l = [l].
Proof.
  unfold LF_free. induction l as [|c r IH]; [reflexivity|].
  intros H. simpl in H. apply andb_true_iff in H. destruct H as [Hc Hr].
  apply negb_true_iff in Hc.
  specialize (IH Hr).
  destruct (split_lines_cons c r Hc) as (l & ls & Hs & Hc').
  - destruct r as [|d r']; [now right; right|].
    right; left. exists d, r'. split; [reflexivity|].
    simpl in Hr. apply andb_true_iff in Hr. now apply negb_true_iff.
  - rewrite Hc'. rewrite IH in Hs. now inversion Hs.
Qed.

(** A line followed by a line feed: the separator takes the carriage return
    the line ends with, if any. *)
Lemma split_lines_app_LF (l rest : jsstring) :
  LF_free l -> split_lines (l ++ LF :: rest) = strip_CR l :: split_lines rest.
Proof.
  unfold LF_free. induction l as [|c r IH]; intros H.
  - reflexivity.
  - simpl in H. apply andb_true_iff in H. destruct H as [Hc Hr].
    apply negb_true_iff in Hc. specialize (IH Hr).
    destruct r as [|d r'].
    + change ([c] ++ LF :: rest) with (c :: LF :: rest).
      rewrite split_lines_step, Hc. change (LF =? LF)%N with true.
      cbn [strip_CR]. destruct (c =? CR)%N; [reflexivity|].
      change (split_lines (LF :: rest)) with ([] :: split_lines rest). reflexivity.
    + rewrite strip_CR_cons by discriminate.
      assert (Hd : (d =? LF)%N = false).
      { simpl in Hr. apply andb_true_iff in Hr. now apply negb_true_iff. }
      destruct (split_lines_cons c ((d :: r') ++ LF :: rest) Hc) as (l & ls & Hs & Hc').
      * right; left. exists d, (r' ++ LF :: rest). split; [reflexivity | exact Hd].
      * change ((c :: d :: r') ++ LF :: rest) with (c :: (d :: r') ++ LF :: rest).
        rewrite Hc'. rewrite IH in Hs. now inversion Hs.
Qed.

Lemma split_lines_join (ls : list jsstring) :
  ls <> [] -> Forall LF_free ls ->
  split_lines (join [LF] ls) = strip_inner_CR ls.
Proof.
  induction ls as [|l r IH]; [congruence|].
  intros _ H. inversion H as [|? ? Hl Hr]; subst.
  destruct r as [|l' r'].
  - simpl. now apply split_lines_LF_free.
  - change (join [LF] (l :: l' :: r')) with (l ++ LF :: join [LF] (l' :: r')).
    rewrite split_lines_app_LF by exact Hl.
    rewrite IH by (try discriminate; exact Hr). reflexivity.
Qed.

Lemma split_lines_are_LF_free (s : jsstring) : Forall LF_free (split_lines s).
Proof.
  induction s as [| a | a b r IH1 IH2] using list_ind_two.
  - repeat constructor.
  - simpl. destruct (N.eqb_spec a LF) as [->|NE].
    + repeat constructor.
    + assert (LF_free [a]).
      { unfold LF_free. simpl. apply N.eqb_neq in NE. now rewrite NE. }
      destruct (a =? CR)%N; repeat constructor; assumption.
  - rewrite split_lines_step.
    destruct (a =? LF)%N eqn:Ha; [constructor; [reflexivity | exact IH2]|].
    assert (G : forall l ls, Forall LF_free (l :: ls) -> Forall LF_free ((a :: l) :: ls)).
    { intros l ls F. inversion F; subst. constructor; [|assumption].
      unfold LF_free in *. simpl. now rewrite Ha. }
    destruct (a =? CR)%N.
    + destruct (b =? LF)%N eqn:Hb; [constructor; [reflexivity | exact IH1]|].
      destruct (split_lines (b :: r)) as [|l ls] eqn:S.
      * now destruct (split_lines_not_nil _ S).
      * now apply G.
    + destruct (split_lines (b :: r)) as [|l ls] eqn:S.
      * now destruct (split_lines_not_nil _ S).
      * now apply G.
Qed.

(** *** Selecting *)

Lemma index_app_here (A : Type) (pre : list A) (x : A) (r : list A) :
  index (pre ++ x :: r) (Z.of_nat (List.length pre)) = Some x.
Proof.
  unfold index. destruct (Z.ltb_spec (Z.of_nat (List.length pre)) 0); [lia|].
  rewrite Nat2Z.id. rewrite nth_error_app2 by lia. now rewrite Nat.sub_diag.
Qed.

Lemma filter_from_keep (pre suf : list jsstring) :
  let flags := map significant (pre ++ suf) in
  filter_from (fun (_ : jsstring) i =>
                 truthy_flag (index flags i) || truthy_flag (index flags (i - 1)))
              (Z.of_nat (List.length pre)) suf
  = keep (truthy_flag (index flags (Z.of_nat (List.length pre) - 1))) suf.
Proof.
  revert pre. induction suf as [|x r IH]; intros pre flags; [reflexivity|].
  cbn [filter_from keep].
  assert (Hx : index flags (Z.of_nat (List.length pre)) = Some (significant x)).
  { unfold flags. rewrite map_app. cbn [map].
    rewrite <- (length_map significant pre). apply index_app_here. }
  rewrite Hx. cbn [truthy_flag].
  specialize (IH (pre ++ [x])).
  rewrite <- app_assoc in IH. cbn [app] in IH. cbv zeta in IH. fold flags in IH.
  rewrite length_app in IH. cbn [List.length] in IH.
  replace (Z.of_nat (List.length pre + 1)) with (Z.of_nat (List.length pre) + 1)%Z in IH by lia.
  replace (Z.of_nat (List.length pre) + 1 - 1)%Z with (Z.of_nat (List.length pre)) in IH by lia.
  rewrite Hx in IH. cbn [truthy_flag] in IH. rewrite IH.
  reflexivity.
Qed.

Lemma keptLines_keep (text : jsstring) : keptLines text = keep false (split_lines text).
Proof.
  unfold keptLines, filter_indexed.
  exact (filter_from_keep [] (split_lines text)).
Qed.

Lemma keptBySpec_keep_from (pre suf : list jsstring) :
  map snd
    (filter (fun il : nat * jsstring =>
               significant (snd il)
               || match fst il with
                  | O => false
                  | S j => match nth_error (pre ++ suf) j with
                           | Some before => significant before
                           | None => false
                           end
                  end)
            (combine (seq (List.length pre) (List.length suf)) suf))
  = keep (match rev pre with p :: _ => significant p | [] => false end) suf.
Proof.
  revert pre. induction suf as [|x r IH]; intros pre; [reflexivity|].
  cbn [List.length seq combine filter fst snd keep].
  assert (Hprev : match List.length pre with
                  | O => false
                  | S j => match nth_error (pre ++ x :: r) j with
                           | Some before => significant before
                           | None => false
                           end
                  end = match rev pre with p :: _ => significant p | [] => false end).
  { destruct pre as [|p pre'] using rev_ind; [reflexivity|].
    rewrite rev_app_distr. cbn [rev app]. rewrite length_app. cbn [List.length].
    replace (List.length pre' + 1)%nat with (S (List.length pre')) by lia.
    rewrite <- app_assoc. rewrite nth_error_app2 by lia. now rewrite Nat.sub_diag. }
  rewrite Hprev.
  specialize (IH (pre ++ [x])).
  rewrite <- app_assoc in IH. cbn [app] in IH.
  rewrite length_app in IH. cbn [List.length] in IH.
  replace (List.length pre + 1)%nat with (S (List.length pre)) in IH by lia.
  rewrite rev_app_distr in IH. cbn [rev app] in IH.
  destruct (significant x || match rev pre with p :: _ => significant p | [] => false end);
    cbn [map snd]; rewrite IH; reflexivity.
Qed.

Lemma keptBySpec_keep (lines : list jsstring) : keptBySpec lines = keep false lines.
Proof. exact (keptBySpec_keep_from [] lines). Qed.

Lemma has_blank_run_step (a b : jsstring) (r : list jsstring) :
  has_blank_run (a :: b :: r)
  = (negb (significant a) && negb (significant b)) || has_blank_run (b :: r).
Proof. reflexivity. Qed.

Lemma keep_head_significant (ls : list jsstring) (a : jsstring) (rest : list jsstring) :
  keep false ls = a :: rest -> significant a = true.
Proof.
  induction ls as [|l r IH]; [discriminate|].
  cbn [keep]. rewrite orb_false_r. destruct (significant l) eqn:S.
  - intros H. inversion H; subst. exact S.
  - exact IH.
Qed.

Lemma keep_no_blank_run (prev : bool) (ls : list jsstring) :
  has_blank_run (keep prev ls) = false.
Proof.
  revert prev. induction ls as [|l r IH]; intros prev; [reflexivity|].
  cbn [keep]. destruct (significant l) eqn:S; cbn [orb].
  - specialize (IH true). destruct (keep true r) as [|b r']; [reflexivity|].
    rewrite has_blank_run_step, S. exact IH.
  - destruct prev; [|apply IH].
    destruct (keep false r) as [|b r'] eqn:K; [reflexivity|].
    rewrite has_blank_run_step, (keep_head_significant _ _ _ K), andb_false_r.
    rewrite <- K. apply IH.
Qed.

Lemma keep_length (prev : bool) (ls : list jsstring) :
  (List.length (keep prev ls) <= List.length ls)%nat.
Proof.
  revert prev. induction ls as [|l r IH]; intros prev; [apply le_n|].
  cbn [keep]. specialize (IH (significant l)).
  destruct (significant l || prev); cbn [List.length]; lia.
Qed.

Lemma keep_idempotent (prev : bool) (ls : list jsstring) :
  keep prev (keep prev ls) = keep prev ls.
Proof.
  revert prev. induction ls as [|l r IH]; intros prev; [reflexivity|].
  cbn [keep]. destruct (significant l) eqn:S; cbn [orb].
  - cbn [keep]. rewrite S. cbn [orb]. now rewrite IH.
  - destruct prev.
    + cbn [keep]. rewrite S. cbn [orb]. now rewrite IH.
    + apply IH.
Qed.

(** Whether [keep] keeps everything depends on the significance of the lines only. *)
Lemma keep_all_by_flags (prev : bool) (ls ls' : list jsstring) :
  map significant ls = map significant ls' ->
  keep prev ls = ls -> keep prev ls' = ls'.
Proof.
  revert prev ls'. induction ls as [|l r IH]; intros prev ls' Hm Hk.
  - destruct ls'; [reflexivity | discriminate].
  - destruct ls' as [|l' r']; [discriminate|].
    cbn [map] in Hm. inversion Hm as [[Hs Hr]].
    cbn [keep] in *. rewrite <- Hs.
    destruct (significant l || prev).
    + injection Hk as Hk'. f_equal. now apply IH.
    + exfalso. pose proof (keep_length (significant l) r) as Hl.
      rewrite Hk in Hl. cbn [List.length] in Hl. lia.
Qed.

Lemma has_blank_run_by_flags (ls ls' : list jsstring) :
  map significant ls = map significant ls' ->
  has_blank_run ls = has_blank_run ls'.
Proof.
  revert ls'. induction ls as [|a r IH]; intros ls' H.
  - destruct ls'; [reflexivity | discriminate].
  - destruct ls' as [|a' r']; [discriminate|].
    cbn [map] in H. injection H as Ha Hr.
    specialize (IH r' Hr).
    destruct r as [|b r0], r' as [|b' r0']; try discriminate; [reflexivity|].
    rewrite !has_blank_run_step, IH, Ha.
    cbn [map] in Hr. injection Hr as Hb _. now rewrite Hb.
Qed.

Lemma Forall_keep (P : jsstring -> Prop) (prev : bool) (ls : list jsstring) :
  Forall P ls -> Forall P (keep prev ls).
Proof.
  revert prev. induction ls as [|l r IH]; intros prev H; [constructor|].
  inversion H; subst. cbn [keep].
  destruct (significant l || prev); [constructor|]; auto.
Qed.

Lemma keptLines_LF_free (text : jsstring) : Forall LF_free (keptLines text).
Proof. rewrite keptLines_keep. apply Forall_keep, split_lines_are_LF_free. Qed.

(** The lines of the normalizer's output: the kept lines, the inner ones
    without the carriage return they ended with. *)
Lemma split_lines_clean (text : jsstring) :
  keptLines text <> [] ->
  split_lines (cleanRedundantEmptyLines text) = strip_inner_CR (keptLines text).
Proof.
  intros NE. unfold cleanRedundantEmptyLines.
  apply split_lines_join; [exact NE | apply keptLines_LF_free].
Qed.

(** The normalizer applied to its own output. *)
Lemma clean_clean (text : jsstring) :
  cleanRedundantEmptyLines (cleanRedundantEmptyLines text)
  = join [LF] (strip_inner_CR (keptLines text)).
Proof.
  destruct (keptLines text) as [|l r] eqn:K.
  - unfold cleanRedundantEmptyLines at 2. rewrite K. reflexivity.
  - unfold cleanRedundantEmptyLines at 1.
    rewrite keptLines_keep.
    rewrite split_lines_clean by (rewrite K; discriminate).
    rewrite K. f_equal.
    apply keep_all_by_flags with (ls := l :: r).
    + symmetry. apply map_significant_strip_inner.
    + rewrite <- K, keptLines_keep. apply keep_idempotent.
Qed.

Lemma join_length (ls : list jsstring) :
  List.length (join [LF] ls) = (total_length ls + (List.length ls - 1))%nat.
Proof.
  induction ls as [|l r IH]; [reflexivity|].
  destruct r as [|l' r']; [simpl; lia|].
  change (join [LF] (l :: l' :: r')) with (l ++ [LF] ++ join [LF] (l' :: r')).
  rewrite !length_app, IH. cbn [List.length total_length]. lia.
Qed.

Lemma strip_CR_length_le (l : jsstring) :
  (List.length (strip_CR l) <= List.length l)%nat.
Proof. rewrite strip_CR_length. lia. Qed.

Lemma strip_CR_length_lt (l : jsstring) :
  ends_with_CR l = true -> (List.length (strip_CR l) < List.length l)%nat.
Proof.
  intros H. rewrite strip_CR_length, H.
  destruct l; [discriminate | simpl; lia].
Qed.

Lemma strip_inner_CR_total_le (ls : list jsstring) :
  (total_length (strip_inner_CR ls) <= total_length ls)%nat.
Proof.
  induction ls as [|l r IH]; [apply le_n|].
  destruct r as [|l' r']; [apply le_n|].
  change (strip_inner_CR (l :: l' :: r')) with (strip_CR l :: strip_inner_CR (l' :: r')).
  change (total_length (strip_CR l :: strip_inner_CR (l' :: r')))
    with (List.length (strip_CR l) + total_length (strip_inner_CR (l' :: r')))%nat.
  change (total_length (l :: l' :: r')) with (List.length l + total_length (l' :: r'))%nat.
  pose proof (strip_CR_length_le l). lia.
Qed.

Lemma strip_inner_CR_total_lt (ls : list jsstring) :
  inner_line_ends_with_CR ls = true ->
  (total_length (strip_inner_CR ls) < total_length ls)%nat.
Proof.
  induction ls as [|l r IH]; [discriminate|].
  destruct r as [|l' r']; [discriminate|].
  change (inner_line_ends_with_CR (l :: l' :: r'))
    with (ends_with_CR l || inner_line_ends_with_CR (l' :: r')).
  change (strip_inner_CR (l :: l' :: r')) with (strip_CR l :: strip_inner_CR (l' :: r')).
  change (total_length (strip_CR l :: strip_inner_CR (l' :: r')))
    with (List.length (strip_CR l) + total_length (strip_inner_CR (l' :: r')))%nat.
  change (total_length (l :: l' :: r')) with (List.length l + total_length (l' :: r'))%nat.
  intros H.
  pose proof (strip_inner_CR_total_le (l' :: r')) as LE.
  pose proof (strip_CR_length_le l) as LE1.
  destruct (ends_with_CR l) eqn:EL.
  - pose proof (strip_CR_length_lt l EL). lia.
  - cbn [orb] in H. specialize (IH H). lia.
Qed.

Lemma strip_inner_CR_length (ls : list jsstring) :
  List.length (strip_inner_CR ls) = List.length ls.
Proof.
  induction ls as [|l r IH]; [reflexivity|].
  destruct r as [|l' r']; [reflexivity|].
  change (strip_inner_CR (l :: l' :: r')) with (strip_CR l :: strip_inner_CR (l' :: r')).
  cbn [List.length] in *. now rewrite IH.
Qed.

(** Where carriage returns only occur in front of line feeds, no line has one. *)
Lemma split_lines_no_CR (s : jsstring) :
  has_stray_CR s = false ->
  Forall (fun l => forallb (fun c => negb (c =? CR)%N) l = true) (split_lines s).
Proof.
  induction s as [| a | a b r IH1 IH2] using list_ind_two.
  - intros _. repeat constructor.
  - cbn. destruct (a =? CR)%N eqn:Ha; [discriminate|]. intros _.
    destruct (a =? LF)%N; repeat constructor; cbn; now rewrite Ha.
  - intros H. cbn [has_stray_CR] in H. apply orb_false_iff in H. destruct H as [H1 H2].
    specialize (IH2 H2).
    assert (H3 : has_stray_CR r = false).
    { cbn [has_stray_CR] in H2. apply orb_false_iff in H2. apply H2. }
    specialize (IH1 H3).
    rewrite split_lines_step.
    destruct (a =? LF)%N eqn:HaL; [constructor; [reflexivity | exact IH2]|].
    destruct (a =? CR)%N eqn:Ha.
    + cbn [andb] in H1. apply negb_false_iff in H1. rewrite H1.
      constructor; [reflexivity | exact IH1].
    + destruct (split_lines (b :: r)) as [|l ls] eqn:S.
      * now destruct (split_lines_not_nil _ S).
      * inversion IH2; subst. constructor; [|assumption].
        cbn [forallb]. rewrite Ha. assumption.
Qed.

Lemma no_CR_not_ends (l : jsstring) :
  forallb (fun c => negb (c =? CR)%N) l = true -> ends_with_CR l = false.
Proof.
  induction l as [|c r IH]; [reflexivity|].
  cbn [forallb]. intros H. apply andb_true_iff in H. destruct H as [Hc Hr].
  destruct r as [|d r']; [now apply negb_true_iff in Hc|].
  exact (IH Hr).
Qed.

Lemma no_CR_no_inner (ls : list jsstring) :
  Forall (fun l => forallb (fun c => negb (c =? CR)%N) l = true) ls ->
  inner_line_ends_with_CR ls = false.
Proof.
  induction ls as [|l r IH]; [reflexivity|].
  intros H. inversion H; subst.
  destruct r as [|l' r']; [reflexivity|].
  change (inner_line_ends_with_CR (l :: l' :: r'))
    with (ends_with_CR l || inner_line_ends_with_CR (l' :: r')).
  rewrite no_CR_not_ends by assumption. now apply IH.
Qed.

End Normalizer.

(** C6. The normalizer keeps exactly the lines that are significant or that
    follow a significant line.  Hence its output never has two blank lines
    in a row, neither among the lines it joins nor among the lines its
    output splits into, and never starts with a blank line: the first kept
    line is significant, and the first line of the output is blank only when
    the output is the empty string.  On ["A\n\n\n\nB"] the output is
    ["A\n\nB"]. *)
Theorem cleanRedundantEmptyLines_keeps_lines_after_significant :
  forall text : jsstring,
    keptLines text = keptBySpec (split_lines text)
    /\ cleanRedundantEmptyLines text = join [LF] (keptBySpec (split_lines text))
    /\ has_blank_run (keptLines text) = false
    /\ has_blank_run (split_lines (cleanRedundantEmptyLines text)) = false
    /\ (forall l rest, keptLines text = l :: rest -> significant l = true)
    /\ (forall l rest,
          split_lines (cleanRedundantEmptyLines text) = l :: rest ->
          significant l = false -> cleanRedundantEmptyLines text = [])
    /\ cleanRedundantEmptyLines (js "A" ++ [LF; LF; LF; LF] ++ js "B")
       = js "A" ++ [LF; LF] ++ js "B".
Proof.
  intros text.
  assert (K : keptLines text = keptBySpec (split_lines text)).
  { now rewrite keptLines_keep, keptBySpec_keep. }
  split; [exact K|].
  split; [unfold cleanRedundantEmptyLines; now rewrite K|].
  split; [rewrite keptLines_keep; apply keep_no_blank_run|].
  split.
  { destruct (keptLines text) as [|l r] eqn:E.
    - unfold cleanRedundantEmptyLines. rewrite E. reflexivity.
    - rewrite split_lines_clean by (rewrite E; discriminate).
      rewrite (has_blank_run_by_flags _ (keptLines text))
        by apply map_significant_strip_inner.
      rewrite keptLines_keep. apply keep_no_blank_run. }
  split.
  { intros l rest H. rewrite keptLines_keep in H.
    exact (keep_head_significant _ _ _ H). }
  split; [|reflexivity].
  intros l rest H Hl.
  destruct (keptLines text) as [|k r] eqn:E.
  - unfold cleanRedundantEmptyLines. now rewrite E.
  - exfalso.
    rewrite split_lines_clean in H by (rewrite E; discriminate).
    assert (Hk : significant k = true).
    { rewrite keptLines_keep in E. exact (keep_head_significant _ _ _ E). }
    pose proof (map_significant_strip_inner (keptLines text)) as M.
    rewrite H, E in M. cbn [map] in M. injection M as M _. congruence.
Qed.

(** C7, as stated, fails: a line that ends with a
    carriage return loses it when the output is split again. *)
Lemma cleanRedundantEmptyLines_not_idempotent :
  let s := js "a" ++ [CR; CR; LF] ++ js "b" in
  cleanRedundantEmptyLines s = js "a" ++ [CR; LF] ++ js "b"
  /\ cleanRedundantEmptyLines (cleanRedundantEmptyLines s) = js "a" ++ [LF] ++ js "b"
  /\ cleanRedundantEmptyLines (cleanRedundantEmptyLines s) <> cleanRedundantEmptyLines s.
Proof.
  cbv zeta. split; [reflexivity|]. split; [reflexivity|].
  vm_compute. discriminate.
Qed.

(** C7, amended.  Normalizing twice gives what normalizing once gives exactly
    when no kept line other than the last ends with a carriage return; this is
    the case of every text in which each carriage return is immediately
    followed by a line feed, so of every text without carriage returns. *)
Theorem cleanRedundantEmptyLines_idempotent_iff :
  forall s : jsstring,
    (cleanRedundantEmptyLines (cleanRedundantEmptyLines s) = cleanRedundantEmptyLines s
     <-> inner_line_ends_with_CR (keptLines s) = false)
    /\ (has_stray_CR s = false ->
        cleanRedundantEmptyLines (cleanRedundantEmptyLines s) = cleanRedundantEmptyLines s).
Proof.
  intros s.
  assert (Iff : cleanRedundantEmptyLines (cleanRedundantEmptyLines s)
                = cleanRedundantEmptyLines s
                <-> inner_line_ends_with_CR (keptLines s) = false).
  { rewrite clean_clean. unfold cleanRedundantEmptyLines at 1. split.
    - intros H. destruct (inner_line_ends_with_CR (keptLines s)) eqn:I; [|reflexivity].
      exfalso. apply (f_equal (@List.length _)) in H.
      rewrite !join_length, strip_inner_CR_length in H.
      pose proof (strip_inner_CR_total_lt _ I). lia.
    - intros H. now rewrite strip_inner_CR_fixed. }
  split; [exact Iff|].
  intros H. apply Iff. apply no_CR_no_inner.
  rewrite keptLines_keep. apply Forall_keep. now apply split_lines_no_CR.
Qed.

Lemma cleanRedundantEmptyLines_idempotent_witness :
  let s := js "A" ++ [CR; LF; LF; LF; LF] ++ js "B" in
  has_stray_CR s = false
  /\ inner_line_ends_with_CR (keptLines s) = false
  /\ cleanRedundantEmptyLines (cleanRedundantEmptyLines s) = cleanRedundantEmptyLines s.
Proof.
  cbv zeta. split; [reflexivity|]. split; [reflexivity|].
  exact (proj2 (cleanRedundantEmptyLines_idempotent_iff
                  (js "A" ++ [CR; LF; LF; LF; LF] ++ js "B")) eq_refl).
Defined.

(* ================================================================== *)
(** ** The processors *)

Section Pipeline.

Variable E : Env.

(** *** The getters of the document *)

Lemma head_returns (d : document) (root : node) :
  documentElement d = Some root ->
  head d = Ok (headIn (withHead (childNodes root)), on_root (with_children withHead) d).
Proof. unfold head. now intros ->. Qed.

Lemma body_returns (d : document) (root : node) :
  documentElement d = Some root ->
  body d = Ok (bodyIn (withHead (childNodes root)),
               on_root (with_children (fun cs => withBody (withHead cs))) d).
Proof. unfold body. now intros ->. Qed.

Lemma body_throws (d : document) :
  documentElement d = None -> body d = Throw TypeError.
Proof. unfold body. now intros ->. Qed.

Lemma bodyText_throws (d : document) :
  documentElement d = None -> bodyText d = Throw TypeError.
Proof. intros H. unfold bodyText. now rewrite (body_throws d H). Qed.

Lemma documentElement_on_root (f : node -> node) (d : document) (root : node) :
  (forall n, is_element (f n) = is_element n) ->
  documentElement d = Some root -> documentElement (on_root f d) = Some (f root).
Proof.
  intros Hf. unfold documentElement.
  induction d as [|n r IH]; [discriminate|].
  cbn [find on_root]. destruct (is_element n) eqn:N.
  - intros H. injection H as <-. cbn [find]. now rewrite Hf, N.
  - intros H. cbn [find]. rewrite N. now apply IH.
Qed.

Lemma is_element_with_children (f : list node -> list node) (n : node) :
  is_element (with_children f n) = is_element n.
Proof. now destruct n. Qed.

Lemma bodyText_returns (d : document) (root : node) :
  documentElement d = Some root -> exists t, bodyText d = Ok t.
Proof.
  intros H. unfold bodyText. rewrite (body_returns d root H). cbn [bind]. now eexists.
Qed.

(** With a root element in the document the extraction of the working markup
    returns, and leaves a root element in the document. *)
Lemma extractMain_returns (d : document) (root : node) :
  documentElement d = Some root ->
  exists m root', extractMain E d = Ok m /\ documentElement (snd m) = Some root'.
Proof.
  intros H.
  assert (B : exists m root', bodyMarkup E d = Ok m /\ documentElement (snd m) = Some root').
  { unfold bodyMarkup. rewrite (body_returns d root H). cbn [bind snd].
    eexists. eexists. split; [reflexivity|]. cbn [snd].
    apply documentElement_on_root; [apply is_element_with_children | exact H]. }
  destruct B as (m & root' & B & R).
  unfold extractMain.
  destruct (readabilityParse E d) as [[a|]|e].
  - destruct (art_content a) as [c|].
    + destruct (truthy c).
      * exists (c, Some a, d), root. now split.
      * rewrite B. cbn [bind]. eexists. exists root'. split; [reflexivity | exact R].
    + rewrite B. cbn [bind]. eexists. exists root'. split; [reflexivity | exact R].
  - rewrite B. cbn [bind]. eexists. exists root'. split; [reflexivity | exact R].
  - rewrite B. cbn [bind]. eexists. exists root'. split; [reflexivity | exact R].
Qed.

(** The minimal processor returns for the Markdown format when the document
    it has read and sanitized has a root element. *)
Lemma minimal_markdown_returns (html : jsstring) (f : option FormatOption)
    (base0 : option jsstring) (opened : jsstring * jsstring * document) (root : node) :
  f <> Some text ->
  Minimal.openDocument E html = Ok opened ->
  documentElement (Minimal.sanitize (snd opened)) = Some root ->
  exists r, Minimal.processHtml E html f base0 = Ok r
            /\ links r = Minimal.harvestLinks E base0 (snd opened).
Proof.
  intros F O R.
  destruct (extractMain_returns _ root R) as (m & root' & M & R').
  destruct (bodyText_returns _ root' R') as [t T].
  unfold Minimal.processHtml. cbv zeta. rewrite O. cbn [bind]. rewrite M. cbn [bind].
  assert (X : exists c, Minimal.render E (match f with Some f' => f' | None => markdown end)
                          (snd m) (fst (fst m)) = Ok c).
  { destruct f as [[|]|]; try congruence; unfold Minimal.render;
      destruct (fst (fst (turndown E MinimalSetup (fst (fst m)) []))); rewrite ?T; now eexists. }
  destruct X as [c X]. rewrite X. cbn [bind]. eexists. split; reflexivity.
Qed.

(** The enhanced processor returns for the Markdown format when its stages up
    to the rendering return and Turndown does not throw. *)
Lemma enhanced_markdown_returns (html : jsstring) (fo : option FormatOrOptions)
    (base0 : option jsstring) (opened : jsstring * jsstring * document)
    (dom : document) (main : jsstring * option Article) (md : jsstring) :
  let options := Enhanced.effectiveOptions fo base0 in
  match format options with Some text => False | _ => True end ->
  Enhanced.openDocument E options html = Ok opened ->
  Enhanced.sanitize E options (snd opened) = Ok dom ->
  Enhanced.workingMarkup E options dom = Ok main ->
  turndownConvert E (EnhancedSetup (baseUrl options)) (turndownParse E (fst main)) = Ok md ->
  exists r, Enhanced.processHtml E html fo base0 = Ok r
            /\ links r = Enhanced.harvestLinks E (baseUrl options) (snd opened)
            /\ content r = cleanRedundantEmptyLines md.
Proof.
  intros options F O S W T.
  unfold Enhanced.processHtml. cbv zeta. fold options.
  rewrite O. cbn [bind]. rewrite S. cbn [bind]. rewrite W. cbn [bind].
  assert (X : Enhanced.render E (match format options with Some f => f | None => markdown end)
                (baseUrl options) (fst main) = Ok md).
  { destruct (format options) as [[|]|]; try contradiction;
      unfold Enhanced.render, Enhanced.renderMarkdown, turndown; cbn; now rewrite T. }
  rewrite X. cbn [bind]. eexists. repeat split; reflexivity.
Qed.

(** *** The results, field by field *)

Lemma processHtml_result (html : jsstring) (fo : option FormatOrOptions)
    (base0 : option jsstring) (r : ProcessedHTML) :
  Enhanced.processHtml E html fo base0 = Ok r ->
  let options := Enhanced.effectiveOptions fo base0 in
  exists opened dom main processed,
    Enhanced.openDocument E options html = Ok opened
    /\ Enhanced.sanitize E options (snd opened) = Ok dom
    /\ Enhanced.workingMarkup E options dom = Ok main
    /\ Enhanced.render E (match format options with Some f => f | None => markdown end)
         (baseUrl options) (fst main) = Ok processed
    /\ content r = cleanRedundantEmptyLines processed
    /\ title r = resultTitle (snd main) (fst (fst opened))
    /\ description r = snd (fst opened)
    /\ links r = Enhanced.harvestLinks E (baseUrl options) (snd opened)
    /\ performance r = Enhanced.measure E (or_false (trackPerformance options)).
Proof.
  unfold Enhanced.processHtml. cbv zeta. unfold bind. intros H.
  destruct (Enhanced.openDocument E _ html) as [opened|e] eqn:O; [|discriminate].
  destruct (Enhanced.sanitize E _ _) as [dom|e] eqn:S; [|discriminate].
  destruct (Enhanced.workingMarkup E _ dom) as [main|e] eqn:W; [|discriminate].
  destruct (Enhanced.render E _ _ _) as [processed|e] eqn:R; [|discriminate].
  injection H as <-. exists opened, dom, main, processed.
  repeat split; assumption || reflexivity.
Qed.

Lemma minimal_processHtml_result (html : jsstring)
    (f : option FormatOption) (base0 : option jsstring) (r : ProcessedHTML) :
  Minimal.processHtml E html f base0 = Ok r ->
  exists opened main processed,
    Minimal.openDocument E html = Ok opened
    /\ extractMain E (Minimal.sanitize (snd opened)) = Ok main
    /\ Minimal.render E (match f with Some f' => f' | None => markdown end)
         (snd main) (fst (fst main)) = Ok processed
    /\ content r = cleanRedundantEmptyLines processed
    /\ title r = resultTitle (snd (fst main)) (fst (fst opened))
    /\ description r = snd (fst opened)
    /\ links r = Minimal.harvestLinks E base0 (snd opened).
Proof.
  unfold Minimal.processHtml. cbv zeta. unfold bind. intros H.
  destruct (Minimal.openDocument E html) as [opened|e] eqn:O; [|discriminate].
  destruct (extractMain E _) as [main|e] eqn:M; [|discriminate].
  destruct (Minimal.render E _ _ _) as [processed|e] eqn:R; [|discriminate].
  injection H as <-. exists opened, main, processed.
  repeat split; assumption || reflexivity.
Qed.

(** *** Entries of the link list *)

Lemma In_filterBoolean (A B : Type) (h : A -> option B) (xs : list A) (e : B) :
  In e (filterBoolean (map h xs)) <-> exists x, In x xs /\ h x = Some e.
Proof.
  induction xs as [|x r IH]; cbn [map filterBoolean].
  - split; [intros [] | intros (x & [] & _)].
  - destruct (h x) as [e'|] eqn:H.
    + cbn [In]. rewrite IH. split.
      * intros [<- | (y & Hy & Hh)]; [exists x | exists y]; auto.
      * intros (y & [<- | Hy] & Hh); [left; congruence | right; now exists y].
    + rewrite IH. split.
      * intros (y & Hy & Hh). exists y. cbn [In]. auto.
      * intros (y & [<- | Hy] & Hh); [congruence | now exists y].
Qed.

Lemma count_filterBoolean (h : node -> option (jsstring * jsstring))
    (xs : list node) (e : jsstring * jsstring) :
  count_occ link_eq_dec (filterBoolean (map h xs)) e
  = List.length (anchorsYielding h e xs).
Proof.
  unfold anchorsYielding.
  induction xs as [|x r IH]; [reflexivity|].
  cbn [map filterBoolean filter].
  destruct (h x) as [e'|]; [|exact IH].
  cbn [count_occ]. destruct (link_eq_dec e' e); cbn [List.length]; now rewrite IH.
Qed.

End Pipeline.

(** *** C1 *)

Lemma extractMain_without_article (E : Env) (d : document) :
  findsNoArticle E d ->
  extractMain E d = (do m <- bodyMarkup E d; Ok (fst m, None, snd m))
  \/ exists a, extractMain E d = (do m <- bodyMarkup E d; Ok (fst m, Some a, snd m)).
Proof.
  unfold findsNoArticle, extractMain.
  destruct (readabilityParse E d) as [[a|]|e]; [|now left|now left].
  intros H. right. exists a.
  destruct (art_content a) as [c|]; [|reflexivity].
  cbn [truthy_opt] in H. now rewrite H.
Qed.

(** C1.  Both processors throw a [TypeError] on the empty string with the
    format ['text'].  The empty string parses to a document without root
    element, so line 95 parses the shell; Readability finds no article in it,
    the working markup is the markup of the empty body, the empty string, and
    the text rendering parses that again and reads [document.body] of a
    document without root element (line 393; minimal processor, line 128). *)
Theorem processHtml_throws_on_the_empty_string :
  forall (E : Env),
    parseHTML E [] = [] ->
    parseHTML E (shellMarkup []) = shell ->
    innerHTML E [] = [] ->
    findsNoArticle E (page []) ->
    forall base0,
      Enhanced.processHtml E [] (Some (AsFormat text)) base0 = Throw TypeError
      /\ Minimal.processHtml E [] (Some text) base0 = Throw TypeError.
Proof.
  intros E P0 PS I R base0.
  assert (L : loadDocument E [] = shell).
  { unfold loadDocument. rewrite P0. cbn [documentElement find]. exact PS. }
  assert (T : renderText E [] = Throw TypeError).
  { unfold renderText. rewrite P0. reflexivity. }
  assert (M : exists a, extractMain E (page []) = Ok ([], a, page [])).
  { destruct (extractMain_without_article E (page []) R) as [H | [a H]];
      rewrite H; unfold bodyMarkup; cbn; rewrite I; eexists; reflexivity. }
  destruct M as [a M].
  split.
  - unfold Enhanced.processHtml, Enhanced.openDocument. cbv zeta. rewrite L.
    cbn. unfold Enhanced.workingMarkup. cbn.
    change (extractMain E _) with (extractMain E (page [])). rewrite M. cbn.
    now rewrite T.
  - unfold Minimal.processHtml, Minimal.openDocument. cbv zeta. rewrite L.
    cbn. change (extractMain E _) with (extractMain E (page [])). rewrite M. cbn.
    now rewrite T.
Qed.

Lemma processHtml_throws_witness :
  Enhanced.processHtml emptyEnv [] (Some (AsFormat text)) None = Throw TypeError
  /\ Minimal.processHtml emptyEnv [] (Some text) None = Throw TypeError.
Proof.
  apply (processHtml_throws_on_the_empty_string emptyEnv);
    first [reflexivity | exact I].
Defined.

(** *** C10 *)

(** C10.  When the Markdown call and the text call of a processor on the same
    input, with the same other options, both return, the two results have the
    same title, description and links. *)
Theorem format_does_not_change_metadata :
  forall (E : Env) (html : jsstring) (base0 : option jsstring),
    (forall o r1 r2,
        Enhanced.processHtml E html (Some (AsOptions (withFormat markdown o))) base0 = Ok r1 ->
        Enhanced.processHtml E html (Some (AsOptions (withFormat text o))) base0 = Ok r2 ->
        title r1 = title r2 /\ description r1 = description r2 /\ links r1 = links r2)
    /\ (forall r1 r2,
          Enhanced.processHtml E html (Some (AsFormat markdown)) base0 = Ok r1 ->
          Enhanced.processHtml E html (Some (AsFormat text)) base0 = Ok r2 ->
          title r1 = title r2 /\ description r1 = description r2 /\ links r1 = links r2)
    /\ (forall r1 r2,
          Minimal.processHtml E html (Some markdown) base0 = Ok r1 ->
          Minimal.processHtml E html (Some text) base0 = Ok r2 ->
          title r1 = title r2 /\ description r1 = description r2 /\ links r1 = links r2).
Proof.
  intros E html base0.
  assert (Enh : forall fo1 fo2 r1 r2,
             Enhanced.openDocument E (Enhanced.effectiveOptions fo1 base0)
             = Enhanced.openDocument E (Enhanced.effectiveOptions fo2 base0) ->
             Enhanced.sanitize E (Enhanced.effectiveOptions fo1 base0)
             = Enhanced.sanitize E (Enhanced.effectiveOptions fo2 base0) ->
             Enhanced.workingMarkup E (Enhanced.effectiveOptions fo1 base0)
             = Enhanced.workingMarkup E (Enhanced.effectiveOptions fo2 base0) ->
             baseUrl (Enhanced.effectiveOptions fo1 base0)
             = baseUrl (Enhanced.effectiveOptions fo2 base0) ->
             Enhanced.processHtml E html fo1 base0 = Ok r1 ->
             Enhanced.processHtml E html fo2 base0 = Ok r2 ->
             title r1 = title r2 /\ description r1 = description r2 /\ links r1 = links r2).
  { intros fo1 fo2 r1 r2 HO HS HW HB H1 H2.
    apply processHtml_result in H1.
    destruct H1 as (op1 & d1 & m1 & p1 & O1 & S1 & W1 & _ & _ & T1 & D1 & L1 & _).
    apply processHtml_result in H2.
    destruct H2 as (op2 & d2 & m2 & p2 & O2 & S2 & W2 & _ & _ & T2 & D2 & L2 & _).
    rewrite HO, O2 in O1. injection O1 as <-.
    rewrite HS, S2 in S1. injection S1 as <-.
    rewrite HW, W2 in W1. injection W1 as <-.
    rewrite T1, T2, D1, D2, L1, L2, HB. repeat split; reflexivity. }
  split; [|split].
  - intros o r1 r2. apply Enh; reflexivity.
  - intros r1 r2. apply Enh; reflexivity.
  - intros r1 r2 H1 H2.
    apply minimal_processHtml_result in H1.
    destruct H1 as (op1 & m1 & p1 & O1 & M1 & _ & _ & T1 & D1 & L1).
    apply minimal_processHtml_result in H2.
    destruct H2 as (op2 & m2 & p2 & O2 & M2 & _ & _ & T2 & D2 & L2).
    rewrite O2 in O1. injection O1 as <-.
    rewrite M2 in M1. injection M1 as <-.
    rewrite T1, T2, D1, D2, L1, L2. repeat split; reflexivity.
Qed.

(** On the whole page that says Hello both calls return. *)
Lemma format_does_not_change_metadata_witness :
  exists r1 r2,
    Enhanced.processHtml helloEnv (wholePage helloMarkup) (Some (AsFormat markdown)) None = Ok r1
    /\ Enhanced.processHtml helloEnv (wholePage helloMarkup) (Some (AsFormat text)) None = Ok r2
    /\ title r1 = title r2 /\ description r1 = description r2 /\ links r1 = links r2.
Proof.
  eexists. eexists. split; [reflexivity|]. split; [reflexivity|].
  exact (proj1 (proj2 (format_does_not_change_metadata helloEnv (wholePage helloMarkup) None))
           _ _ eq_refl eq_refl).
Defined.

(** *** Links: C2, C3, C4 *)

(** What the enhanced callback answers for an anchor, by the cases of its href. *)
Lemma enhanced_harvestLink_cases (E : Env) (base : option jsstring) (x : node)
    (href : jsstring) :
  getAttribute "href" x = Some href ->
  Enhanced.harvestLink E base x
  = if rejectedHref href then None
    else match linkUrl E base href with
         | Ok url => Some (linkText x, url)
         | Throw _ => None
         end.
Proof.
  intros H. unfold Enhanced.harvestLink, rejectedHref. rewrite H.
  destruct (truthy href); cbn [negb orb]; [|reflexivity].
  destruct (startsWith (js "javascript:") href || startsWith (js "file:") href);
    reflexivity.
Qed.

(** The enhanced processor and C2: every entry of [links] is the answer of
    the callback for an anchor of the document, read after the embedded
    content was inlined, whose href is neither empty nor begins with
    [javascript:] or [file:]; an anchor whose href is one of these yields no
    entry. *)
Theorem enhanced_links_come_from_accepted_anchors :
  forall (E : Env) (html : jsstring) (fo : option FormatOrOptions)
         (base0 : option jsstring) (r : ProcessedHTML)
         (opened : jsstring * jsstring * document),
    Enhanced.processHtml E html fo base0 = Ok r ->
    let options := Enhanced.effectiveOptions fo base0 in
    Enhanced.openDocument E options html = Ok opened ->
    let anchors := querySelectorAll sel_anchor (snd opened) in
    links r = filterBoolean (map (Enhanced.harvestLink E (baseUrl options)) anchors)
    /\ (forall x href,
          getAttribute "href" x = Some href -> rejectedHref href = true ->
          Enhanced.harvestLink E (baseUrl options) x = None)
    /\ (forall x, getAttribute "href" x = Some (js "javascript:alert(1)") ->
                  Enhanced.harvestLink E (baseUrl options) x = None)
    /\ (forall e, In e (links r) ->
          exists x href,
            In x anchors
            /\ Enhanced.harvestLink E (baseUrl options) x = Some e
            /\ getAttribute "href" x = Some href
            /\ rejectedHref href = false).
Proof.
  intros E html fo base0 r opened H options O anchors.
  apply processHtml_result in H.
  destruct H as (opened' & dom & main & p & O' & _ & _ & _ & _ & _ & _ & L & _).
  fold options in O', L. rewrite O in O'. injection O' as <-.
  unfold Enhanced.harvestLinks in L. fold anchors in L.
  split; [exact L|].
  split; [intros x href Hx Hr; now rewrite (enhanced_harvestLink_cases E _ x href Hx), Hr|].
  split; [intros x Hx; now rewrite (enhanced_harvestLink_cases E _ x _ Hx)|].
  intros e He. rewrite L in He. apply In_filterBoolean in He.
  destruct He as (x & Hx & Hh).
  destruct (getAttribute "href" x) as [href|] eqn:A.
  - exists x, href. repeat split; try assumption.
    rewrite (enhanced_harvestLink_cases E _ x href A) in Hh.
    destruct (rejectedHref href); [discriminate | reflexivity].
  - unfold Enhanced.harvestLink in Hh. rewrite A in Hh. discriminate.
Qed.

Lemma enhanced_links_witness :
  exists r,
    Enhanced.processHtml scriptLinkEnv scriptLinkMarkup None None = Ok r
    /\ links r = [].
Proof.
  eexists. split; [reflexivity|].
  exact (proj1 (enhanced_links_come_from_accepted_anchors
                  scriptLinkEnv scriptLinkMarkup None None _ _ eq_refl eq_refl)).
Defined.

(** The anchor of [<a href="javascript:alert(1)">x</a>] is the root element
    of the document linkedom parses; reading the title puts a head into it. *)
Lemma scriptLink_opened (E : Env) :
  parseHTML E scriptLinkMarkup = scriptLinkNodes ->
  exists t,
    Minimal.openDocument E scriptLinkMarkup
    = Ok (t, [], [el "a" [("href"%string, "javascript:alert(1)"%string)]
                    [emptyElement "head"; Text (js "x")]])
    /\ forall o, not_false (withShadowDom o) = true -> not_false (withIframe o) = true ->
         Enhanced.openDocument E o scriptLinkMarkup
         = Ok (t, [], [el "a" [("href"%string, "javascript:alert(1)"%string)]
                         [emptyElement "head"; Text (js "x")]]).
Proof.
  intros P. eexists. split.
  - unfold Minimal.openDocument, loadDocument. rewrite P. reflexivity.
  - intros o S F. unfold Enhanced.openDocument, Enhanced.inlineEmbedded, loadDocument.
    rewrite P, S, F. reflexivity.
Qed.

(** C2 on the minimal processor: its callback has no test for [javascript:]
    or [file:].  On [<a href="javascript:alert(1)">x</a>], with the Markdown
    format, it returns, and the anchor is an entry of its links; the enhanced
    processor, whenever it returns on the same input, has no link. *)
Theorem minimal_keeps_javascript_links :
  forall (E : Env) (f : option FormatOption),
    parseHTML E scriptLinkMarkup = scriptLinkNodes ->
    f <> Some text ->
    (exists r,
        Minimal.processHtml E scriptLinkMarkup f None = Ok r
        /\ links r = [(js "x", js "javascript:alert(1)")])
    /\ (forall f' base0 r,
          Enhanced.processHtml E scriptLinkMarkup (Some (AsFormat f')) base0 = Ok r ->
          links r = []).
Proof.
  intros E f P F.
  destruct (scriptLink_opened E P) as (t & OM & OE).
  split.
  - destruct (minimal_markdown_returns E scriptLinkMarkup f None _
                (el "a" [("href"%string, "javascript:alert(1)"%string)]
                    [emptyElement "head"; Text (js "x")]) F OM eq_refl)
      as (r & H & L).
    exists r. split; [exact H|]. rewrite L. reflexivity.
  - intros f' base0 r H.
    apply processHtml_result in H.
    destruct H as (opened & dom & main & p & O & _ & _ & _ & _ & _ & _ & L & _).
    rewrite (OE (Enhanced.effectiveOptions (Some (AsFormat f')) base0) eq_refl eq_refl) in O.
    injection O as <-.
    rewrite L. reflexivity.
Qed.

Lemma minimal_keeps_javascript_links_witness :
  exists r,
    Minimal.processHtml scriptLinkEnv scriptLinkMarkup (Some markdown) None = Ok r
    /\ links r = [(js "x", js "javascript:alert(1)")].
Proof.
  apply (minimal_keeps_javascript_links scriptLinkEnv (Some markdown)).
  - reflexivity.
  - discriminate.
Defined.

(** The anchor of [<a href="/x">Link</a>] is the root element of the document
    linkedom parses; reading the title puts a head into it. *)
Lemma link_opened (E : Env) :
  parseHTML E linkMarkup = linkNodes ->
  exists t,
    Minimal.openDocument E linkMarkup
    = Ok (t, [], [el "a" [("href"%string, "/x"%string)]
                    [emptyElement "head"; Text (js "Link")]])
    /\ forall o, not_false (withShadowDom o) = true -> not_false (withIframe o) = true ->
         Enhanced.openDocument E o linkMarkup
         = Ok (t, [], [el "a" [("href"%string, "/x"%string)]
                         [emptyElement "head"; Text (js "Link")]]).
Proof.
  intros P. eexists. split.
  - unfold Minimal.openDocument, loadDocument. rewrite P. reflexivity.
  - intros o S F. unfold Enhanced.openDocument, Enhanced.inlineEmbedded, loadDocument.
    rewrite P, S, F. reflexivity.
Qed.

(** C3.  In both processors an anchor whose href is accepted yields, when a
    (non-empty) base URL is given, the entry whose url is the href resolved
    against the base URL, and no entry at all when the resolution throws;
    without a base URL it yields the entry whose url is the href as written;
    and the links of a result are these answers for the anchors of the
    document.  For [<a href="/x">Link</a>] and the base URL
    [https://example.com] the links of every result are exactly
    [("Link", "https://example.com/x")], whether the base URL is the third
    argument or an option; with the Markdown format the minimal processor
    returns, and so does the enhanced one when Turndown does not throw. *)
Theorem links_resolve_against_the_base_url :
  forall (E : Env),
    (forall base x href,
        getAttribute "href" x = Some href -> rejectedHref href = false ->
        match base with
        | Some b =>
            if truthy b
            then match newURL E href b with
                 | Ok url =>
                     Enhanced.harvestLink E base x = Some (linkText x, url)
                     /\ Minimal.harvestLink E base x = Some (linkText x, url)
                 | Throw _ =>
                     Enhanced.harvestLink E base x = None
                     /\ Minimal.harvestLink E base x = None
                 end
            else Enhanced.harvestLink E base x = Some (linkText x, href)
                 /\ Minimal.harvestLink E base x = Some (linkText x, href)
        | None =>
            Enhanced.harvestLink E base x = Some (linkText x, href)
            /\ Minimal.harvestLink E base x = Some (linkText x, href)
        end)
    /\ (forall html fo base0 r opened,
          Enhanced.processHtml E html fo base0 = Ok r ->
          Enhanced.openDocument E (Enhanced.effectiveOptions fo base0) html = Ok opened ->
          links r = filterBoolean
                      (map (Enhanced.harvestLink E (baseUrl (Enhanced.effectiveOptions fo base0)))
                         (querySelectorAll sel_anchor (snd opened))))
    /\ (forall html f base0 r opened,
          Minimal.processHtml E html f base0 = Ok r ->
          Minimal.openDocument E html = Ok opened ->
          links r = filterBoolean
                      (map (Minimal.harvestLink E base0)
                         (querySelectorAll sel_anchor (snd opened))))
    /\ (parseHTML E linkMarkup = linkNodes ->
        newURL E (js "/x") exampleBase = Ok (js "https://example.com/x") ->
        (forall f r,
            Enhanced.processHtml E linkMarkup (Some (AsFormat f)) (Some exampleBase) = Ok r ->
            links r = [exampleEntry])
        /\ (forall f r,
              Enhanced.processHtml E linkMarkup
                (Some (AsOptions (formatOptions f (Some exampleBase)))) None = Ok r ->
              links r = [exampleEntry])
        /\ (forall f r,
              Minimal.processHtml E linkMarkup f (Some exampleBase) = Ok r ->
              links r = [exampleEntry])
        /\ (forall f, f <> Some text ->
              exists r, Minimal.processHtml E linkMarkup f (Some exampleBase) = Ok r)
        /\ ((forall m, exists md,
                turndownConvert E (EnhancedSetup (Some exampleBase)) (turndownParse E m) = Ok md) ->
            exists r,
              Enhanced.processHtml E linkMarkup (Some (AsFormat markdown)) (Some exampleBase)
              = Ok r)).
Proof.
  intros E. split; [|split; [|split]].
  - intros base x href A R.
    assert (M : Minimal.harvestLink E base x
                = match linkUrl E base href with
                  | Ok url => Some (linkText x, url)
                  | Throw _ => None
                  end).
    { unfold Minimal.harvestLink. rewrite A.
      unfold rejectedHref in R. destruct (truthy href); [reflexivity | discriminate]. }
    rewrite M, (enhanced_harvestLink_cases E base x href A), R.
    unfold linkUrl.
    destruct base as [b|]; [|split; reflexivity].
    destruct (truthy b); [|split; reflexivity].
    destruct (newURL E href b); split; reflexivity.
  - intros html fo base0 r opened H O.
    apply processHtml_result in H.
    destruct H as (opened' & dom & main & p & O' & _ & _ & _ & _ & _ & _ & L & _).
    rewrite O in O'. injection O' as <-. exact L.
  - intros html f base0 r opened H O.
    apply minimal_processHtml_result in H.
    destruct H as (opened' & main & p & O' & _ & _ & _ & _ & _ & L).
    rewrite O in O'. injection O' as <-. exact L.
  - intros P U.
    destruct (link_opened E P) as (t & OM & OE).
    assert (HE : Enhanced.harvestLinks E (Some exampleBase)
                   [el "a" [("href"%string, "/x"%string)]
                      [emptyElement "head"; Text (js "Link")]] = [exampleEntry]).
    { unfold exampleBase in *. cbn in U |- *. rewrite U. reflexivity. }
    assert (HM : Minimal.harvestLinks E (Some exampleBase)
                   [el "a" [("href"%string, "/x"%string)]
                      [emptyElement "head"; Text (js "Link")]] = [exampleEntry]).
    { unfold exampleBase in *. cbn in U |- *. rewrite U. reflexivity. }
    split; [|split; [|split; [|split]]].
    + intros f r H. apply processHtml_result in H.
      destruct H as (opened & dom & main & p & O & _ & _ & _ & _ & _ & _ & L & _).
      rewrite (OE (Enhanced.effectiveOptions (Some (AsFormat f)) (Some exampleBase))
                 eq_refl eq_refl) in O.
      injection O as <-. rewrite L. exact HE.
    + intros f r H. apply processHtml_result in H.
      destruct H as (opened & dom & main & p & O & _ & _ & _ & _ & _ & _ & L & _).
      rewrite (OE (Enhanced.effectiveOptions
                     (Some (AsOptions (formatOptions f (Some exampleBase)))) None)
                 eq_refl eq_refl) in O.
      injection O as <-. rewrite L. exact HE.
    + intros f r H. apply minimal_processHtml_result in H.
      destruct H as (opened & main & p & O & _ & _ & _ & _ & _ & L).
      rewrite OM in O. injection O as <-. rewrite L. exact HM.
    + intros f F.
      destruct (minimal_markdown_returns E linkMarkup f (Some exampleBase) _
                  (el "a" [("href"%string, "/x"%string)]
                      [emptyElement "head"; Text (js "Link")]) F OM eq_refl)
        as (r & H & _).
      now exists r.
    + intros T.
      pose (o := Enhanced.effectiveOptions (Some (AsFormat markdown)) (Some exampleBase)).
      pose (d := [el "a" [("href"%string, "/x"%string)]
                    [emptyElement "head"; Text (js "Link")]]).
      assert (S : Enhanced.sanitize E o d = Ok d) by reflexivity.
      destruct (extractMain_returns E d _ eq_refl) as (m & root' & M & _).
      assert (W : Enhanced.workingMarkup E o d = Ok (fst m)).
      { unfold Enhanced.workingMarkup. cbn [o Enhanced.effectiveOptions targetSelector
                                             Enhanced.selectTarget bind].
        now rewrite M. }
      destruct (T (fst (fst m))) as [md Tm].
      destruct (enhanced_markdown_returns E linkMarkup (Some (AsFormat markdown))
                  (Some exampleBase) _ d (fst m) md I (OE o eq_refl eq_refl) S W Tm)
        as (r & H & _).
      now exists r.
Qed.

Lemma links_resolve_witness :
  exists r,
    Minimal.processHtml linkEnv linkMarkup (Some markdown) (Some exampleBase) = Ok r
    /\ links r = [exampleEntry].
Proof.
  destruct (proj2 (proj2 (proj2 (links_resolve_against_the_base_url linkEnv)))
              eq_refl eq_refl) as (_ & _ & L & R & _).
  destruct (R (Some markdown) ltac:(discriminate)) as [r H].
  exists r. split; [exact H | exact (L _ _ H)].
Defined.

(** C4, as stated, fails: the same anchor twice gives the same
    entry twice. *)
Lemma links_are_not_deduplicated :
  exists r,
    Enhanced.processHtml twoLinksEnv twoLinksMarkup None None = Ok r
    /\ links r = [(js "Link", js "/x"); (js "Link", js "/x")]
    /\ ~ NoDup (links r).
Proof.
  eexists. split; [reflexivity|]. split; [reflexivity|].
  intros N. inversion N as [|? ? Hin _]; subst. apply Hin. left. reflexivity.
Qed.

(** C4, amended.  The links keep the order and the repetitions of the
    document: they are the answers of the callback for the anchors in
    document order, the anchors without answer left out, so an entry occurs
    as many times as there are anchors that yield it. *)
Theorem links_keep_duplicates :
  forall (E : Env) (html : jsstring),
    (forall fo base0 r opened,
        Enhanced.processHtml E html fo base0 = Ok r ->
        let options := Enhanced.effectiveOptions fo base0 in
        Enhanced.openDocument E options html = Ok opened ->
        let anchors := querySelectorAll sel_anchor (snd opened) in
        links r = filterBoolean (map (Enhanced.harvestLink E (baseUrl options)) anchors)
        /\ forall e, count_occ link_eq_dec (links r) e
                     = List.length
                         (anchorsYielding (Enhanced.harvestLink E (baseUrl options)) e anchors))
    /\ (forall f base0 r opened,
          Minimal.processHtml E html f base0 = Ok r ->
          Minimal.openDocument E html = Ok opened ->
          let anchors := querySelectorAll sel_anchor (snd opened) in
          links r = filterBoolean (map (Minimal.harvestLink E base0) anchors)
          /\ forall e, count_occ link_eq_dec (links r) e
                       = List.length (anchorsYielding (Minimal.harvestLink E base0) e anchors)).
Proof.
  intros E html. split.
  - intros fo base0 r opened H options O anchors.
    apply processHtml_result in H.
    destruct H as (opened' & dom & main & p & O' & _ & _ & _ & _ & _ & _ & L & _).
    fold options in O', L. rewrite O in O'. injection O' as <-.
    unfold Enhanced.harvestLinks in L. fold anchors in L.
    split; [exact L|]. intros e. rewrite L. apply count_filterBoolean.
  - intros f base0 r opened H O anchors.
    apply minimal_processHtml_result in H.
    destruct H as (opened' & main & p & O' & _ & _ & _ & _ & _ & L).
    rewrite O in O'. injection O' as <-.
    unfold Minimal.harvestLinks in L. fold anchors in L.
    split; [exact L|]. intros e. rewrite L. apply count_filterBoolean.
Qed.

Lemma links_keep_duplicates_witness :
  exists r,
    Enhanced.processHtml twoLinksEnv twoLinksMarkup None None = Ok r
    /\ count_occ link_eq_dec (links r) (js "Link", js "/x") = 2.
Proof.
  eexists. split; [reflexivity|].
  rewrite (proj2 (proj1 (links_keep_duplicates twoLinksEnv twoLinksMarkup)
                    None None _ _ eq_refl eq_refl)).
  reflexivity.
Defined.

(** *** The Markdown rendering: C5, C9 *)






(** C9, as stated, fails, in two ways.  By what line 397 does to every
    rendering: on the whole page around [<pre>A\n\n\n\nB</pre>] with the root
    element as the target, the working markup is that page again; when
    Turndown throws on it, the trimmed text of its body is [A\n\n\n\nB], and
    the content is the normalizer applied to it, [A\n\nB].  And by the
    unguarded [document.body]: on [<pre>A\n\n\n\nB</pre>] alone the working
    markup is the empty string (the body linkedom puts into the root element
    [pre] is empty); the fallback parses it again and reads [document.body] of
    a document without root element, and the [TypeError] of that reaches the
    caller. *)
Lemma markdown_fallback_is_not_the_trimmed_text :
  (Enhanced.workingMarkup preTargetEnv htmlTargetOptions (page preNodes)
   = Ok (wholePage preMarkup ++ [LF; LF], None)
   /\ turndownConvert preTargetEnv (EnhancedSetup None)
        (turndownParse preTargetEnv (wholePage preMarkup ++ [LF; LF])) = Throw OtherError
   /\ bodyText (parseHTML preTargetEnv (wholePage preMarkup ++ [LF; LF]))
      = Ok (js "A" ++ [LF; LF; LF; LF] ++ js "B")
   /\ exists r,
        Enhanced.processHtml preTargetEnv (wholePage preMarkup)
          (Some (AsOptions htmlTargetOptions)) None = Ok r
        /\ content r = js "A" ++ [LF; LF] ++ js "B"
        /\ content r <> js "A" ++ [LF; LF; LF; LF] ++ js "B")
  /\ Enhanced.workingMarkup preEnv (Enhanced.effectiveOptions (Some (AsFormat markdown)) None)
       [el "pre" [] [emptyElement "head"; Text (js "A" ++ [LF; LF; LF; LF] ++ js "B")]]
     = Ok ([], None)
  /\ turndownConvert preEnv (EnhancedSetup None) (turndownParse preEnv []) = Throw OtherError
  /\ Enhanced.processHtml preEnv preMarkup (Some (AsFormat markdown)) None = Throw TypeError
  /\ ~ exists r, Enhanced.processHtml preEnv preMarkup (Some (AsFormat markdown)) None = Ok r.
Proof.
  split.
  { split; [reflexivity|]. split; [reflexivity|]. split; [reflexivity|].
    eexists. split; [reflexivity|]. split; [reflexivity | discriminate]. }
  split; [reflexivity|]. split; [reflexivity|].
  assert (H : Enhanced.processHtml preEnv preMarkup (Some (AsFormat markdown)) None
              = Throw TypeError) by reflexivity.
  split; [exact H|]. intros [r Hr]. congruence.
Qed.

(** C9, amended.  When Turndown throws on the working markup, its error does
    not reach the caller: the enhanced [processHtml] does what the text
    rendering of the working markup does.  When that returns, [processHtml]
    returns, and its content is the whitespace normalizer applied to the
    trimmed text of the body of the working markup parsed again (the empty
    string when that text is empty). *)
Theorem markdown_failure_falls_back_to_text :
  forall (E : Env) (html : jsstring) (fo : option FormatOrOptions)
         (base0 : option jsstring) (opened : jsstring * jsstring * document)
         (dom : document) (main : jsstring * option Article) (e : Exn),
    let options := Enhanced.effectiveOptions fo base0 in
    format options <> Some text ->
    Enhanced.openDocument E options html = Ok opened ->
    Enhanced.sanitize E options (snd opened) = Ok dom ->
    Enhanced.workingMarkup E options dom = Ok main ->
    turndownConvert E (EnhancedSetup (baseUrl options)) (turndownParse E (fst main))
    = Throw e ->
    match body (parseHTML E (fst main)) with
    | Ok b =>
        exists r,
          Enhanced.processHtml E html fo base0 = Ok r
          /\ content r
             = cleanRedundantEmptyLines (or_else (trim (textContent (fst b))) [])
    | Throw e' => Enhanced.processHtml E html fo base0 = Throw e'
    end.
Proof.
  intros E html fo base0 opened dom main e options F O S W T.
  assert (R : Enhanced.render E (match format options with Some f => f | None => markdown end)
                (baseUrl options) (fst main)
              = renderText E (fst main)).
  { assert (R : Enhanced.render E markdown (baseUrl options) (fst main)
                = renderText E (fst main)).
    { unfold Enhanced.render, Enhanced.renderMarkdown. cbv zeta.
      unfold turndown. cbn [fst snd]. now rewrite T. }
    destruct (format options) as [[|]|]; [exact R | congruence | exact R]. }
  unfold Enhanced.processHtml. cbv zeta. fold options.
  rewrite O. cbn [bind]. rewrite S. cbn [bind]. rewrite W. cbn [bind].
  rewrite R. unfold renderText, bodyText.
  destruct (body (parseHTML E (fst main))) as [b|e']; cbn [bind]; [|reflexivity].
  eexists. split; reflexivity.
Qed.

(** Turndown throws on the whole page around the preformatted text, targeted
    as a whole: the content is the normalized text of its body. *)
Lemma markdown_failure_witness :
  exists r,
    Enhanced.processHtml preTargetEnv (wholePage preMarkup)
      (Some (AsOptions htmlTargetOptions)) None = Ok r
    /\ content r = js "A" ++ [LF; LF] ++ js "B".
Proof.
  exact (markdown_failure_falls_back_to_text preTargetEnv (wholePage preMarkup)
           (Some (AsOptions htmlTargetOptions)) None
           ([], [], page preNodes) (page preNodes)
           (wholePage preMarkup ++ [LF; LF], None) OtherError
           ltac:(discriminate) eq_refl eq_refl eq_refl eq_refl).
Defined.

(** *** The fallback of the minimal processor *)

Lemma find_element_withBody (cs : list node) :
  find is_element (withBody cs) = find is_element cs.
Proof.
  induction cs as [|n r IH]; [reflexivity|].
  cbn [withBody]. destruct (is_element n) eqn:N.
  - destruct (nextIsBody (n :: r)); [reflexivity|]. cbn [find]. now rewrite N.
  - cbn [find]. now rewrite N.
Qed.

Lemma bodyIn_withBody (cs : list node) : bodyIn (withBody cs) = bodyIn cs.
Proof.
  unfold bodyIn. induction cs as [|n r IH]; [reflexivity|].
  cbn [withBody]. destruct (is_element n) eqn:N.
  - destruct (nextIsBody (n :: r)) eqn:B; [reflexivity|].
    cbn [afterFirstElement]. rewrite N. cbn [find emptyElement is_element has_tag].
    unfold nextIsBody in B. cbn [afterFirstElement] in B. rewrite N in B.
    destruct (find is_element r) as [b|]; [|reflexivity].
    now rewrite B.
  - cbn [afterFirstElement]. now rewrite N.
Qed.

Lemma withHead_withBody (cs : list node) :
  withHead (withBody (withHead cs)) = withBody (withHead cs).
Proof.
  unfold withHead at 1. rewrite find_element_withBody.
  assert (H : exists h, find is_element (withHead cs) = Some h /\ has_tag "head" h = true).
  { unfold withHead. destruct (find is_element cs) as [h|] eqn:F.
    - destruct (has_tag "head" h) eqn:H; [now exists h|].
      eexists. split; reflexivity.
    - eexists. split; reflexivity. }
  destruct H as (h & F & H). now rewrite F, H.
Qed.

Lemma on_root_on_root (f g : node -> node) (d : document) :
  (forall n, is_element (g n) = is_element n) ->
  on_root f (on_root g d) = on_root (fun n => f (g n)) d.
Proof.
  intros Hg. induction d as [|n r IH]; [reflexivity|].
  cbn [on_root]. destruct (is_element n) eqn:N.
  - cbn [on_root]. now rewrite Hg, N.
  - cbn [on_root]. now rewrite N, IH.
Qed.

(** Reading [document.body] a second time gives the same body. *)
Lemma bodyText_after_body (d : document) (b : node * document) :
  body d = Ok b -> bodyText (snd b) = bodyText d.
Proof.
  unfold bodyText, body.
  destruct (documentElement d) as [root|] eqn:R; [|discriminate].
  intros H. injection H as <-. cbn [snd bind fst].
  rewrite (documentElement_on_root _ d root
             (is_element_with_children _) R).
  cbn [bind fst]. destruct root as [t a cs| |]; cbn [with_children childNodes].
  - now rewrite withHead_withBody, bodyIn_withBody.
  - reflexivity.
  - reflexivity.
Qed.

Lemma extractMain_keeps_bodyText (E : Env) (d : document)
    (m : jsstring * option Article * document) :
  extractMain E d = Ok m -> bodyText (snd m) = bodyText d.
Proof.
  assert (B : forall a, (do x <- bodyMarkup E d; Ok (fst x, a, snd x)) = Ok m ->
                        bodyText (snd m) = bodyText d).
  { intros a. unfold bodyMarkup, bind.
    destruct (body d) as [b|e] eqn:Hb; [|discriminate].
    intros H. injection H as <-. cbn [snd]. now apply bodyText_after_body. }
  unfold extractMain.
  destruct (readabilityParse E d) as [[a|]|e]; try apply B.
  destruct (art_content a) as [c|]; [|apply B].
  destruct (truthy c); [|apply B].
  intros H. now injection H as <-.
Qed.

(** The minimal processor and C9.  When Turndown throws on the working markup,
    the minimal [processHtml] does not read the working markup again: it reads
    the text of the body of the whole sanitized document.  When that returns,
    [processHtml] returns, with the whitespace normalizer applied to that
    text as its content. *)
Theorem minimal_fallback_reads_the_whole_body :
  forall (E : Env) (html : jsstring) (f : option FormatOption) (base0 : option jsstring)
         (opened : jsstring * jsstring * document)
         (main : jsstring * option Article * document) (e : Exn),
    f <> Some text ->
    Minimal.openDocument E html = Ok opened ->
    extractMain E (Minimal.sanitize (snd opened)) = Ok main ->
    turndownConvert E MinimalSetup (turndownParse E (fst (fst main))) = Throw e ->
    match body (Minimal.sanitize (snd opened)) with
    | Ok b =>
        exists r,
          Minimal.processHtml E html f base0 = Ok r
          /\ content r
             = cleanRedundantEmptyLines (or_else (trim (textContent (fst b))) [])
    | Throw e' => Minimal.processHtml E html f base0 = Throw e'
    end.
Proof.
  intros E html f base0 opened main e F O M T.
  assert (R : Minimal.render E (match f with Some f' => f' | None => markdown end)
                (snd main) (fst (fst main))
              = bodyText (Minimal.sanitize (snd opened))).
  { rewrite <- (extractMain_keeps_bodyText E _ _ M).
    assert (R : Minimal.render E markdown (snd main) (fst (fst main)) = bodyText (snd main)).
    { unfold Minimal.render, turndown. cbn [fst snd]. now rewrite T. }
    destruct f as [[|]|]; [exact R | congruence | exact R]. }
  unfold Minimal.processHtml. cbv zeta.
  rewrite O. cbn [bind]. rewrite M. cbn [bind]. rewrite R. unfold bodyText.
  destruct (body (Minimal.sanitize (snd opened))) as [b|e']; cbn [bind]; [|reflexivity].
  eexists. split; reflexivity.
Qed.

(** Readability takes the second paragraph of the page as the working markup;
    the fallback gives the text of both. *)
Lemma minimal_fallback_witness :
  extractMain teaserEnv (page teaserNodes)
  = Ok (storyMarkup, Some {| art_title := None; art_content := Some storyMarkup |},
        page teaserNodes)
  /\ exists r,
       Minimal.processHtml teaserEnv (wholePage teaserMarkup) (Some markdown) None = Ok r
       /\ content r = js "TeaserStory".
Proof.
  split; [reflexivity|].
  exact (minimal_fallback_reads_the_whole_body teaserEnv (wholePage teaserMarkup)
           (Some markdown) None ([], [], page teaserNodes)
           (storyMarkup, Some {| art_title := None; art_content := Some storyMarkup |},
            page teaserNodes) OtherError
           ltac:(discriminate) eq_refl eq_refl eq_refl).
Defined.

(** *** C8 *)

(** C8 on the code.  With the format ['text'] both processors throw a
    [TypeError] on [<p>Hello</p><script>evil()</script>].  The paragraph is
    the root element of the document linkedom parses; the head and the body
    its getters put into the paragraph are empty, so the working markup is the
    empty string when Readability finds no article, and the text rendering
    parses that again and reads [document.body] of a document without root
    element.  On the whole page around the same markup the working markup is
    the paragraph; parsed again, the paragraph is the root element, the body
    put into it is empty, and the content is the empty string. *)
Theorem hello_text_call_throws :
  forall (E : Env) (base0 : option jsstring),
    innerHTML E [] = [] ->
    parseHTML E [] = [] ->
    (parseHTML E helloMarkup = helloNodes ->
     findsNoArticle E [el "p" [] [emptyElement "head"; Text (js "Hello")]] ->
     Enhanced.processHtml E helloMarkup (Some (AsFormat text)) base0 = Throw TypeError
     /\ Minimal.processHtml E helloMarkup (Some text) base0 = Throw TypeError)
    /\ (parseHTML E (wholePage helloMarkup) = helloPage ->
        findsNoArticle E helloClean ->
        innerHTML E [el "p" [] [Text (js "Hello")]] = js "<p>Hello</p>" ->
        parseHTML E (js "<p>Hello</p>") = [el "p" [] [Text (js "Hello")]] ->
        (exists r, Enhanced.processHtml E (wholePage helloMarkup) (Some (AsFormat text)) base0
                   = Ok r /\ content r = [])
        /\ (exists r, Minimal.processHtml E (wholePage helloMarkup) (Some text) base0
                      = Ok r /\ content r = [])).
Proof.
  intros E base0 I0 P0.
  assert (T : renderText E [] = Throw TypeError).
  { unfold renderText. rewrite P0. reflexivity. }
  split.
  - intros P R.
    assert (M : exists a, extractMain E [el "p" [] [emptyElement "head"; Text (js "Hello")]]
                          = Ok ([], a, [el "p" [] [emptyElement "head"; emptyElement "body";
                                                   Text (js "Hello")]])).
    { destruct (extractMain_without_article E _ R) as [H | [a H]];
        rewrite H; unfold bodyMarkup; cbn; rewrite I0; eexists; reflexivity. }
    destruct M as [a M].
    split.
    + unfold Enhanced.processHtml, Enhanced.openDocument, loadDocument. cbv zeta.
      rewrite P. cbn. unfold Enhanced.workingMarkup. cbn.
      change (extractMain E _)
        with (extractMain E [el "p" [] [emptyElement "head"; Text (js "Hello")]]).
      rewrite M. cbn. now rewrite T.
    + unfold Minimal.processHtml, Minimal.openDocument, loadDocument. cbv zeta.
      rewrite P. cbn.
      change (extractMain E _)
        with (extractMain E [el "p" [] [emptyElement "head"; Text (js "Hello")]]).
      rewrite M. cbn. now rewrite T.
  - intros P R IH PH.
    assert (M : exists a, extractMain E helloClean = Ok (js "<p>Hello</p>", a, helloClean)).
    { destruct (extractMain_without_article E _ R) as [H | [a H]];
        rewrite H; unfold bodyMarkup; cbn; cbn in IH; rewrite IH; eexists; reflexivity. }
    destruct M as [a M].
    assert (X : renderText E (js "<p>Hello</p>") = Ok []).
    { unfold renderText. rewrite PH. reflexivity. }
    split.
    + unfold Enhanced.processHtml, Enhanced.openDocument, loadDocument. cbv zeta.
      rewrite P. cbn. unfold Enhanced.workingMarkup. cbn.
      change (extractMain E _) with (extractMain E helloClean).
      rewrite M. cbn. cbn in X. rewrite X. cbn. eexists. split; reflexivity.
    + unfold Minimal.processHtml, Minimal.openDocument, loadDocument. cbv zeta.
      rewrite P. cbn.
      change (extractMain E _) with (extractMain E helloClean).
      rewrite M. cbn. cbn in X. rewrite X. cbn. eexists. split; reflexivity.
Qed.

Lemma hello_text_call_witness :
  Enhanced.processHtml helloEnv helloMarkup (Some (AsFormat text)) None = Throw TypeError
  /\ Minimal.processHtml helloEnv helloMarkup (Some text) None = Throw TypeError.
Proof.
  exact (proj1 (hello_text_call_throws helloEnv None eq_refl eq_refl) eq_refl I).
Defined.

(** *** What the sanitizers leave *)

Section Sanitizer.

(** Induction on a node with the hypothesis for each of its children. *)
Fixpoint node_ind_children (P : node -> Prop)
    (HE : forall t a cs, Forall P cs -> P (Element t a cs))
    (HT : forall s, P (Text s)) (HC : forall s, P (Comment s))
    (n : node) {struct n} : P n :=
  match n with
  | Element t a cs =>
      HE t a cs
         ((fix all (cs : list node) : Forall P cs :=
             match cs with
             | [] => Forall_nil P
             | c :: r => Forall_cons c (node_ind_children P HE HT HC c) (all r)
             end) cs)
  | Text s => HT s
  | Comment s => HC s
  end.

Variable bad : node -> bool.
Hypothesis bad_shallow : shallow bad.

Lemma free_of_element (t : jsstring) (a : list (jsstring * jsstring)) (cs : list node) :
  free_of bad (Element t a cs) = negb (bad (Element t a cs)) && forallb (free_of bad) cs.
Proof. reflexivity. Qed.

(** Removing what [bad] selects leaves nothing that [bad] selects. *)
Lemma prune_free (n : node) : bad n = false -> free_of bad (prune bad n) = true.
Proof.
  induction n as [t a cs IH | s | s] using node_ind_children; intros B.
  - cbn [prune]. rewrite free_of_element.
    rewrite (bad_shallow t a _ cs), B. cbn [negb andb]. clear B.
    induction cs as [|c r IHr]; [reflexivity|].
    inversion IH as [|? ? Hc Hr]; subst. cbn [flat_map].
    rewrite forallb_app, (IHr Hr), andb_true_r.
    destruct (bad c) eqn:Bc; [reflexivity|].
    cbn [forallb]. now rewrite (Hc eq_refl).
  - cbn. now rewrite B.
  - cbn. now rewrite B.
Qed.

Lemma removeAll_free (d : list node) : forallb (free_of bad) (removeAll bad d) = true.
Proof.
  unfold removeAll. induction d as [|c r IH]; [reflexivity|].
  cbn [flat_map]. rewrite forallb_app, IH, andb_true_r.
  destruct (bad c) eqn:Bc; [reflexivity|].
  cbn [forallb]. now rewrite (prune_free c Bc).
Qed.

(** Removing more keeps a tree free of [bad]. *)
Lemma prune_keeps_free (sel : node -> bool) (n : node) :
  free_of bad n = true -> free_of bad (prune sel n) = true.
Proof.
  induction n as [t a cs IH | s | s] using node_ind_children; intros F;
    [|exact F|exact F].
  cbn [prune]. rewrite free_of_element in *.
  apply andb_true_iff in F. destruct F as [B F].
  rewrite (bad_shallow t a _ cs), B. cbn [andb]. clear B.
  induction cs as [|c r IHr]; [reflexivity|].
  inversion IH as [|? ? Hc Hr]; subst.
  cbn [forallb] in F. apply andb_true_iff in F. destruct F as [Fc Fr].
  cbn [flat_map]. rewrite forallb_app, (IHr Hr Fr), andb_true_r.
  destruct (sel c); [reflexivity|]. cbn [forallb]. now rewrite (Hc Fc).
Qed.

Lemma removeAll_keeps_free (sel : node -> bool) (d : list node) :
  forallb (free_of bad) d = true -> forallb (free_of bad) (removeAll sel d) = true.
Proof.
  unfold removeAll. induction d as [|c r IH]; [reflexivity|].
  cbn [forallb flat_map]. intros F. apply andb_true_iff in F. destruct F as [Fc Fr].
  rewrite forallb_app, (IH Fr), andb_true_r.
  destruct (sel c); [reflexivity|]. cbn [forallb]. now rewrite (prune_keeps_free sel c Fc).
Qed.

Lemma without_at_keeps_free (gone : list path) (n : node) :
  forall here, free_of bad n = true -> free_of bad (without_at gone here n) = true.
Proof.
  induction n as [t a cs IH | s | s] using node_ind_children; intros here F;
    [|exact F|exact F].
  cbn [without_at]. rewrite free_of_element in *.
  apply andb_true_iff in F. destruct F as [B F].
  rewrite (bad_shallow t a _ cs), B. cbn [andb]. clear B.
  generalize 0 as i.
  induction cs as [|c r IHr]; intros i; [reflexivity|].
  inversion IH as [|? ? Hc Hr]; subst.
  cbn [forallb] in F. apply andb_true_iff in F. destruct F as [Fc Fr].
  destruct (includes_path (here ++ [i]) gone); [now apply IHr|].
  cbn [forallb]. now rewrite (Hc _ Fc), (IHr Hr Fr).
Qed.

Lemma removePaths_keeps_free (gone : list path) (d : document) :
  forallb (free_of bad) d = true -> forallb (free_of bad) (removePaths gone d) = true.
Proof.
  unfold removePaths. generalize 0 as i.
  induction d as [|c r IH]; intros i F; [reflexivity|].
  cbn [forallb] in F. apply andb_true_iff in F. destruct F as [Fc Fr].
  cbn [without_from].
  destruct (includes_path [i] gone); [now apply IH|].
  cbn [forallb]. now rewrite (without_at_keeps_free gone c [i] Fc), (IH _ Fr).
Qed.

(** Rewriting attributes that [bad] does not look at keeps a tree free of [bad]. *)
Lemma map_attrs_keeps_free (f : list (jsstring * jsstring) -> list (jsstring * jsstring))
    (n : node) :
  (forall t a cs, bad (Element t (f a) cs) = bad (Element t a cs)) ->
  free_of bad n = true -> free_of bad (map_attrs f n) = true.
Proof.
  intros Hf.
  induction n as [t a cs IH | s | s] using node_ind_children; intros F;
    [|exact F|exact F].
  cbn [map_attrs]. rewrite free_of_element in *.
  apply andb_true_iff in F. destruct F as [B F].
  rewrite (bad_shallow t (f a) _ cs), Hf, B. cbn [andb]. clear B.
  induction cs as [|c r IHr]; [reflexivity|].
  inversion IH as [|? ? Hc Hr]; subst.
  cbn [forallb] in F. apply andb_true_iff in F. destruct F as [Fc Fr].
  cbn [map forallb]. now rewrite (Hc Fc), (IHr Hr Fr).
Qed.

Lemma map_map_attrs_keeps_free
    (f : list (jsstring * jsstring) -> list (jsstring * jsstring)) (d : list node) :
  (forall t a cs, bad (Element t (f a) cs) = bad (Element t a cs)) ->
  forallb (free_of bad) d = true -> forallb (free_of bad) (map (map_attrs f) d) = true.
Proof.
  intros Hf. induction d as [|c r IH]; [reflexivity|].
  cbn [forallb map]. intros F. apply andb_true_iff in F. destruct F as [Fc Fr].
  now rewrite (map_attrs_keeps_free f c Hf Fc), (IH Fr).
Qed.

Lemma foldM_removeBy_keeps_free (E : Env) (ss : list jsstring) (d d' : document) :
  foldM (Enhanced.removeBy E) ss d = Ok d' ->
  forallb (free_of bad) d = true -> forallb (free_of bad) d' = true.
Proof.
  revert d. induction ss as [|s r IH]; intros d H F; cbn [foldM] in H.
  - now injection H as <-.
  - unfold bind at 1 in H.
    destruct (Enhanced.removeBy E d s) as [d1|e] eqn:R; [|discriminate].
    apply (IH d1 H).
    unfold Enhanced.removeBy, bind in R.
    destruct (Enhanced.querySelectorAllBy E s d) as [found|e]; [|discriminate].
    injection R as <-. now apply removePaths_keeps_free.
Qed.

Lemma applyRemoveSelector_keeps_free (E : Env) (o : option Selectors) (d d' : document) :
  Enhanced.applyRemoveSelector E o d = Ok d' ->
  forallb (free_of bad) d = true -> forallb (free_of bad) d' = true.
Proof.
  destruct o as [[s|ss]|]; cbn [Enhanced.applyRemoveSelector]; intros H F.
  - destruct (truthy s); [|now injection H as <-].
    apply (foldM_removeBy_keeps_free E [s] d d'); [|exact F].
    cbn [foldM]. unfold bind at 1. now destruct (Enhanced.removeBy E d s).
  - now apply (foldM_removeBy_keeps_free E ss d d').
  - now injection H as <-.
Qed.

Lemma on_root_keeps_free (sel : node -> bool) (d : document) :
  forallb (free_of bad) d = true ->
  forallb (free_of bad) (on_root (prune sel) d) = true.
Proof.
  induction d as [|c r IH]; [reflexivity|].
  cbn [forallb on_root]. intros F. apply andb_true_iff in F. destruct F as [Fc Fr].
  destruct (is_element c); cbn [forallb].
  - now rewrite (prune_keeps_free sel c Fc), Fr.
  - now rewrite Fc, (IH Fr).
Qed.

End Sanitizer.

Lemma jseqb_eq (a b : jsstring) : jseqb a b = true -> a = b.
Proof.
  revert b. induction a as [|x a IH]; intros [|y b]; cbn; try discriminate; [reflexivity|].
  intros H. apply andb_true_iff in H. destruct H as [H1 H2].
  apply N.eqb_eq in H1. subst. f_equal. now apply IH.
Qed.

Lemma lookup_attr_filter (name : jsstring) (p : jsstring * jsstring -> bool)
    (a : list (jsstring * jsstring)) :
  (forall k v, jseqb k name = true -> p (k, v) = true) ->
  lookup_attr name (filter p a) = lookup_attr name a.
Proof.
  intros Hp. induction a as [|[k v] r IH]; [reflexivity|].
  cbn [filter lookup_attr].
  destruct (jseqb k name) eqn:K.
  - rewrite (Hp k v K). cbn [lookup_attr]. now rewrite K.
  - destruct (p (k, v)); [cbn [lookup_attr]; now rewrite K | exact IH].
Qed.

Lemma noise_shallow : shallow noise.
Proof. intros t a cs cs'. reflexivity. Qed.

Lemma noise_minimal_shallow : shallow noise_minimal.
Proof. intros t a cs cs'. reflexivity. Qed.

Lemma is_comment_shallow : shallow is_comment.
Proof. intros t a cs cs'. reflexivity. Qed.

Lemma free_of_both (bad1 bad2 : node -> bool) (n : node) :
  free_of bad1 n = true -> free_of bad2 n = true ->
  free_of (fun m => bad1 m || bad2 m) n = true.
Proof.
  induction n as [t a cs IH | s | s] using node_ind_children; cbn [free_of]; intros F1 F2;
    apply andb_true_iff in F1; destruct F1 as [B1 F1];
    apply andb_true_iff in F2; destruct F2 as [B2 F2];
    apply negb_true_iff in B1; apply negb_true_iff in B2;
    rewrite B1, B2; cbn [orb negb andb]; try reflexivity.
  clear B1 B2.
  induction cs as [|c r IHr]; [reflexivity|].
  inversion IH as [|? ? Hc Hr]; subst.
  cbn [forallb] in *.
  apply andb_true_iff in F1. destruct F1 as [Fc1 Fr1].
  apply andb_true_iff in F2. destruct F2 as [Fc2 Fr2].
  now rewrite (Hc Fc1 Fc2), (IHr Hr Fr1 Fr2).
Qed.

Lemma forallb_free_of_both (bad1 bad2 : node -> bool) (d : list node) :
  forallb (free_of bad1) d = true -> forallb (free_of bad2) d = true ->
  forallb (free_of (fun m => bad1 m || bad2 m)) d = true.
Proof.
  induction d as [|c r IH]; [reflexivity|]. cbn [forallb]. intros F1 F2.
  apply andb_true_iff in F1. destruct F1 as [Fc1 Fr1].
  apply andb_true_iff in F2. destruct F2 as [Fc2 Fr2].
  now rewrite (free_of_both bad1 bad2 c Fc1 Fc2), (IH Fr1 Fr2).
Qed.

(** The attributes the sanitizer drops are not the ones [noise] looks at. *)
Lemma noise_dropDataAria (t : jsstring) (a : list (jsstring * jsstring)) (cs : list node) :
  noise (Element t (Enhanced.dropDataAria a) cs) = noise (Element t a cs).
Proof.
  unfold noise, sel_noise, has_tag, attr_is_ci, getAttribute, Enhanced.dropDataAria.
  rewrite lookup_attr_filter; [reflexivity|].
  intros k v K. apply jseqb_eq in K. subst k. reflexivity.
Qed.

Lemma noise_dropStyle (t : jsstring) (a : list (jsstring * jsstring)) (cs : list node) :
  noise (Element t (Enhanced.dropStyle a) cs) = noise (Element t a cs).
Proof.
  unfold Enhanced.dropStyle.
  destruct (lookup_attr (js "style") a) as [v|]; [|reflexivity].
  destruct (startsWith _ _); [reflexivity|].
  unfold noise, sel_noise, has_tag, attr_is_ci, getAttribute, remove_attr.
  rewrite lookup_attr_filter; [reflexivity|].
  intros k w K. apply jseqb_eq in K. subst k. reflexivity.
Qed.

(** *** The root element through the clean-up *)

Section TopLevel.

(** A test that looks at the tag of an element only. *)
Variable T : node -> bool.
Hypothesis T_tag : forall t a cs a' cs', T (Element t a cs) = T (Element t a' cs').

Lemma T_prune (sel : node -> bool) (n : node) : T (prune sel n) = T n.
Proof. destruct n; [apply T_tag | reflexivity | reflexivity]. Qed.

Lemma T_emptySvg (n : node) : T (emptySvg n) = T n.
Proof.
  destruct n as [t a cs| |]; [|reflexivity|reflexivity].
  cbn [emptySvg]. destruct (has_tag "svg" (Element t a cs)); apply T_tag.
Qed.

Lemma T_without_at (gone : list path) (here : path) (n : node) :
  T (without_at gone here n) = T n.
Proof. destruct n; [apply T_tag | reflexivity | reflexivity]. Qed.

Lemma T_map_attrs (f : list (jsstring * jsstring) -> list (jsstring * jsstring)) (n : node) :
  T (map_attrs f n) = T n.
Proof. destruct n; [apply T_tag | reflexivity | reflexivity]. Qed.

Lemma top_map (f : node -> node) (d : list node) :
  (forall n, T (f n) = T n) -> forallb T (map f d) = forallb T d.
Proof.
  intros Hf. induction d as [|n r IH]; [reflexivity|].
  cbn [map forallb]. now rewrite Hf, IH.
Qed.

Lemma top_removeAll (sel : node -> bool) (d : list node) :
  forallb T d = true -> forallb T (removeAll sel d) = true.
Proof.
  unfold removeAll. induction d as [|n r IH]; [reflexivity|].
  cbn [forallb flat_map]. intros F. apply andb_true_iff in F. destruct F as [Fn Fr].
  rewrite forallb_app, (IH Fr), andb_true_r.
  destruct (sel n); [reflexivity|]. cbn [forallb]. now rewrite T_prune, Fn.
Qed.

Lemma top_removePaths (gone : list path) (d : document) :
  forallb T d = true -> forallb T (removePaths gone d) = true.
Proof.
  unfold removePaths. generalize 0 as i.
  induction d as [|n r IH]; intros i F; [reflexivity|].
  cbn [forallb] in F. apply andb_true_iff in F. destruct F as [Fn Fr].
  cbn [without_from].
  destruct (includes_path [i] gone); [now apply IH|].
  cbn [forallb]. now rewrite T_without_at, Fn, (IH _ Fr).
Qed.

Lemma top_applyRemoveSelector (E : Env) (o : option Selectors) (d d' : document) :
  Enhanced.applyRemoveSelector E o d = Ok d' ->
  forallb T d = true -> forallb T d' = true.
Proof.
  assert (M : forall ss d0 d1, foldM (Enhanced.removeBy E) ss d0 = Ok d1 ->
                               forallb T d0 = true -> forallb T d1 = true).
  { induction ss as [|s r IH]; intros d0 d1 H F; cbn [foldM] in H.
    - now injection H as <-.
    - unfold bind at 1 in H.
      destruct (Enhanced.removeBy E d0 s) as [d2|e] eqn:R; [|discriminate].
      apply (IH d2 d1 H).
      unfold Enhanced.removeBy, bind in R.
      destruct (Enhanced.querySelectorAllBy E s d0) as [found|e]; [|discriminate].
      injection R as <-. now apply top_removePaths. }
  destruct o as [[s|ss]|]; cbn [Enhanced.applyRemoveSelector]; intros H F.
  - destruct (truthy s); [|now injection H as <-].
    apply (M [s] d d'); [|exact F].
    cbn [foldM]. unfold bind at 1. now destruct (Enhanced.removeBy E d s).
  - now apply (M ss d d').
  - now injection H as <-.
Qed.

Lemma top_on_root (f : node -> node) (d : document) :
  (forall n, T (f n) = T n) -> forallb T (on_root f d) = forallb T d.
Proof.
  intros Hf. induction d as [|n r IH]; [reflexivity|].
  cbn [on_root]. destruct (is_element n); cbn [forallb]; [now rewrite Hf | now rewrite IH].
Qed.

End TopLevel.

Lemma removeAll_none (sel : node -> bool) (d : list node) :
  forallb (fun n => negb (sel n)) d = true -> removeAll sel d = map (prune sel) d.
Proof.
  unfold removeAll. induction d as [|n r IH]; [reflexivity|].
  cbn [forallb flat_map map]. intros F. apply andb_true_iff in F. destruct F as [Fn Fr].
  apply negb_true_iff in Fn. rewrite Fn, (IH Fr). reflexivity.
Qed.

Lemma documentElement_map (f : node -> node) (d : document) :
  (forall n, is_element (f n) = is_element n) ->
  documentElement (map f d) = option_map f (documentElement d).
Proof.
  intros Hf. unfold documentElement. induction d as [|n r IH]; [reflexivity|].
  cbn [map find]. rewrite Hf. now destruct (is_element n).
Qed.

Lemma is_element_prune (sel : node -> bool) (n : node) :
  is_element (prune sel n) = is_element n.
Proof. now destruct n. Qed.

Lemma is_element_map_attrs (f : list (jsstring * jsstring) -> list (jsstring * jsstring))
    (n : node) :
  is_element (map_attrs f n) = is_element n.
Proof. now destruct n. Qed.

Lemma documentElement_is_element (d : document) (root : node) :
  documentElement d = Some root -> is_element root = true.
Proof. unfold documentElement. intros H. now apply find_some in H. Qed.

Lemma path_eqb_eq (p q : path) : path_eqb p q = true <-> p = q.
Proof.
  revert q. induction p as [|i p IH]; intros [|j q]; cbn [path_eqb];
    try (split; [discriminate | discriminate]); [split; reflexivity|].
  rewrite andb_true_iff, Nat.eqb_eq, IH. split.
  - now intros [-> ->].
  - intros H. now injection H.
Qed.

Lemma includes_path_In (p : path) (ps : list path) : includes_path p ps = true <-> In p ps.
Proof.
  unfold includes_path. rewrite existsb_exists. split.
  - intros (q & Hq & Hp). apply path_eqb_eq in Hp. now subst.
  - intros H. exists p. split; [exact H | now apply path_eqb_eq].
Qed.

(** *** Comments that are children of the document *)

Lemma paths_at_shape (n : node) :
  forall here p, In p (element_paths_at here n) ->
                 (p = here /\ is_element n = true) \/ List.length here < List.length p.
Proof.
  induction n as [t a cs IH | s | s] using node_ind_children; intros here p H;
    [|destruct H|destruct H].
  cbn [element_paths_at] in H. destruct H as [<- | H]; [left; now split|].
  right. revert H. generalize 0 as i.
  induction cs as [|c r IHr]; intros i H; [destruct H|].
  inversion IH as [|? ? Hc Hr]; subst.
  apply in_app_or in H. destruct H as [H | H].
  - destruct (Hc _ _ H) as [[-> _] | L]; rewrite ?length_app in *; cbn [List.length] in *; lia.
  - exact (IHr Hr _ H).
Qed.

Lemma paths_from_top (d : list node) :
  forall k i, In [i] (element_paths_from k d) ->
              k <= i /\ exists n, nth_error d (i - k) = Some n /\ is_element n = true.
Proof.
  induction d as [|c r IH]; intros k i H; [destruct H|].
  cbn [element_paths_from] in H. apply in_app_or in H. destruct H as [H | H].
  - destruct (paths_at_shape c [k] [i] H) as [[E N] | L]; [|cbn in L; lia].
    injection E as ->. split; [lia|]. exists c. rewrite Nat.sub_diag. now split.
  - destruct (IH _ _ H) as [L (n & Hn & N)]. split; [lia|]. exists n. split; [|exact N].
    replace (i - k) with (S (i - S k)) by lia. exact Hn.
Qed.

Lemma without_from_keeps_comment (gone : list path) (s : jsstring) (d : list node) :
  forall k,
    (forall i, In [i] gone -> k <= i ->
               forall n, nth_error d (i - k) = Some n -> is_element n = true) ->
    In (Comment s) d -> In (Comment s) (without_from gone k d).
Proof.
  induction d as [|c r IH]; intros k G H; [destruct H|].
  assert (Gr : forall i, In [i] gone -> S k <= i ->
                         forall n, nth_error r (i - S k) = Some n -> is_element n = true).
  { intros i Hi L n Hn. apply (G i Hi); [lia|].
    replace (i - k) with (S (i - S k)) by lia. exact Hn. }
  cbn [without_from]. destruct H as [-> | H].
  - destruct (includes_path [k] gone) eqn:I.
    + apply includes_path_In in I.
      specialize (G k I (le_n k) (Comment s)). rewrite Nat.sub_diag in G.
      discriminate (G eq_refl).
    + left. reflexivity.
  - destruct (includes_path [k] gone); [|right]; now apply IH.
Qed.

Lemma removeBy_keeps_comment (E : Env) (sel s : jsstring) (d d' : document) :
  Enhanced.removeBy E d sel = Ok d' -> In (Comment s) d -> In (Comment s) d'.
Proof.
  unfold Enhanced.removeBy, Enhanced.querySelectorAllBy, bind.
  destruct (compileSelector E sel) as [matches|e]; [|discriminate].
  intros H. injection H as <-. unfold removePaths.
  apply without_from_keeps_comment.
  intros i Hi _ n Hn. apply filter_In in Hi. destruct Hi as [Hi _].
  destruct (paths_from_top d 0 i Hi) as [_ (n' & Hn' & N)].
  rewrite Hn in Hn'. now injection Hn' as <-.
Qed.

Lemma applyRemoveSelector_keeps_comment (E : Env) (o : option Selectors) (s : jsstring)
    (d d' : document) :
  Enhanced.applyRemoveSelector E o d = Ok d' -> In (Comment s) d -> In (Comment s) d'.
Proof.
  assert (M : forall ss d0 d1, foldM (Enhanced.removeBy E) ss d0 = Ok d1 ->
                               In (Comment s) d0 -> In (Comment s) d1).
  { induction ss as [|x r IH]; intros d0 d1 H F; cbn [foldM] in H.
    - now injection H as <-.
    - unfold bind at 1 in H.
      destruct (Enhanced.removeBy E d0 x) as [d2|e] eqn:R; [|discriminate].
      apply (IH d2 d1 H). exact (removeBy_keeps_comment E x s d0 d2 R F). }
  destruct o as [[x|ss]|]; cbn [Enhanced.applyRemoveSelector]; intros H F.
  - destruct (truthy x); [|now injection H as <-].
    exact (removeBy_keeps_comment E x s d d' H F).
  - now apply (M ss d d').
  - now injection H as <-.
Qed.

Lemma removeAll_keeps_comment (sel : node -> bool) (s : jsstring) (d : list node) :
  sel (Comment s) = false -> In (Comment s) d -> In (Comment s) (removeAll sel d).
Proof.
  intros S H. unfold removeAll. apply in_flat_map. exists (Comment s).
  split; [exact H|]. rewrite S. left. reflexivity.
Qed.

Lemma on_root_keeps_comment (f : node -> node) (s : jsstring) (d : document) :
  In (Comment s) d -> In (Comment s) (on_root f d).
Proof.
  induction d as [|n r IH]; [intros []|].
  cbn [on_root]. intros [-> | H].
  - left. reflexivity.
  - destruct (is_element n); right; [exact H | now apply IH].
Qed.

Lemma map_keeps_comment (f : node -> node) (s : jsstring) (d : list node) :
  f (Comment s) = Comment s -> In (Comment s) d -> In (Comment s) (map f d).
Proof. intros F H. rewrite <- F. now apply in_map. Qed.

(** What the clean-ups guarantee.  The enhanced one leaves no [script],
    [style], [noscript], [meta], stylesheet [link] or [img] element anywhere
    in the document.  Unless [removeComments] is [false], it leaves no comment
    below the root element of the document (when no [img] is a child of the
    document itself, so that the root element is the one the tree walker
    started from); a comment that is a child of the document itself stays in
    every case.  The minimal clean-up leaves no [script], [style],
    [noscript], [meta] or [img] element. *)
Theorem sanitize_leaves_no_noise :
  forall (E : Env) (options : ProcessingOptions) (dom dom' : document),
    (Enhanced.sanitize E options dom = Ok dom' ->
     forallb (free_of noise) dom' = true
     /\ (forall s, In (Comment s) dom -> In (Comment s) dom')
     /\ (not_false (removeComments options) = true ->
         forallb (fun n => negb (has_tag "img" n)) dom = true ->
         forall root, documentElement dom' = Some root -> free_of is_comment root = true))
    /\ forallb (free_of noise_minimal) (Minimal.sanitize dom) = true.
Proof.
  intros E options dom dom'. split.
  - unfold Enhanced.sanitize. cbv zeta. unfold bind.
    destruct (Enhanced.applyRemoveSelector E (removeSelector options) _) as [d1|e] eqn:R;
      [|discriminate].
    destruct (if not_false (removeComments options) then Enhanced.dropComments d1 else Ok d1)
      as [d2|e] eqn:C; [|discriminate].
    intros H. injection H as <-.
    assert (F1 : forallb (free_of sel_noise) d1 = true).
    { apply (applyRemoveSelector_keeps_free sel_noise
               ltac:(intros t a cs cs'; reflexivity) E _ _ _ R).
      apply removeAll_free. intros t a cs cs'. reflexivity. }
    assert (F2 : forallb (free_of sel_noise) d2 = true).
    { destruct (not_false (removeComments options)); [|now injection C as <-].
      unfold Enhanced.dropComments in C.
      destruct (documentElement d1); [|discriminate]. injection C as <-.
      apply on_root_keeps_free; [intros t a cs cs'; reflexivity | exact F1]. }
    split; [|split].
    + apply map_map_attrs_keeps_free;
        [exact noise_shallow | exact noise_dropStyle |].
      apply map_map_attrs_keeps_free;
        [exact noise_shallow | exact noise_dropDataAria |].
      apply forallb_free_of_both.
      * apply removeAll_keeps_free; [intros t a cs cs'; reflexivity | exact F2].
      * apply removeAll_free. intros t a cs cs'. reflexivity.
    + intros s H.
      apply map_keeps_comment; [reflexivity|].
      apply map_keeps_comment; [reflexivity|].
      apply removeAll_keeps_comment; [reflexivity|].
      assert (H1 : In (Comment s) d1).
      { apply (applyRemoveSelector_keeps_comment E _ s _ _ R).
        apply removeAll_keeps_comment; [reflexivity|].
        apply map_keeps_comment; [reflexivity | exact H]. }
      destruct (not_false (removeComments options)); [|now injection C as <-].
      unfold Enhanced.dropComments in C.
      destruct (documentElement d1); [|discriminate]. injection C as <-.
      now apply on_root_keeps_comment.
    + intros NF NI root Hroot. rewrite NF in C.
      unfold Enhanced.dropComments in C.
      destruct (documentElement d1) as [r1|] eqn:R1; [|discriminate]. injection C as <-.
      assert (TT : forall t a cs a' cs',
                 negb (has_tag "img" (Element t a cs)) = negb (has_tag "img" (Element t a' cs')))
        by reflexivity.
      assert (N1 : forallb (fun n => negb (has_tag "img" n)) d1 = true).
      { apply (top_applyRemoveSelector _ TT E _ _ _ R).
        apply (top_removeAll _ TT).
        rewrite (top_map _ emptySvg dom (T_emptySvg _ TT)). exact NI. }
      assert (N2 : forallb (fun n => negb (has_tag "img" n))
                     (on_root (prune is_comment) d1) = true).
      { rewrite (top_on_root _ (prune is_comment) d1 (T_prune _ TT is_comment)). exact N1. }
      rewrite (removeAll_none _ _ N2) in Hroot.
      rewrite !documentElement_map in Hroot
        by (intros n; rewrite ?is_element_map_attrs, ?is_element_prune; reflexivity).
      rewrite (documentElement_on_root (prune is_comment) d1 r1
                 (is_element_prune is_comment) R1) in Hroot.
      cbn [option_map] in Hroot. injection Hroot as <-.
      apply map_attrs_keeps_free; [exact is_comment_shallow | reflexivity |].
      apply map_attrs_keeps_free; [exact is_comment_shallow | reflexivity |].
      apply prune_keeps_free; [exact is_comment_shallow|].
      apply prune_free; [exact is_comment_shallow|].
      apply documentElement_is_element in R1. now destruct r1.
  - unfold Minimal.sanitize. cbv zeta.
    apply forallb_free_of_both.
    + apply removeAll_keeps_free; [intros t a cs cs'; reflexivity|].
      apply removeAll_free. intros t a cs cs'. reflexivity.
    + apply removeAll_free. intros t a cs cs'. reflexivity.
Qed.

(** The comment in front of the root element stays, the one in the body goes. *)
Lemma sanitize_leaves_no_noise_witness :
  Enhanced.sanitize helloEnv (plainOptions None) commentedPage = Ok commentedClean
  /\ forallb (free_of noise) commentedClean = true
  /\ In (Comment (js "top")) commentedClean
  /\ forallb (free_of is_comment) (tl commentedClean) = true.
Proof.
  destruct (sanitize_leaves_no_noise helloEnv (plainOptions None) commentedPage commentedClean)
    as [H _].
  destruct (H eq_refl) as (N & K & C).
  split; [reflexivity|]. split; [exact N|]. split.
  - apply K. left. reflexivity.
  - unfold commentedClean. cbn [tl forallb]. apply andb_true_iff.
    split; [exact (C eq_refl eq_refl _ eq_refl) | reflexivity].
Defined.

(** *** The text of a link *)

Lemma collapse_ws_single_spaced (b : bool) (s : jsstring) :
  single_spaced b (collapse_ws_from b s) = true.
Proof.
  revert b. induction s as [|c r IH]; intros b; [reflexivity|].
  cbn [collapse_ws_from]. destruct (is_whitespace c) eqn:W.
  - destruct b; [apply IH|].
    cbn [single_spaced]. change (is_whitespace SP) with true. cbn. apply IH.
  - cbn [single_spaced]. rewrite W. apply IH.
Qed.

Lemma single_spaced_relax (b : bool) (s : jsstring) :
  single_spaced b s = true -> single_spaced false s = true.
Proof.
  destruct s as [|c r]; [reflexivity|]. cbn [single_spaced].
  destruct (is_whitespace c); [|auto].
  intros H. apply andb_true_iff in H. destruct H as [H1 H2].
  apply andb_true_iff in H1. destruct H1 as [H1 _].
  now rewrite H1, H2.
Qed.

Lemma single_spaced_trimStart (b : bool) (s : jsstring) :
  single_spaced b s = true -> single_spaced false (trimStart s) = true.
Proof.
  revert b. induction s as [|c r IH]; intros b H; [reflexivity|].
  cbn [trimStart]. destruct (is_whitespace c) eqn:W.
  - cbn [single_spaced] in H. rewrite W in H.
    apply andb_true_iff in H. destruct H as [_ H]. exact (IH true H).
  - exact (single_spaced_relax b _ H).
Qed.

Lemma single_spaced_prefix (b : bool) (p t : jsstring) :
  single_spaced b (p ++ t) = true -> single_spaced b p = true.
Proof.
  revert b. induction p as [|c r IH]; intros b H; [reflexivity|].
  cbn [app single_spaced] in *. destruct (is_whitespace c).
  - apply andb_true_iff in H. destruct H as [H1 H2]. now rewrite H1, (IH _ H2).
  - exact (IH _ H).
Qed.

(** What [trimStart] drops is a prefix. *)
Lemma trimStart_suffix (s : jsstring) : exists h, s = h ++ trimStart s.
Proof.
  induction s as [|c r [h IH]]; [now exists []|].
  cbn [trimStart]. destruct (is_whitespace c).
  - exists (c :: h). cbn [app]. now f_equal.
  - now exists [].
Qed.

(** What [trimEnd] drops is a suffix. *)
Lemma trimEnd_prefix (s : jsstring) : exists t, s = trimEnd s ++ t.
Proof.
  unfold trimEnd. destruct (trimStart_suffix (rev s)) as [h H].
  exists (rev h). rewrite <- rev_app_distr, <- H. now rewrite rev_involutive.
Qed.

Lemma trimStart_head (s : jsstring) (c : char16) (r : jsstring) :
  trimStart s = c :: r -> is_whitespace c = false.
Proof.
  induction s as [|d s' IH]; [discriminate|].
  cbn [trimStart]. destruct (is_whitespace d) eqn:W; [exact IH|].
  intros H. injection H as <- _. exact W.
Qed.

Lemma last_rev_head (c d : char16) (r : jsstring) : last (rev (c :: r)) d = c.
Proof. cbn [rev]. apply last_last. Qed.

Lemma trim_trimmed (s : jsstring) : trimmed (trim s) = true.
Proof.
  unfold trim, trimmed.
  destruct (trimEnd (trimStart s)) as [|c r] eqn:T; [reflexivity|].
  apply andb_true_iff. split; apply negb_true_iff.
  - destruct (trimEnd_prefix (trimStart s)) as [t H]. rewrite T in H.
    cbn [app] in H. exact (trimStart_head s c _ H).
  - unfold trimEnd in T.
    destruct (trimStart (rev (trimStart s))) as [|e q] eqn:Q; [discriminate|].
    rewrite <- T, last_rev_head. exact (trimStart_head _ e q Q).
Qed.

Lemma trim_single_spaced (s : jsstring) :
  single_spaced false s = true -> single_spaced false (trim s) = true.
Proof.
  intros H. unfold trim.
  destruct (trimEnd_prefix (trimStart s)) as [t Ht].
  apply (single_spaced_prefix false _ t). rewrite <- Ht.
  exact (single_spaced_trimStart false s H).
Qed.

(** The text of a link entry is whitespace-collapsed and trimmed (it may be
    empty): its only whitespace is single spaces between other code units. *)
Theorem linkText_is_collapsed_and_trimmed :
  forall x : node,
    single_spaced false (linkText x) = true /\ trimmed (linkText x) = true.
Proof.
  intros x. unfold linkText, or_else.
  destruct (truthy (trim (collapse_ws (textContent x)))); [|split; reflexivity].
  split; [|apply trim_trimmed].
  apply trim_single_spaced. apply collapse_ws_single_spaced.
Qed.

(** *** A target selector that matches nothing *)

(** When the target selectors match no element of the sanitized document, the
    enhanced processor returns what it returns without [targetSelector]. *)
Theorem empty_target_is_no_target :
  forall (E : Env) (html : jsstring) (o : ProcessingOptions) (base0 : option jsstring)
         (sels : Selectors),
    targetSelector o = Some sels ->
    (forall opened dom,
        Enhanced.openDocument E o html = Ok opened ->
        Enhanced.sanitize E o (snd opened) = Ok dom ->
        Enhanced.collectTargets E sels dom = Ok []) ->
    Enhanced.processHtml E html (Some (AsOptions o)) base0
    = Enhanced.processHtml E html (Some (AsOptions (withoutTarget o))) base0.
Proof.
  intros E html o base0 sels T C.
  unfold Enhanced.processHtml. cbv zeta.
  cbn [Enhanced.effectiveOptions].
  change (Enhanced.openDocument E (withoutTarget o)) with (Enhanced.openDocument E o).
  destruct (Enhanced.openDocument E o html) as [opened|e] eqn:O; [|reflexivity].
  cbn [bind].
  change (Enhanced.sanitize E (withoutTarget o)) with (Enhanced.sanitize E o).
  destruct (Enhanced.sanitize E o _) as [dom|e] eqn:S; [|reflexivity].
  cbn [bind].
  assert (W : Enhanced.workingMarkup E o dom = Enhanced.workingMarkup E (withoutTarget o) dom).
  { unfold Enhanced.workingMarkup. cbn [withoutTarget targetSelector].
    rewrite T. cbn [Enhanced.selectTarget].
    destruct (truthy_selectors (Some sels)); [|reflexivity].
    rewrite (C opened dom eq_refl S). reflexivity. }
  rewrite W. reflexivity.
Qed.

Lemma empty_target_witness :
  Enhanced.processHtml helloEnv (wholePage helloMarkup) (Some (AsOptions articleOptions)) None
  = Enhanced.processHtml helloEnv (wholePage helloMarkup)
      (Some (AsOptions (withoutTarget articleOptions))) None.
Proof.
  apply (empty_target_is_no_target helloEnv (wholePage helloMarkup) articleOptions None
           (OneSelector (js "article")) eq_refl).
  intros opened dom O H. vm_compute in O. injection O as <-.
  vm_compute in H. injection H as <-. reflexivity.
Defined.

(** ** The rules registered with Turndown *)

Section CodeRule.

Import Rules.

Lemma jseqb_refl (a : jsstring) : jseqb a a = true.
Proof. induction a as [|x a IH]; cbn; [reflexivity | now rewrite N.eqb_refl]. Qed.

Lemma isMatch_In (matches : list jsstring) (d : jsstring) :
  isMatch matches d = true <-> In d matches.
Proof.
  unfold isMatch. rewrite existsb_exists. split.
  - intros (r & Hr & E). apply jseqb_eq in E. now subst.
  - intros H. exists d. split; [exact H | apply jseqb_refl].
Qed.

Lemma backticks_snoc (k : nat) : backticks k ++ [BACKTICK] = backticks (S k).
Proof. unfold backticks. now rewrite <- repeat_cons. Qed.

Lemma backticks_length (k : nat) : List.length (backticks k) = k.
Proof. apply repeat_length. Qed.

Lemma backticks_inj (j k : nat) : backticks j = backticks k -> j = k.
Proof. intros H. apply (f_equal (@List.length _)) in H. now rewrite !backticks_length in H. Qed.

(** Every match is a non-empty string of backticks, no longer than what was read. *)
Lemma backtickRuns_are_backticks (k : nat) (s r : jsstring) :
  In r (backtickRuns (backticks k) s) ->
  exists j, 1 <= j <= k + List.length s /\ r = backticks j.
Proof.
  revert k. induction s as [|c s IH]; intros k H.
  - cbn [backtickRuns] in H. destruct k as [|k]; [destruct H|].
    cbn [backticks repeat] in H. destruct H as [<- | []].
    exists (S k). split; [cbn; lia | reflexivity].
  - cbn [backtickRuns] in H. destruct (N.eqb_spec c BACKTICK) as [-> | NE].
    + change (BACKTICK :: backticks k) with (backticks (S k)) in H.
      destruct (IH (S k) H) as (j & Hj & ->). exists j. split; [cbn [List.length]; lia | reflexivity].
    + destruct k as [|k].
      * cbn [backticks repeat] in H. destruct (IH 0 H) as (j & Hj & ->).
        exists j. split; [cbn [List.length]; lia | reflexivity].
      * cbn [backticks repeat] in H. destruct H as [<- | H].
        -- exists (S k). split; [cbn [List.length]; lia | reflexivity].
        -- destruct (IH 0 H) as (j & Hj & ->).
           exists j. split; [cbn [List.length]; lia | reflexivity].
Qed.

(** The matches are made of the backticks of the content, all of them. *)
Lemma backtickRuns_concat (k : nat) (s : jsstring) :
  List.concat (backtickRuns (backticks k) s)
  = backticks k ++ filter (fun c => (c =? BACKTICK)%N) s.
Proof.
  revert k. induction s as [|c s IH]; intros k.
  - cbn [backtickRuns filter]. rewrite app_nil_r.
    destruct k; [reflexivity|]. cbn [backticks repeat List.concat]. now rewrite app_nil_r.
  - cbn [backtickRuns filter]. destruct (N.eqb_spec c BACKTICK) as [-> | NE].
    + change (BACKTICK :: backticks k) with (backticks (S k)).
      rewrite IH, <- backticks_snoc, <- app_assoc. reflexivity.
    + destruct k as [|k].
      * exact (IH 0).
      * cbn [backticks repeat List.concat]. f_equal. exact (IH 0).
Qed.

(** The loop: started on [k] backticks with enough rounds left, it ends on the
    first length from [k] on that is not the length of a match. *)
Lemma growDelimiter_first_free (matches : list jsstring) (rounds k : nat) :
  (forall r, In r matches -> List.length r < k + rounds) ->
  exists j, k <= j <= k + rounds
            /\ growDelimiter rounds matches (backticks k) = backticks j
            /\ ~ In (backticks j) matches
            /\ forall i, k <= i < j -> In (backticks i) matches.
Proof.
  revert k. induction rounds as [|n IH]; intros k B.
  - exists k. cbn [growDelimiter]. repeat split; try lia.
    intros H. apply B in H. rewrite backticks_length in H. lia.
  - cbn [growDelimiter]. destruct (isMatch matches (backticks k)) eqn:M.
    + rewrite backticks_snoc.
      destruct (IH (S k)) as (j & Hj & G & F & A).
      { intros r Hr. apply B in Hr. lia. }
      exists j. repeat split; try lia; try assumption.
      intros i Hi. destruct (Nat.eq_dec i k) as [-> | NE].
      * now apply isMatch_In.
      * apply A. lia.
    + exists k. repeat split; try lia.
      intros H. apply isMatch_In in H. congruence.
Qed.

Lemma loopDelimiter_least (content : jsstring) :
  exists k,
    1 <= k <= S (List.length content)
    /\ loopDelimiter content = backticks k
    /\ isMatch (backtickRuns [] content) (loopDelimiter content) = false
    /\ forall i, 1 <= i < k -> In (backticks i) (backtickRuns [] content).
Proof.
  set (matches := backtickRuns [] content).
  destruct (growDelimiter_first_free matches (S (List.length content)) 1)
    as (j & Hj & G & F & A).
  { intros r Hr. destruct (backtickRuns_are_backticks 0 content r Hr) as (i & Hi & ->).
    rewrite backticks_length. lia. }
  assert (U : j <= S (List.length content)).
  { destruct (Nat.le_gt_cases j (S (List.length content))) as [L | L]; [exact L|].
    exfalso. assert (I : In (backticks (S (List.length content))) matches)
      by (apply A; lia).
    destruct (backtickRuns_are_backticks 0 content _ I) as (i & Hi & E).
    apply backticks_inj in E. lia. }
  exists j. unfold loopDelimiter. fold matches.
  change [BACKTICK] with (backticks 1). rewrite G.
  repeat split; try lia; try assumption.
  destruct (isMatch matches (backticks j)) eqn:M; [|reflexivity].
  apply isMatch_In in M. contradiction.
Qed.

(** The delimiter of the [improved-code] rule.  The loop of line 342 ends, on
    a string of backticks whose length is the least positive one that no
    maximal run of backticks in the content has; the matches it compares with
    are non-empty strings of backticks that together hold every backtick of
    the content. *)
Theorem loopDelimiter_is_the_least_free :
  forall content : jsstring,
    let matches := backtickRuns [] content in
    (exists k,
        1 <= k <= S (List.length content)
        /\ loopDelimiter content = backticks k
        /\ isMatch matches (loopDelimiter content) = false
        /\ forall i, 1 <= i < k -> In (backticks i) matches)
    /\ (forall r, In r matches -> exists j, 1 <= j /\ r = backticks j)
    /\ List.concat matches = filter (fun c => (c =? BACKTICK)%N) content.
Proof.
  intros content matches. split; [|split].
  - exact (loopDelimiter_least content).
  - intros r Hr. destruct (backtickRuns_are_backticks 0 content r Hr) as (j & Hj & ->).
    exists j. split; [lia | reflexivity].
  - exact (backtickRuns_concat 0 content).
Qed.

(** The output of the [improved-code] rule.  Empty content gives the empty
    string.  Otherwise the content is fenced when it holds a line feed, or when
    the loop has ended on three backticks (the content has runs of one and of
    two backticks and none of three): three backticks and a line feed before
    it, and after it a line feed, unless it ends with one, and three backticks.
    In every other case the delimiter of the loop stands before and after the
    content, with a space between the opening delimiter and the content when
    the content starts or ends with a backtick or is a text between two
    spaces; nothing is put between the content and the closing delimiter. *)
Theorem codeReplacement_shape :
  forall content : jsstring,
    let fenced :=
      includes [LF] content || jseqb (loopDelimiter content) fence in
    codeReplacement [] = []
    /\ (content <> [] -> fenced = true ->
        codeReplacement content
        = fence ++ [LF] ++ content
          ++ (if endsWith [LF] content then [] else [LF]) ++ fence)
    /\ (content <> [] -> fenced = false ->
        codeReplacement content
        = loopDelimiter content ++ (if needsPad content then [SP] else [])
          ++ content ++ loopDelimiter content)
    /\ (jseqb (loopDelimiter content) fence = true
        <-> In (backticks 1) (backtickRuns [] content)
            /\ In (backticks 2) (backtickRuns [] content)
            /\ ~ In (backticks 3) (backtickRuns [] content)).
Proof.
  intros content fenced. split; [reflexivity|]. split; [|split].
  - intros NE F. unfold codeReplacement.
    destruct content as [|c r]; [congruence|]. cbn [truthy negb]. cbv zeta.
    unfold fenced in F.
    destruct (includes [LF] (c :: r)).
    + change (jseqb fence fence) with true. cbn [andb].
      destruct (endsWith [LF] (c :: r)); reflexivity.
    + cbn [orb] in F. rewrite F. cbn [andb]. apply jseqb_eq in F. rewrite F.
      destruct (endsWith [LF] (c :: r)); reflexivity.
  - intros NE F. unfold codeReplacement.
    destruct content as [|c r]; [congruence|]. cbn [truthy negb]. cbv zeta.
    unfold fenced in F. apply orb_false_iff in F. destruct F as [F1 F2].
    rewrite F1, F2. cbn [andb]. now rewrite app_nil_l.
  - destruct (loopDelimiter_least content) as (k & Hk & D & M & A).
    rewrite D in *. split.
    + intros H. apply jseqb_eq in H.
      change fence with (backticks 3) in H. apply backticks_inj in H. subst k.
      split; [apply A; lia|]. split; [apply A; lia|].
      intros I. apply isMatch_In in I. congruence.
    + intros (I1 & I2 & N3).
      assert (k = 3).
      { destruct (Nat.lt_trichotomy k 3) as [L | [E | G]]; [|exact E|].
        - exfalso. assert (k = 1 \/ k = 2) as [-> | ->] by lia.
          + apply isMatch_In in I1. congruence.
          + apply isMatch_In in I2. congruence.
        - exfalso. apply N3. apply A. lia. }
      subst k. apply jseqb_refl.
Qed.

(** A content with runs of one and of two backticks is fenced although it has
    no line feed. *)
Lemma codeReplacement_shape_witness :
  js "a`b``c" <> []
  /\ includes [LF] (js "a`b``c") || jseqb (loopDelimiter (js "a`b``c")) fence = true
  /\ codeReplacement (js "a`b``c") = js "```" ++ [LF] ++ js "a`b``c" ++ [LF] ++ js "```".
Proof.
  split; [discriminate|]. split; [reflexivity|].
  exact (proj1 (proj2 (codeReplacement_shape (js "a`b``c")))
           ltac:(discriminate) eq_refl).
Defined.

End CodeRule.

Section LinkRule.

Import Rules.

Variable E : Env.

Lemma remove_ws_clean (s : jsstring) :
  forallb (fun c => negb (is_whitespace c)) (remove_ws s) = true.
Proof.
  unfold remove_ws. induction s as [|c r IH]; [reflexivity|].
  cbn [filter]. destruct (is_whitespace c) eqn:W; cbn [negb]; [exact IH|].
  cbn [forallb]. now rewrite W, IH.
Qed.

Lemma trimStart_clean (s : jsstring) :
  forallb (fun c => negb (is_whitespace c)) s = true -> trimStart s = s.
Proof.
  destruct s as [|c r]; [reflexivity|]. cbn [forallb trimStart].
  intros H. apply andb_true_iff in H. destruct H as [H _].
  apply negb_true_iff in H. now rewrite H.
Qed.

(** Trimming a string without whitespace changes nothing. *)
Lemma trim_clean (s : jsstring) :
  forallb (fun c => negb (is_whitespace c)) s = true -> trim s = s.
Proof.
  intros H. unfold trim, trimEnd. rewrite (trimStart_clean s H).
  rewrite trimStart_clean; [apply rev_involutive|].
  now rewrite forallb_rev.
Qed.

Lemma quotesEscaped_escapeQuotes (b : bool) (t : jsstring) :
  quotesEscaped b (escapeQuotes t) = true.
Proof.
  revert b. induction t as [|c r IH]; intros b; [reflexivity|].
  unfold escapeQuotes. cbn [flat_map]. fold (escapeQuotes r).
  destruct (N.eqb_spec c DQUOTE) as [-> | NE].
  - cbn [app quotesEscaped]. change (BACKSLASH =? DQUOTE)%N with false.
    change (BACKSLASH =? BACKSLASH)%N with true. change (DQUOTE =? DQUOTE)%N with true.
    change (DQUOTE =? BACKSLASH)%N with false. cbn [andb]. apply IH.
  - cbn [app quotesEscaped]. apply N.eqb_neq in NE. rewrite NE. cbn [andb]. apply IH.
Qed.

Lemma unescapeQuotes_cons (c : char16) (s : jsstring) :
  (c =? BACKSLASH)%N = false \/ (forall d r, s = d :: r -> (d =? DQUOTE)%N = false) ->
  unescapeQuotes (c :: s) = c :: unescapeQuotes s.
Proof.
  intros H. destruct s as [|d r]; [reflexivity|].
  cbn [unescapeQuotes]. destruct H as [H | H].
  - now rewrite H.
  - rewrite (H d r eq_refl), andb_false_r. reflexivity.
Qed.

Lemma escapeQuotes_head (t : jsstring) (d : char16) (r : jsstring) :
  escapeQuotes t = d :: r -> (d =? DQUOTE)%N = false.
Proof.
  destruct t as [|c t']; [discriminate|].
  unfold escapeQuotes. cbn [flat_map].
  destruct (N.eqb_spec c DQUOTE) as [-> | NE]; cbn [app]; intros H; injection H as <- _.
  - reflexivity.
  - now apply N.eqb_neq.
Qed.

(** The escaped title gives the title back. *)
Lemma unescape_escape (t : jsstring) : unescapeQuotes (escapeQuotes t) = t.
Proof.
  induction t as [|c r IH]; [reflexivity|].
  unfold escapeQuotes. cbn [flat_map]. fold (escapeQuotes r).
  destruct (N.eqb_spec c DQUOTE) as [-> | NE]; cbn [app].
  - change (unescapeQuotes (BACKSLASH :: DQUOTE :: escapeQuotes r))
      with (unescapeQuotes (DQUOTE :: escapeQuotes r)).
    rewrite unescapeQuotes_cons by (left; reflexivity). now rewrite IH.
  - rewrite unescapeQuotes_cons; [now rewrite IH|].
    right. intros d r' H. exact (escapeQuotes_head r d r' H).
Qed.

Lemma linkReplacement_value (base : option jsstring) (content : jsstring) (n : node)
    (href : jsstring) :
  getAttribute "href" n = Some href ->
  linkReplacement E base content n
  = Ok (js "[" ++ trim (collapse_ws content) ++ js "]("
        ++ match base with
           | Some b =>
               if truthy b
               then match newURL E (remove_ws href) b with
                    | Ok u => u
                    | Throw _ => remove_ws href
                    end
               else remove_ws href
           | None => remove_ws href
           end
        ++ titlePart n ++ js ")").
Proof.
  intros A. unfold linkReplacement. rewrite A. cbv zeta. unfold fixedHref. cbv zeta.
  rewrite (trim_clean (remove_ws href) (remove_ws_clean href)). reflexivity.
Qed.

(** The output of the [improved-links] rule.  On a node that has an href the
    rule does not throw, also when the URL does not resolve: it writes
    [[text](url title)], where the text is the content whitespace-collapsed
    and trimmed, and the url is the href without any whitespace, or what that
    resolves to against a non-empty base URL when the resolution succeeds.  A
    node the filter accepts has an href. *)
Theorem linkReplacement_output :
  forall (base : option jsstring) (content : jsstring) (n : node),
    (linkFilter n = true -> exists href, getAttribute "href" n = Some href /\ href <> [])
    /\ forall href,
         getAttribute "href" n = Some href ->
         let text := trim (collapse_ws content) in
         let stripped := remove_ws href in
         let url :=
           match base with
           | Some b =>
               if truthy b
               then match newURL E stripped b with Ok u => u | Throw _ => stripped end
               else stripped
           | None => stripped
           end in
         linkReplacement E base content n
         = Ok (js "[" ++ text ++ js "](" ++ url ++ titlePart n ++ js ")")
         /\ single_spaced false text = true /\ trimmed text = true
         /\ forallb (fun c => negb (is_whitespace c)) stripped = true.
Proof.
  intros base content n. split.
  - unfold linkFilter. intros H. apply andb_true_iff in H. destruct H as [_ H].
    destruct (getAttribute "href" n) as [href|]; [|discriminate].
    exists href. split; [reflexivity|]. destruct href; [discriminate | discriminate].
  - intros href A text stripped url.
    split; [|split; [|split]].
    + exact (linkReplacement_value base content n href A).
    + apply trim_single_spaced. apply collapse_ws_single_spaced.
    + apply trim_trimmed.
    + apply remove_ws_clean.
Qed.

(** The title of the [improved-links] rule.  A missing or empty title adds
    nothing to the link; any other title is written after a space, between
    double quotes, with a backslash put before each of its double quotes: in
    what stands between the quotes every double quote follows a backslash, and
    taking those backslashes out gives the title back. *)
Theorem titlePart_escapes_quotes :
  forall n : node,
    match getAttribute "title" n with
    | Some (c :: t) =>
        titlePart n = [SP; DQUOTE] ++ escapeQuotes (c :: t) ++ [DQUOTE]
        /\ quotesEscaped false (escapeQuotes (c :: t)) = true
        /\ unescapeQuotes (escapeQuotes (c :: t)) = c :: t
    | _ => titlePart n = []
    end.
Proof.
  intros n. unfold titlePart.
  destruct (getAttribute "title" n) as [[|c t]|]; try reflexivity.
  cbn [truthy]. split; [reflexivity|].
  split; [apply quotesEscaped_escapeQuotes | apply unescape_escape].
Qed.

(** An href that does not resolve against the base URL.  The link extraction
    of both processors drops the anchor, while the [improved-links] rule
    still writes the link: with what the href without its whitespace resolves
    to, or, when that does not resolve either, with the href without its
    whitespace as it stands, which is the href itself when it has no
    whitespace. *)
Theorem unresolvable_href_is_dropped_from_links_but_rendered :
  forall (b href content : jsstring) (x : node) (e : Exn),
    getAttribute "href" x = Some href ->
    rejectedHref href = false ->
    truthy b = true ->
    newURL E href b = Throw e ->
    Enhanced.harvestLink E (Some b) x = None
    /\ Minimal.harvestLink E (Some b) x = None
    /\ linkReplacement E (Some b) content x
       = Ok (js "[" ++ trim (collapse_ws content) ++ js "]("
             ++ match newURL E (remove_ws href) b with
                | Ok u => u
                | Throw _ => remove_ws href
                end
             ++ titlePart x ++ js ")")
    /\ (forallb (fun c => negb (is_whitespace c)) href = true ->
        linkReplacement E (Some b) content x
        = Ok (js "[" ++ trim (collapse_ws content) ++ js "](" ++ href
              ++ titlePart x ++ js ")")).
Proof.
  intros b href content x e A R B U.
  assert (L : linkReplacement E (Some b) content x
              = Ok (js "[" ++ trim (collapse_ws content) ++ js "]("
                    ++ match newURL E (remove_ws href) b with
                       | Ok u => u
                       | Throw _ => remove_ws href
                       end
                    ++ titlePart x ++ js ")")).
  { rewrite (linkReplacement_value (Some b) content x href A). now rewrite B. }
  split; [|split; [|split]].
  - rewrite (enhanced_harvestLink_cases E (Some b) x href A), R.
    unfold linkUrl. now rewrite B, U.
  - unfold Minimal.harvestLink. rewrite A.
    unfold rejectedHref in R. apply orb_false_iff in R. destruct R as [R _].
    apply orb_false_iff in R. destruct R as [R _]. rewrite R.
    unfold linkUrl. now rewrite B, U.
  - exact L.
  - intros W.
    assert (S : remove_ws href = href).
    { unfold remove_ws. clear -W. induction href as [|c r IH]; [reflexivity|].
      cbn [forallb] in W. apply andb_true_iff in W. destruct W as [Wc Wr].
      cbn [filter]. rewrite Wc. f_equal. now apply IH. }
    rewrite L, S, U. reflexivity.
Qed.

End LinkRule.

Lemma linkReplacement_output_witness :
  Rules.linkReplacement helloEnv None (js " a  link ")
    (el "a" [("href"%string, "/x y"%string)] [])
  = Ok (js "[a link](/xy)").
Proof.
  exact (proj1 (proj2 (linkReplacement_output helloEnv None (js " a  link ")
                         (el "a" [("href"%string, "/x y"%string)] []))
                  (js "/x y") eq_refl)).
Defined.

Lemma unresolvable_href_witness :
  Enhanced.harvestLink helloEnv (Some (js "nowhere"))
    (el "a" [("href"%string, "/x y"%string)] [Text (js "Link")]) = None
  /\ Rules.linkReplacement helloEnv (Some (js "nowhere")) (js "Link")
       (el "a" [("href"%string, "/x y"%string)] [Text (js "Link")])
     = Ok (js "[Link](/xy)").
Proof.
  destruct (unresolvable_href_is_dropped_from_links_but_rendered helloEnv
              (js "nowhere") (js "/x y") (js "Link")
              (el "a" [("href"%string, "/x y"%string)] [Text (js "Link")]) TypeError
              eq_refl eq_refl eq_refl eq_refl) as (H1 & _ & H3 & _).
  split; [exact H1 | exact H3].
Defined.

(** ** The stages of the processors *)

(** *** Inlined frame content *)

Lemma jseqb_false (a b : jsstring) : a <> b -> jseqb a b = false.
Proof.
  intros NE. destruct (jseqb a b) eqn:J; [|reflexivity].
  apply jseqb_eq in J. contradiction.
Qed.

Lemma jseqb_sym (a b : jsstring) : jseqb a b = jseqb b a.
Proof.
  destruct (jseqb a b) eqn:J.
  - apply jseqb_eq in J. subst. symmetry. apply jseqb_refl.
  - symmetry. apply jseqb_false. intros ->. now rewrite jseqb_refl in J.
Qed.

Lemma set_attr_names (name u : jsstring) (a : list (jsstring * jsstring)) (v : jsstring) :
  lookup_attr name a = Some v -> map fst (set_attr name u a) = map fst a.
Proof.
  induction a as [|[k w] r IH]; [discriminate|].
  cbn [lookup_attr set_attr]. destruct (jseqb k name); [reflexivity|].
  intros H. cbn [map fst]. now rewrite IH.
Qed.

Lemma set_attr_other (name u other : jsstring) (a : list (jsstring * jsstring)) :
  jseqb other name = false ->
  lookup_attr other (set_attr name u a) = lookup_attr other a.
Proof.
  intros NE. induction a as [|[k w] r IH].
  - cbn [set_attr lookup_attr]. rewrite jseqb_sym. now rewrite NE.
  - cbn [set_attr lookup_attr]. destruct (jseqb k name) eqn:K.
    + apply jseqb_eq in K. subst k. cbn [lookup_attr].
      rewrite (jseqb_sym name other), NE. reflexivity.
    + cbn [lookup_attr]. destruct (jseqb k other); [reflexivity | exact IH].
Qed.

Lemma set_attr_same (name u : jsstring) (a : list (jsstring * jsstring)) :
  lookup_attr name (set_attr name u a) = Some u.
Proof.
  induction a as [|[k w] r IH].
  - cbn [set_attr lookup_attr]. now rewrite jseqb_refl.
  - cbn [set_attr lookup_attr]. destruct (jseqb k name) eqn:K.
    + cbn [lookup_attr]. now rewrite K.
    + cbn [lookup_attr]. now rewrite K.
Qed.

(** The rewriting of [src] and [href] inside inlined frame content.  It
    changes the value of the one attribute it is about and nothing else: the
    names of the attributes and their order stay, and so does every other
    attribute.  The value stays when it is empty, when it begins with [//],
    [http://] or [https://], or when it does not resolve against the frame's
    [src]; otherwise it becomes what it resolves to. *)
Theorem absolutize_rewrites_relative_values_only :
  forall (E : Env) (name : string) (src : jsstring) (a : list (jsstring * jsstring)),
    map fst (absolutize E name src a) = map fst a
    /\ (forall other, jseqb other (js name) = false ->
          lookup_attr other (absolutize E name src a) = lookup_attr other a)
    /\ match lookup_attr (js name) a with
       | None => absolutize E name src a = a
       | Some v =>
           if truthy v && negb (has_scheme_or_slashes v)
           then match newURL E v src with
                | Ok u => lookup_attr (js name) (absolutize E name src a) = Some u
                | Throw _ => absolutize E name src a = a
                end
           else absolutize E name src a = a
       end.
Proof.
  intros E name src a. unfold absolutize.
  destruct (lookup_attr (js name) a) as [v|] eqn:L; [|repeat split; reflexivity].
  destruct (truthy v && negb (has_scheme_or_slashes v)); [|repeat split; reflexivity].
  destruct (newURL E v src) as [u|e]; [|repeat split; reflexivity].
  split; [exact (set_attr_names (js name) u a v L)|].
  split; [intros other NE; now apply set_attr_other | apply set_attr_same].
Qed.

Lemma removeAll_length (sel : node -> bool) (d : list node) :
  List.length (removeAll sel d) <= List.length d.
Proof.
  unfold removeAll. induction d as [|c r IH]; [apply le_n|].
  cbn [flat_map]. rewrite length_app. destruct (sel c); cbn [List.length]; lia.
Qed.

Lemma frameChildren_free (E : Env) (fixUrls : bool) (src frameContent : jsstring) :
  forallb (free_of sel_script_style) (frameChildren E fixUrls src frameContent) = true.
Proof.
  unfold frameChildren. cbv zeta.
  assert (S : shallow sel_script_style) by (intros t a cs cs'; reflexivity).
  assert (F : forallb (free_of sel_script_style)
                (removeAll sel_script_style (parseFragment E frameContent)) = true)
    by (apply removeAll_free; exact S).
  destruct fixUrls; [|exact F].
  apply map_map_attrs_keeps_free; [exact S | reflexivity |].
  apply map_map_attrs_keeps_free; [exact S | reflexivity | exact F].
Qed.

Lemma forallb_map_every (P : jsstring -> list (jsstring * jsstring) -> list node -> bool)
    (f : node -> node) (cs : list node) :
  Forall (fun c => every_element P (f c) = true) cs ->
  forallb (every_element P) (map f cs) = true.
Proof.
  induction 1 as [|c r Hc _ IH]; [reflexivity|].
  cbn [map forallb]. now rewrite Hc, IH.
Qed.

Lemma free_of_children_clean (n : node) :
  free_of sel_script_style n = true -> every_element inlinedFrameIsClean n = true.
Proof.
  induction n as [t a cs IH | s | s] using node_ind_children; intros F;
    [|reflexivity|reflexivity].
  rewrite free_of_element in F. apply andb_true_iff in F. destruct F as [_ F].
  cbn [every_element]. apply andb_true_iff. split.
  - unfold inlinedFrameIsClean. rewrite F. now destruct (_ && _).
  - clear t a. induction cs as [|c r IHr]; [reflexivity|].
    inversion IH as [|? ? Hc Hr]; subst.
    cbn [forallb] in *. apply andb_true_iff in F. destruct F as [Fc Fr].
    now rewrite (Hc Fc), (IHr Hr Fr).
Qed.

Lemma forallb_free_clean (d : list node) :
  forallb (free_of sel_script_style) d = true ->
  forallb (every_element inlinedFrameIsClean) d = true.
Proof.
  induction d as [|x r IH]; [reflexivity|].
  cbn [forallb]. intros F. apply andb_true_iff in F. destruct F as [Fx Fr].
  now rewrite (free_of_children_clean x Fx), (IH Fr).
Qed.

(** After the frames are inlined, no [iframe] or [frame] element of the
    document that has a [src] attribute and carries a non-empty
    [data-frame-content] has a [script] or [style] element anywhere below it,
    whatever markup the frames carried and whether or not URLs are rewritten.
    (A frame without [src] is not selected, and one whose content is empty is
    passed over: they keep what is below them.) *)
Theorem inlined_frames_have_no_script :
  forall (E : Env) (haveBase : bool) (dom : document),
    forallb (every_element inlinedFrameIsClean) (map (inlineFrames E haveBase) dom) = true.
Proof.
  intros E haveBase dom. apply forallb_map_every.
  apply Forall_forall. intros n _.
  induction n as [t a cs IH | s | s] using node_ind_children;
    [|reflexivity|reflexivity].
  apply forallb_map_every in IH.
  cbn [inlineFrames].
  destruct (sel_frame (Element t a cs)) eqn:SF.
  - destruct (getAttribute "data-frame-content" (Element t a cs)) as [c|] eqn:G.
    + destruct (truthy c) eqn:T.
      * cbn [every_element]. apply andb_true_iff. split.
        -- unfold inlinedFrameIsClean. rewrite frameChildren_free.
           now destruct (_ && _).
        -- apply forallb_free_clean, frameChildren_free.
      * cbn [every_element]. rewrite IH, andb_true_r.
        unfold inlinedFrameIsClean.
        change (getAttribute "data-frame-content"
                  (Element t a (map (inlineFrames E haveBase) cs)))
          with (getAttribute "data-frame-content" (Element t a cs)).
        rewrite G. cbn [truthy_opt]. rewrite T. now rewrite andb_false_r.
    + cbn [every_element]. rewrite IH, andb_true_r.
      unfold inlinedFrameIsClean.
      change (getAttribute "data-frame-content"
                (Element t a (map (inlineFrames E haveBase) cs)))
        with (getAttribute "data-frame-content" (Element t a cs)).
      rewrite G. now rewrite andb_false_r.
  - cbn [every_element]. rewrite IH, andb_true_r.
    unfold inlinedFrameIsClean.
    change (sel_frame (Element t a (map (inlineFrames E haveBase) cs)))
      with (sel_frame (Element t a cs)).
    now rewrite SF.
Qed.

(** *** What the clean-up leaves on the elements *)

Section Every.

Variable P : jsstring -> list (jsstring * jsstring) -> list node -> bool.

(** [P] looks at the children only to tell whether there are any. *)
Hypothesis P_children :
  forall t a cs cs', (cs = [] -> cs' = []) -> P t a cs = true -> P t a cs' = true.

Lemma prune_keeps_every (sel : node -> bool) (n : node) :
  every_element P n = true -> every_element P (prune sel n) = true.
Proof.
  induction n as [t a cs IH | s | s] using node_ind_children; intros F;
    [|exact F|exact F].
  cbn [prune every_element] in *. apply andb_true_iff in F. destruct F as [Pn F].
  apply andb_true_iff. split.
  - apply (P_children t a cs); [now intros ->|exact Pn].
  - clear Pn. induction cs as [|c r IHr]; [reflexivity|].
    inversion IH as [|? ? Hc Hr]; subst.
    cbn [forallb] in F. apply andb_true_iff in F. destruct F as [Fc Fr].
    cbn [flat_map]. rewrite forallb_app, (IHr Hr Fr), andb_true_r.
    destruct (sel c); [reflexivity|]. cbn [forallb]. now rewrite (Hc Fc).
Qed.

Lemma removeAll_keeps_every (sel : node -> bool) (d : list node) :
  forallb (every_element P) d = true ->
  forallb (every_element P) (removeAll sel d) = true.
Proof.
  unfold removeAll. induction d as [|c r IH]; [reflexivity|].
  cbn [forallb flat_map]. intros F. apply andb_true_iff in F. destruct F as [Fc Fr].
  rewrite forallb_app, (IH Fr), andb_true_r.
  destruct (sel c); [reflexivity|]. cbn [forallb].
  now rewrite (prune_keeps_every sel c Fc).
Qed.

Lemma without_at_keeps_every (gone : list path) (n : node) :
  forall here, every_element P n = true ->
               every_element P (without_at gone here n) = true.
Proof.
  induction n as [t a cs IH | s | s] using node_ind_children; intros here F;
    [|exact F|exact F].
  cbn [without_at every_element] in *. apply andb_true_iff in F. destruct F as [Pn F].
  apply andb_true_iff. split.
  - apply (P_children t a cs); [now intros ->|exact Pn].
  - clear Pn. generalize 0 as i.
    induction cs as [|c r IHr]; intros i; [reflexivity|].
    inversion IH as [|? ? Hc Hr]; subst.
    cbn [forallb] in F. apply andb_true_iff in F. destruct F as [Fc Fr].
    destruct (includes_path (here ++ [i]) gone); [now apply IHr|].
    cbn [forallb]. now rewrite (Hc _ Fc), (IHr Hr Fr).
Qed.

Lemma removePaths_keeps_every (gone : list path) (d : document) :
  forallb (every_element P) d = true ->
  forallb (every_element P) (removePaths gone d) = true.
Proof.
  unfold removePaths. generalize 0 as i.
  induction d as [|c r IH]; intros i F; [reflexivity|].
  cbn [forallb] in F. apply andb_true_iff in F. destruct F as [Fc Fr].
  cbn [without_from].
  destruct (includes_path [i] gone); [now apply IH|].
  cbn [forallb]. now rewrite (without_at_keeps_every gone c [i] Fc), (IH _ Fr).
Qed.

Lemma on_root_keeps_every (sel : node -> bool) (d : document) :
  forallb (every_element P) d = true ->
  forallb (every_element P) (on_root (prune sel) d) = true.
Proof.
  induction d as [|c r IH]; [reflexivity|].
  cbn [forallb on_root]. intros F. apply andb_true_iff in F. destruct F as [Fc Fr].
  destruct (is_element c); cbn [forallb].
  - now rewrite (prune_keeps_every sel c Fc), Fr.
  - now rewrite Fc, (IH Fr).
Qed.

Lemma foldM_removeBy_keeps_every (E : Env) (ss : list jsstring) (d d' : document) :
  foldM (Enhanced.removeBy E) ss d = Ok d' ->
  forallb (every_element P) d = true -> forallb (every_element P) d' = true.
Proof.
  revert d. induction ss as [|s r IH]; intros d H F; cbn [foldM] in H.
  - now injection H as <-.
  - unfold bind at 1 in H.
    destruct (Enhanced.removeBy E d s) as [d1|e] eqn:R; [|discriminate].
    apply (IH d1 H).
    unfold Enhanced.removeBy, bind in R.
    destruct (Enhanced.querySelectorAllBy E s d) as [found|e]; [|discriminate].
    injection R as <-. now apply removePaths_keeps_every.
Qed.

Lemma applyRemoveSelector_keeps_every (E : Env) (o : option Selectors) (d d' : document) :
  Enhanced.applyRemoveSelector E o d = Ok d' ->
  forallb (every_element P) d = true -> forallb (every_element P) d' = true.
Proof.
  destruct o as [[s|ss]|]; cbn [Enhanced.applyRemoveSelector]; intros H F.
  - destruct (truthy s); [|now injection H as <-].
    apply (foldM_removeBy_keeps_every E [s] d d'); [|exact F].
    cbn [foldM]. unfold bind at 1. now destruct (Enhanced.removeBy E d s).
  - now apply (foldM_removeBy_keeps_every E ss d d').
  - now injection H as <-.
Qed.

(** Rewriting the attributes keeps [P] when it keeps it on each element. *)
Lemma map_attrs_keeps_every
    (f : list (jsstring * jsstring) -> list (jsstring * jsstring)) (d : list node) :
  (forall t a cs cs', (cs = [] -> cs' = []) -> P t a cs = true -> P t (f a) cs' = true) ->
  forallb (every_element P) d = true ->
  forallb (every_element P) (map (map_attrs f) d) = true.
Proof.
  intros Hf F.
  assert (N : forall n, every_element P n = true -> every_element P (map_attrs f n) = true).
  { clear d F.
    induction n as [t a cs IH | s | s] using node_ind_children; intros F;
      [|exact F|exact F].
    cbn [map_attrs every_element] in *. apply andb_true_iff in F. destruct F as [Pn F].
    apply andb_true_iff. split.
    - apply (Hf t a cs); [now intros ->|exact Pn].
    - clear Pn. induction cs as [|c r IHr]; [reflexivity|].
      inversion IH as [|? ? Hc Hr]; subst.
      cbn [forallb] in F. apply andb_true_iff in F. destruct F as [Fc Fr].
      cbn [map forallb]. now rewrite (Hc Fc), (IHr Hr Fr). }
  induction d as [|c r IH]; [reflexivity|].
  cbn [forallb map] in *. apply andb_true_iff in F. destruct F as [Fc Fr].
  now rewrite (N c Fc), (IH Fr).
Qed.

End Every.

(** Rewriting the attributes of every element establishes what the rewriting
    establishes on one element. *)
Lemma map_attrs_every (Q : list (jsstring * jsstring) -> bool)
    (f : list (jsstring * jsstring) -> list (jsstring * jsstring)) (d : list node) :
  (forall a, Q (f a) = true) ->
  forallb (every_element (fun _ a _ => Q a)) (map (map_attrs f) d) = true.
Proof.
  intros Hf. apply forallb_map_every. apply Forall_forall. intros n _.
  induction n as [t a cs IH | s | s] using node_ind_children;
    [|reflexivity|reflexivity].
  apply forallb_map_every in IH.
  cbn [map_attrs every_element]. now rewrite Hf, IH.
Qed.

Lemma emptySvg_every (d : list node) :
  forallb (every_element svgIsEmpty) (map emptySvg d) = true.
Proof.
  apply forallb_map_every. apply Forall_forall. intros n _.
  induction n as [t a cs IH | s | s] using node_ind_children;
    [|reflexivity|reflexivity].
  apply forallb_map_every in IH.
  cbn [emptySvg has_tag].
  destruct (jseqb t (js "svg")) eqn:T.
  - cbn [every_element forallb]. unfold svgIsEmpty. now rewrite T.
  - cbn [every_element]. rewrite IH, andb_true_r. unfold svgIsEmpty. now rewrite T.
Qed.

Lemma svgIsEmpty_children (t : jsstring) (a a' : list (jsstring * jsstring))
    (cs cs' : list node) :
  (cs = [] -> cs' = []) -> svgIsEmpty t a cs = true -> svgIsEmpty t a' cs' = true.
Proof.
  unfold svgIsEmpty. intros H. destruct (jseqb t (js "svg")); [|reflexivity].
  destruct cs; [|discriminate]. now rewrite (H eq_refl).
Qed.

Lemma dropStyle_hides (a : list (jsstring * jsstring)) :
  match lookup_attr (js "style") (Enhanced.dropStyle a) with
  | Some v => startsWith (js "display: none") (toLowerCase v)
  | None => true
  end = true.
Proof.
  unfold Enhanced.dropStyle.
  destruct (lookup_attr (js "style") a) as [v|] eqn:L; [|now rewrite L].
  assert (O : or_else v [] = v) by now destruct v.
  rewrite O.
  destruct (startsWith (js "display: none") (toLowerCase v)) eqn:S.
  - now rewrite L, S.
  - unfold remove_attr. clear L S O.
    induction a as [|[k w] r IH]; [reflexivity|].
    cbn [filter fst]. destruct (jseqb k (js "style")) eqn:K; cbn [negb]; [exact IH|].
    cbn [lookup_attr]. now rewrite K.
Qed.

Lemma dropStyle_keeps_names (Q : jsstring * jsstring -> bool)
    (a : list (jsstring * jsstring)) :
  forallb Q a = true -> forallb Q (Enhanced.dropStyle a) = true.
Proof.
  intros F. unfold Enhanced.dropStyle.
  destruct (lookup_attr (js "style") a) as [v|]; [|exact F].
  destruct (startsWith _ _); [exact F|].
  unfold remove_attr. induction a as [|kv r IH]; [reflexivity|].
  cbn [forallb] in F. apply andb_true_iff in F. destruct F as [Fk Fr].
  cbn [filter]. destruct (negb _); [|now apply IH].
  cbn [forallb]. now rewrite Fk, (IH Fr).
Qed.

Lemma dropDataAria_clean (a : list (jsstring * jsstring)) :
  noDataAria [] (Enhanced.dropDataAria a) [] = true.
Proof.
  unfold noDataAria, Enhanced.dropDataAria.
  induction a as [|kv r IH]; [reflexivity|].
  cbn [filter]. destruct (negb _) eqn:K; [|exact IH].
  cbn [forallb]. now rewrite K, IH.
Qed.

(** The document the enhanced processor goes on with after its clean-up: no
    element of it has an attribute named [data-*] or [aria-*], and an element
    has a [style] attribute only if its value starts, in lower case, with
    ['display: none']; every [svg] element is without children.  This holds
    for every document and all options, whenever the clean-up returns. *)
Theorem sanitize_cleans_the_elements :
  forall (E : Env) (options : ProcessingOptions) (dom dom' : document),
    Enhanced.sanitize E options dom = Ok dom' ->
    forallb (every_element noDataAria) dom' = true
    /\ forallb (every_element styleOnlyHides) dom' = true
    /\ forallb (every_element svgIsEmpty) dom' = true.
Proof.
  intros E options dom dom' H.
  unfold Enhanced.sanitize in H. cbv zeta in H. unfold bind in H.
  destruct (Enhanced.applyRemoveSelector E (removeSelector options)
              (removeAll sel_noise (map emptySvg dom))) as [d1|e] eqn:R; [|discriminate].
  destruct (if not_false (removeComments options) then Enhanced.dropComments d1 else Ok d1)
    as [dc|e] eqn:C; [|discriminate].
  injection H as <-.
  set (d2 := removeAll (has_tag "img") dc).
  split; [|split].
  - apply (map_attrs_keeps_every noDataAria).
    + intros t a cs cs' _. unfold noDataAria. apply dropStyle_keeps_names.
    + apply (map_attrs_every (fun a => noDataAria [] a [])). apply dropDataAria_clean.
  - apply (map_attrs_every (fun a => styleOnlyHides [] a [])). apply dropStyle_hides.
  - assert (S1 : forallb (every_element svgIsEmpty) d1 = true).
    { apply (applyRemoveSelector_keeps_every svgIsEmpty
               (fun t a => svgIsEmpty_children t a a) E _ _ _ R).
      apply removeAll_keeps_every; [exact (fun t a => svgIsEmpty_children t a a)|].
      apply emptySvg_every. }
    assert (S2 : forallb (every_element svgIsEmpty) d2 = true).
    { unfold d2. apply removeAll_keeps_every; [exact (fun t a => svgIsEmpty_children t a a)|].
      destruct (not_false (removeComments options)); [|now injection C as <-].
      unfold Enhanced.dropComments in C.
      destruct (documentElement d1); [|discriminate]. injection C as <-.
      apply on_root_keeps_every; [exact (fun t a => svgIsEmpty_children t a a)|exact S1]. }
    apply map_attrs_keeps_every; [intros t a cs cs'; apply svgIsEmpty_children|].
    apply map_attrs_keeps_every; [intros t a cs cs'; apply svgIsEmpty_children|exact S2].
Qed.

(** The minimal processor's clean-up leaves every [svg] element without
    children as well, in every document. *)
Theorem minimal_sanitize_empties_svg :
  forall (dom : document),
    forallb (every_element svgIsEmpty) (Minimal.sanitize dom) = true.
Proof.
  intros dom. unfold Minimal.sanitize. cbv zeta.
  apply removeAll_keeps_every; [exact (fun t a => svgIsEmpty_children t a a)|].
  apply removeAll_keeps_every; [exact (fun t a => svgIsEmpty_children t a a)|].
  apply emptySvg_every.
Qed.

Lemma sanitize_cleans_the_elements_witness :
  Enhanced.sanitize helloEnv (plainOptions None) dressedPage = Ok dressedClean
  /\ forallb (every_element noDataAria) dressedClean = true
  /\ forallb (every_element styleOnlyHides) dressedClean = true
  /\ forallb (every_element svgIsEmpty) dressedClean = true.
Proof.
  split; [reflexivity|].
  apply (sanitize_cleans_the_elements helloEnv (plainOptions None) dressedPage).
  reflexivity.
Defined.

(** *** The elements a target selector names *)

Lemma pushNew_all (found allNodes : list path) :
  NoDup allNodes ->
  NoDup (fold_left Enhanced.pushNew found allNodes)
  /\ forall p, In p (fold_left Enhanced.pushNew found allNodes) <-> In p allNodes \/ In p found.
Proof.
  revert allNodes. induction found as [|x r IH]; intros allNodes N; cbn [fold_left].
  - split; [exact N|]. intros p. cbn [In]. tauto.
  - unfold Enhanced.pushNew at 2 4.
    destruct (includes_path x allNodes) eqn:I.
    + destruct (IH allNodes N) as [N' M]. split; [exact N'|].
      intros p. rewrite M. cbn [In]. apply includes_path_In in I.
      split; [tauto|]. intros [H | [<- | H]]; tauto.
    + assert (NI : ~ In x allNodes).
      { intros H. apply includes_path_In in H. congruence. }
      assert (N1 : NoDup (allNodes ++ [x])).
      { apply NoDup_app; [exact N | repeat constructor; intros [] |].
        intros a Ha [<- | []]. contradiction. }
      destruct (IH _ N1) as [N' M]. split; [exact N'|].
      intros p. rewrite M, in_app_iff. cbn [In]. tauto.
Qed.

Lemma querySelectorAllBy_In (E : Env) (s : jsstring) (dom : document) (found : list path) :
  Enhanced.querySelectorAllBy E s dom = Ok found ->
  forall p, In p found <-> matchedBy E dom p s.
Proof.
  unfold Enhanced.querySelectorAllBy, bind, matchedBy.
  destruct (compileSelector E s) as [matches|e]; [|discriminate].
  intros H p. injection H as <-. rewrite filter_In. split.
  - intros [H1 H2]. now exists matches.
  - intros (m & Hm & H1 & H2). injection Hm as <-. now split.
Qed.

Lemma collect_many (E : Env) (dom : document) (ss : list jsstring) :
  forall (allNodes all : list path),
    foldM (fun allNodes selector =>
             do found <- Enhanced.querySelectorAllBy E selector dom;
             Ok (fold_left Enhanced.pushNew found allNodes)) ss allNodes = Ok all ->
    NoDup allNodes ->
    NoDup all
    /\ forall p, In p all <-> In p allNodes \/ exists s, In s ss /\ matchedBy E dom p s.
Proof.
  induction ss as [|s r IH]; intros allNodes all H N; cbn [foldM] in H.
  - injection H as <-. split; [exact N|]. intros p. split; [tauto|].
    intros [H | (s & [] & _)]. exact H.
  - unfold bind at 1 2 in H.
    destruct (Enhanced.querySelectorAllBy E s dom) as [found|e] eqn:Q; [|discriminate].
    destruct (pushNew_all found allNodes N) as [N1 M1].
    destruct (IH _ _ H N1) as [N2 M2]. split; [exact N2|].
    intros p. rewrite M2, M1, (querySelectorAllBy_In E s dom found Q). cbn [In]. split.
    + intros [[H1 | H1] | (s' & Hs & Hm)]; [now left | right; exists s; auto |].
      right. exists s'. auto.
    + intros [H1 | (s' & [<- | Hs] & Hm)]; [tauto | tauto |].
      right. exists s'. auto.
Qed.

(** The elements the processor goes on with under a target selector (lines
    231-250): exactly the elements of the document that one of the selectors
    matches, each of them once, however many of the selectors match it. *)
Theorem targets_are_the_matched_elements_once :
  forall (E : Env) (sels : Selectors) (dom : document) (allNodes : list path),
    Enhanced.collectTargets E sels dom = Ok allNodes ->
    NoDup allNodes
    /\ forall p, In p allNodes <-> exists s, In s (selectorList sels) /\ matchedBy E dom p s.
Proof.
  intros E sels dom allNodes H.
  assert (M : foldM (fun allNodes selector =>
                       do found <- Enhanced.querySelectorAllBy E selector dom;
                       Ok (fold_left Enhanced.pushNew found allNodes))
                    (selectorList sels) [] = Ok allNodes).
  { destruct sels as [s|ss]; cbn [Enhanced.collectTargets selectorList foldM] in *;
      [|exact H].
    unfold bind in *. now destruct (Enhanced.querySelectorAllBy E s dom). }
  destruct (collect_many E dom _ _ _ M (NoDup_nil _)) as [N I].
  split; [exact N|]. intros p. rewrite I. cbn [In]. tauto.
Qed.

Lemma targets_witness :
  Enhanced.collectTargets helloEnv (ManySelectors [js "p"; js "body"; js "p"]) helloPage
  = Ok [[0; 1; 0]; [0; 1]]
  /\ NoDup [[0; 1; 0]; [0; 1]].
Proof.
  split; [reflexivity|].
  exact (proj1 (targets_are_the_matched_elements_once helloEnv
                  (ManySelectors [js "p"; js "body"; js "p"]) helloPage
                  [[0; 1; 0]; [0; 1]] eq_refl)).
Defined.

(** *** Readability and a target that matched *)

(** When the target selectors match an element of the sanitized document, the
    enhanced processor does not consult Readability: it does the same with
    any other Readability.  What it does is what the rendering of the markup
    of the selected elements does: when that returns, the processor returns,
    the title is the title of the document, and the content is the
    whitespace normalizer applied to the rendering. *)
Theorem matched_target_bypasses_readability :
  forall (E : Env) (parse : document -> Result (option Article))
         (html : jsstring) (o : ProcessingOptions) (base0 : option jsstring)
         (sels : Selectors) (opened : jsstring * jsstring * document)
         (dom : document) (p : path) (ps : list path),
    targetSelector o = Some sels ->
    truthy_selectors (Some sels) = true ->
    Enhanced.openDocument E o html = Ok opened ->
    Enhanced.sanitize E o (snd opened) = Ok dom ->
    Enhanced.collectTargets E sels dom = Ok (p :: ps) ->
    Enhanced.processHtml (withReadability E parse) html (Some (AsOptions o)) base0
    = Enhanced.processHtml E html (Some (AsOptions o)) base0
    /\ match (do kids <- Enhanced.selectedBody E dom (p :: ps);
              Enhanced.render E (match format o with Some f => f | None => markdown end)
                (baseUrl o) (innerHTML E kids)) with
       | Ok rendered =>
           exists r titled,
             Enhanced.processHtml E html (Some (AsOptions o)) base0 = Ok r
             /\ readTitle E (loadDocument E html) = Ok titled
             /\ title r = fst titled
             /\ content r = cleanRedundantEmptyLines rendered
       | Throw e => Enhanced.processHtml E html (Some (AsOptions o)) base0 = Throw e
       end.
Proof.
  intros E parse html o base0 sels opened dom p ps T Tr O S C.
  assert (W : Enhanced.workingMarkup E o dom
              = do kids <- Enhanced.selectedBody E dom (p :: ps);
                Ok (innerHTML E kids, None)).
  { unfold Enhanced.workingMarkup. rewrite T.
    cbn [Enhanced.selectTarget]. rewrite Tr, C. cbn [bind].
    now destruct (Enhanced.selectedBody E dom (p :: ps)). }
  split.
  - unfold Enhanced.processHtml. cbv zeta. cbn [Enhanced.effectiveOptions].
    change (Enhanced.openDocument (withReadability E parse) o html)
      with (Enhanced.openDocument E o html).
    rewrite O. cbn [bind].
    change (Enhanced.sanitize (withReadability E parse) o (snd opened))
      with (Enhanced.sanitize E o (snd opened)).
    rewrite S. cbn [bind].
    assert (W' : Enhanced.workingMarkup (withReadability E parse) o dom
                 = Enhanced.workingMarkup E o dom).
    { rewrite W. unfold Enhanced.workingMarkup. rewrite T.
      change (Enhanced.selectTarget (withReadability E parse) (Some sels) dom)
        with (Enhanced.selectTarget E (Some sels) dom).
      cbn [Enhanced.selectTarget]. rewrite Tr, C. cbn [bind].
      now destruct (Enhanced.selectedBody E dom (p :: ps)). }
    rewrite W'. reflexivity.
  - unfold Enhanced.processHtml. cbv zeta. cbn [Enhanced.effectiveOptions].
    rewrite O. cbn [bind]. rewrite S. cbn [bind]. rewrite W.
    destruct (Enhanced.selectedBody E dom (p :: ps)) as [kids|e]; cbn [bind fst snd];
      [|reflexivity].
    destruct (Enhanced.render E _ (baseUrl o) (innerHTML E kids)) as [rendered|e];
      cbn [bind]; [|reflexivity].
    unfold Enhanced.openDocument, bind in O.
    destruct (readTitle E (loadDocument E html)) as [titled|e] eqn:RT; [|discriminate].
    destruct (readDescription (snd titled)) as [described|e]; [|discriminate].
    injection O as <-.
    eexists. exists titled. repeat split; reflexivity.
Qed.

Lemma matched_target_witness :
  Enhanced.processHtml (withReadability helloEnv (fun _ => Throw OtherError))
    (wholePage helloMarkup) (Some (AsOptions (targetOptions ["p"%string]))) None
  = Enhanced.processHtml helloEnv (wholePage helloMarkup)
      (Some (AsOptions (targetOptions ["p"%string]))) None
  /\ exists r titled,
       Enhanced.processHtml helloEnv (wholePage helloMarkup)
         (Some (AsOptions (targetOptions ["p"%string]))) None = Ok r
       /\ readTitle helloEnv (loadDocument helloEnv (wholePage helloMarkup)) = Ok titled
       /\ title r = fst titled
       /\ content r = js "Hello".
Proof.
  exact (matched_target_bypasses_readability helloEnv (fun _ => Throw OtherError)
           (wholePage helloMarkup) (targetOptions ["p"%string]) None
           (ManySelectors [js "p"]) ([], [], helloPage) helloClean [0; 1; 0] []
           eq_refl eq_refl eq_refl eq_refl eq_refl).
Defined.

(* ================================================================== *)
(** ** More on the whitespace normalizer *)

Lemma filter_significant_keep (prev : bool) (ls : list jsstring) :
  filter significant (keep prev ls) = filter significant ls.
Proof.
  revert prev. induction ls as [|l r IH]; intros prev; [reflexivity|].
  cbn [keep filter]. destruct (significant l) eqn:S; cbn [orb].
  - cbn [filter]. now rewrite S, IH.
  - destruct prev; [cbn [filter]; rewrite S|]; apply IH.
Qed.

(** The normalizer drops blank lines only: the significant lines of its
    input are all kept, in their order, and no line is added. *)
Theorem cleanRedundantEmptyLines_drops_blank_lines_only :
  forall text : jsstring,
    filter significant (keptLines text) = filter significant (split_lines text)
    /\ (List.length (keptLines text) <= List.length (split_lines text))%nat.
Proof.
  intros text. rewrite keptLines_keep. split.
  - apply filter_significant_keep.
  - apply keep_length.
Qed.

Lemma keep_measure (prev : bool) (ls : list jsstring) :
  (total_length (keep prev ls) + List.length (keep prev ls)
   <= total_length ls + List.length ls)%nat.
Proof.
  revert prev. induction ls as [|l r IH]; intros prev; [apply le_n|].
  cbn [keep]. specialize (IH (significant l)).
  destruct (significant l || prev); cbn [List.length total_length]; lia.
Qed.

Lemma split_lines_measure (s : jsstring) :
  (total_length (split_lines s) + List.length (split_lines s) <= S (List.length s))%nat.
Proof.
  induction s as [| a | a b r IH1 IH2] using list_ind_two.
  - cbn. lia.
  - cbn. destruct (a =? LF)%N; [cbn; lia|]. destruct (a =? CR)%N; cbn; lia.
  - rewrite split_lines_step.
    destruct (a =? LF)%N.
    + cbn [total_length List.length] in *. unfold jsstring in *. lia.
    + assert (G : (total_length (match split_lines (b :: r) with
                                 | l :: ls => (a :: l) :: ls
                                 | [] => [[a]]
                                 end)
                   + List.length (match split_lines (b :: r) with
                                  | l :: ls => (a :: l) :: ls
                                  | [] => [[a]]
                                  end)
                   <= S (List.length (a :: b :: r)))%nat).
      { destruct (split_lines (b :: r)) as [|l ls];
          cbn [total_length List.length] in *; unfold jsstring in *; lia. }
      destruct (a =? CR)%N; [|exact G].
      destruct (b =? LF)%N; [|exact G].
      cbn [total_length List.length] in *. unfold jsstring in *. lia.
Qed.

(** The normalizer's output is never longer than its input. *)
Theorem cleanRedundantEmptyLines_is_not_longer :
  forall text : jsstring,
    (List.length (cleanRedundantEmptyLines text) <= List.length text)%nat.
Proof.
  intros text. unfold cleanRedundantEmptyLines.
  rewrite join_length, keptLines_keep.
  pose proof (keep_measure false (split_lines text)).
  pose proof (split_lines_measure text).
  destruct (keep false (split_lines text)) as [|l ls];
    cbn [total_length List.length] in *; unfold jsstring in *; lia.
Qed.

Lemma keep_fixed (prev : bool) (ls : list jsstring) :
  match ls with l :: _ => significant l || prev = true | [] => True end ->
  has_blank_run ls = false -> keep prev ls = ls.
Proof.
  revert prev. induction ls as [|l r IH]; intros prev H B; [reflexivity|].
  cbn [keep]. rewrite H. f_equal. apply IH.
  - destruct r as [|l' r']; [exact I|].
    rewrite has_blank_run_step in B. apply orb_false_iff in B. destruct B as [B _].
    destruct (significant l), (significant l'); try reflexivity. discriminate B.
  - destruct r as [|l' r']; [reflexivity|].
    rewrite has_blank_run_step in B. apply orb_false_iff in B. apply B.
Qed.

Lemma join_split_lines (s : jsstring) :
  forallb (fun c => negb (c =? CR)%N) s = true -> join [LF] (split_lines s) = s.
Proof.
  induction s as [|c r IH]; [reflexivity|].
  cbn [forallb]. intros H. apply andb_true_iff in H. destruct H as [Hc Hr].
  apply negb_true_iff in Hc. specialize (IH Hr).
  rewrite split_lines_step, Hc.
  destruct (split_lines r) as [|l ls] eqn:S; [now destruct (split_lines_not_nil _ S)|].
  destruct (c =? LF)%N eqn:L.
  - apply N.eqb_eq in L. subst c.
    change (join [LF] ([] :: l :: ls)) with (LF :: join [LF] (l :: ls)).
    now rewrite IH.
  - destruct ls as [|l' ls'].
    + cbn [join] in *. now rewrite IH.
    + change (join [LF] ((c :: l) :: l' :: ls'))
        with (c :: join [LF] (l :: l' :: ls')).
      now rewrite IH.
Qed.

(** A text without carriage returns that does not start with a blank line and
    has no two blank lines in a row comes back from the normalizer as it is. *)
Theorem cleanRedundantEmptyLines_fixes_normal_text :
  forall text : jsstring,
    forallb (fun c => negb (c =? CR)%N) text = true ->
    has_blank_run ([] :: split_lines text) = false ->
    cleanRedundantEmptyLines text = text.
Proof.
  intros text C B. unfold cleanRedundantEmptyLines. rewrite keptLines_keep.
  destruct (split_lines text) as [|l ls] eqn:S; [now destruct (split_lines_not_nil _ S)|].
  rewrite has_blank_run_step in B. apply orb_false_iff in B. destruct B as [B1 B2].
  rewrite keep_fixed.
  - rewrite <- S. now apply join_split_lines.
  - rewrite orb_false_r. change (significant []) with false in B1.
    now destruct (significant l).
  - exact B2.
Qed.

Lemma cleanRedundantEmptyLines_fixes_witness :
  cleanRedundantEmptyLines (js "a" ++ [LF; LF] ++ js "b") = js "a" ++ [LF; LF] ++ js "b".
Proof.
  apply (cleanRedundantEmptyLines_fixes_normal_text (js "a" ++ [LF; LF] ++ js "b"));
    reflexivity.
Defined.

(* ================================================================== *)
(** ** The link lists of the two processors *)

Lemma subsequence_tail_skip (A : Type) (eqb : A -> A -> bool) (l' : list A) :
  (forall a l, subsequence eqb (a :: l) l' = true -> subsequence eqb l l' = true)
  /\ (forall y l, subsequence eqb l l' = true -> subsequence eqb l (y :: l') = true).
Proof.
  induction l' as [|z l'' [IHt IHs]].
  - split.
    + intros a l H. discriminate H.
    + intros y [|a l] H; [reflexivity | discriminate H].
  - assert (T : forall a l, subsequence eqb (a :: l) (z :: l'') = true ->
                            subsequence eqb l (z :: l'') = true).
    { intros a l H. cbn [subsequence] in H. apply IHs.
      destruct (eqb a z); [exact H | exact (IHt a l H)]. }
    split; [exact T|].
    intros y [|a l] H; [reflexivity|].
    change (subsequence eqb (a :: l) (y :: z :: l''))
      with (if eqb a y then subsequence eqb l (z :: l'')
            else subsequence eqb (a :: l) (z :: l'')).
    destruct (eqb a y); [exact (T a l H) | exact H].
Qed.

Lemma linkEqb_refl (e : jsstring * jsstring) : linkEqb e e = true.
Proof. unfold linkEqb. now destruct (link_eq_dec e e). Qed.

Lemma enhanced_harvestLink_minimal (E : Env) (base : option jsstring) (x : node) :
  Enhanced.harvestLink E base x
  = if schemeRejected x then None else Minimal.harvestLink E base x.
Proof.
  unfold Enhanced.harvestLink, Minimal.harvestLink, schemeRejected. cbv zeta.
  destruct (getAttribute "href" x) as [href|]; [|reflexivity].
  destruct (negb (truthy href)); [now destruct (_ || _)|].
  now destruct (startsWith (js "javascript:") href || startsWith (js "file:") href).
Qed.

Lemma harvest_filtered (E : Env) (base : option jsstring) (xs : list node) :
  filterBoolean (map (Enhanced.harvestLink E base) xs)
  = filterBoolean (map (Minimal.harvestLink E base)
                     (filter (fun x => negb (schemeRejected x)) xs))
  /\ subsequence linkEqb
       (filterBoolean (map (Enhanced.harvestLink E base) xs))
       (filterBoolean (map (Minimal.harvestLink E base) xs)) = true.
Proof.
  induction xs as [|x r [IH1 IH2]]; [split; reflexivity|].
  cbn [map filter filterBoolean]. rewrite (enhanced_harvestLink_minimal E base x).
  destruct (schemeRejected x); cbn [negb].
  - split; [exact IH1|].
    destruct (Minimal.harvestLink E base x) as [e|]; [|exact IH2].
    now apply subsequence_tail_skip.
  - cbn [map filterBoolean].
    destruct (Minimal.harvestLink E base x) as [e|]; [|split; assumption].
    split; [now rewrite IH1|].
    cbn [subsequence]. now rewrite linkEqb_refl.
Qed.

(** Called with a format and no base URL, the two processors read their
    links from the same document.  Whenever both return, the links of the
    enhanced processor are the links the minimal processor's callback gives
    for the anchors whose href does not begin with [javascript:] or [file:]:
    they are among the minimal processor's links, in the same order. *)
Theorem enhanced_links_are_among_the_minimal_links :
  forall (E : Env) (html : jsstring) (f : FormatOption) (r r' : ProcessedHTML),
    Enhanced.processHtml E html (Some (AsFormat f)) None = Ok r ->
    Minimal.processHtml E html (Some f) None = Ok r' ->
    exists opened,
      Minimal.openDocument E html = Ok opened
      /\ links r
         = filterBoolean
             (map (Minimal.harvestLink E None)
                (filter (fun x => negb (schemeRejected x))
                   (querySelectorAll sel_anchor (snd opened))))
      /\ subsequence linkEqb (links r) (links r') = true.
Proof.
  intros E html f r r' R R'.
  apply processHtml_result in R.
  destruct R as (opened & dom & main & p & O & _ & _ & _ & _ & _ & _ & L & _).
  apply minimal_processHtml_result in R'.
  destruct R' as (opened' & main' & p' & O' & _ & _ & _ & _ & _ & L').
  change (Enhanced.openDocument E (Enhanced.effectiveOptions (Some (AsFormat f)) None) html)
    with (Minimal.openDocument E html) in O.
  rewrite O in O'. injection O' as <-.
  exists opened. split; [exact O|].
  cbn [Enhanced.effectiveOptions baseUrl] in L.
  rewrite L, L'. unfold Enhanced.harvestLinks, Minimal.harvestLinks.
  apply harvest_filtered.
Qed.

(** On the anchor with the [javascript:] href both return: no link here, one
    link there. *)
Lemma enhanced_links_among_witness :
  exists r r',
    Enhanced.processHtml scriptLinkEnv scriptLinkMarkup (Some (AsFormat markdown)) None = Ok r
    /\ Minimal.processHtml scriptLinkEnv scriptLinkMarkup (Some markdown) None = Ok r'
    /\ links r = []
    /\ links r' = [(js "x", js "javascript:alert(1)")]
    /\ subsequence linkEqb (links r) (links r') = true.
Proof.
  eexists. eexists. split; [reflexivity|]. split; [reflexivity|].
  split; [reflexivity|]. split; [reflexivity|].
  destruct (enhanced_links_are_among_the_minimal_links scriptLinkEnv scriptLinkMarkup
              markdown _ _ eq_refl eq_refl) as (opened & _ & _ & S).
  exact S.
Defined.

(* ================================================================== *)
(** ** Documents without embedded content *)

Lemma map_fixed_every (P : jsstring -> list (jsstring * jsstring) -> list node -> bool)
    (f : node -> node) (cs : list node) :
  Forall (fun c => every_element P c = true -> f c = c) cs ->
  forallb (every_element P) cs = true -> map f cs = cs.
Proof.
  induction 1 as [|c r Hc _ IH]; [reflexivity|].
  cbn [forallb map]. intros F. apply andb_true_iff in F. destruct F as [Fc Fr].
  now rewrite (Hc Fc), (IH Fr).
Qed.

Lemma inlineShadow_fixed (E : Env) (n : node) :
  every_element noEmbeddedContent n = true -> inlineShadow E n = n.
Proof.
  induction n as [t a cs IH | s | s] using node_ind_children;
    [|reflexivity|reflexivity].
  cbn [every_element]. intros F. apply andb_true_iff in F. destruct F as [Pn F].
  apply (map_fixed_every _ _ _ IH) in F.
  unfold noEmbeddedContent in Pn. apply negb_true_iff, orb_false_iff in Pn.
  destruct Pn as [Pn _].
  cbn [inlineShadow]. rewrite F.
  destruct (sel_shadow_host (Element t a cs)); [|reflexivity].
  destruct (getAttribute "data-shadow-content" (Element t a cs)) as [c|]; [|reflexivity].
  cbn [andb truthy_opt] in Pn. now rewrite Pn.
Qed.

Lemma inlineFrames_fixed (E : Env) (haveBase : bool) (n : node) :
  every_element noEmbeddedContent n = true -> inlineFrames E haveBase n = n.
Proof.
  induction n as [t a cs IH | s | s] using node_ind_children;
    [|reflexivity|reflexivity].
  cbn [every_element]. intros F. apply andb_true_iff in F. destruct F as [Pn F].
  apply (map_fixed_every _ _ _ IH) in F.
  unfold noEmbeddedContent in Pn. apply negb_true_iff, orb_false_iff in Pn.
  destruct Pn as [_ Pn].
  cbn [inlineFrames]. rewrite F.
  destruct (sel_frame (Element t a cs)); [|reflexivity].
  destruct (getAttribute "data-frame-content" (Element t a cs)) as [c|]; [|reflexivity].
  cbn [andb truthy_opt] in Pn. now rewrite Pn.
Qed.

Lemma map_fixed (f : node -> node) (d : list node) :
  (forall n, every_element noEmbeddedContent n = true -> f n = n) ->
  forallb (every_element noEmbeddedContent) d = true -> map f d = d.
Proof.
  intros Hf. apply map_fixed_every. apply Forall_forall. intros n _. apply Hf.
Qed.

(** A document in which no shadow host and no frame carries content comes out
    of the inlining of embedded content as it went in, in both processors and
    under all options. *)
Theorem inlining_leaves_plain_documents :
  forall (E : Env) (options : ProcessingOptions) (dom : document),
    forallb (every_element noEmbeddedContent) dom = true ->
    Enhanced.inlineEmbedded E options dom = dom
    /\ Minimal.inlineEmbedded E dom = dom.
Proof.
  intros E options dom F.
  pose proof (map_fixed (inlineShadow E) dom (inlineShadow_fixed E) F) as S.
  assert (Fr : forall hb, map (inlineFrames E hb) dom = dom)
    by (intros hb; exact (map_fixed _ dom (inlineFrames_fixed E hb) F)).
  split.
  - unfold Enhanced.inlineEmbedded. cbv zeta.
    destruct (not_false (withShadowDom options)); [rewrite S|];
      destruct (not_false (withIframe options)); try reflexivity; apply Fr.
  - unfold Minimal.inlineEmbedded. rewrite S. apply Fr.
Qed.

Lemma inlining_leaves_witness :
  Enhanced.inlineEmbedded helloEnv (plainOptions None) helloPage = helloPage
  /\ Minimal.inlineEmbedded helloEnv helloPage = helloPage.
Proof.
  apply (inlining_leaves_plain_documents helloEnv (plainOptions None) helloPage).
  reflexivity.
Defined.

(* ================================================================== *)
(** ** The performance metrics *)

Lemma mathRound_nonneg (a b : QArith_base.Q) :
  QArith_base.Qle a b -> (0 <= mathRound (QArith_base.Qminus b a))%Z.
Proof.
  intros H. unfold mathRound.
  change 0%Z with (Qround.Qfloor (QArith_base.Qmake 0 1)).
  apply Qround.Qfloor_resp_le.
  rewrite <- (QArith_base.Qplus_0_r (QArith_base.Qmake 0 1)).
  apply QArith_base.Qplus_le_compat; [|discriminate].
  now apply (proj1 (QArith_base.Qle_minus_iff a b)).
Qed.

(** The enhanced processor reports metrics exactly when [trackPerformance] is
    [true]; with a clock that never runs back, none of the four times it
    reports is negative. *)
Theorem performance_is_tracked_on_request :
  forall (E : Env) (html : jsstring) (fo : option FormatOrOptions)
         (base0 : option jsstring) (r : ProcessedHTML),
    clockNeverRunsBack E ->
    Enhanced.processHtml E html fo base0 = Ok r ->
    match performance r with
    | None => trackPerformance (Enhanced.effectiveOptions fo base0) <> Some true
    | Some p =>
        trackPerformance (Enhanced.effectiveOptions fo base0) = Some true
        /\ (0 <= totalTime p)%Z /\ (0 <= parsingTime p)%Z
        /\ (0 <= cleaningTime p)%Z /\ (0 <= renderTime p)%Z
    end.
Proof.
  intros E html fo base0 r C H.
  apply processHtml_result in H.
  destruct H as (opened & dom & main & p & _ & _ & _ & _ & _ & _ & _ & _ & P).
  rewrite P. unfold Enhanced.measure, or_false. cbv zeta.
  destruct (trackPerformance (Enhanced.effectiveOptions fo base0)) as [[|]|];
    try discriminate.
  split; [reflexivity|]. cbn [totalTime parsingTime cleaningTime renderTime].
  repeat split; apply mathRound_nonneg; apply C; lia.
Qed.

Lemma performance_witness :
  exists r p,
    Enhanced.processHtml helloEnv (wholePage helloMarkup) (Some (AsOptions trackedOptions)) None
    = Ok r
    /\ performance r = Some p
    /\ (0 <= totalTime p)%Z.
Proof.
  eexists. eexists. split; [reflexivity|]. split; [reflexivity|].
  assert (C : clockNeverRunsBack helloEnv).
  { intros i j L. unfold QArith_base.Qle. cbn. lia. }
  pose proof (performance_is_tracked_on_request helloEnv (wholePage helloMarkup)
                (Some (AsOptions trackedOptions)) None _ C eq_refl) as H.
  exact (proj1 (proj2 H)).
Defined.

(** *** The format and the outcome of the call *)

(** On [<a href="/x">Link</a>] the format decides whether the call returns.
    With the Markdown format the minimal processor returns a result, whose
    links hold the anchor, and so does the enhanced one when Turndown does not
    throw on the working markup; with the format ['text'] both throw a
    [TypeError], because the working markup is the empty string and the text
    rendering reads [document.body] of a document without root element. *)
Theorem format_decides_whether_the_call_returns :
  forall (E : Env),
    parseHTML E linkMarkup = linkNodes ->
    parseHTML E [] = [] ->
    innerHTML E [] = [] ->
    findsNoArticle E [el "a" [("href"%string, "/x"%string)]
                        [emptyElement "head"; Text (js "Link")]] ->
    (exists r, Minimal.processHtml E linkMarkup (Some markdown) None = Ok r
               /\ links r = [(js "Link", js "/x")])
    /\ Minimal.processHtml E linkMarkup (Some text) None = Throw TypeError
    /\ (forall md,
          turndownConvert E (EnhancedSetup None) (turndownParse E []) = Ok md ->
          exists r, Enhanced.processHtml E linkMarkup (Some (AsFormat markdown)) None = Ok r
                    /\ links r = [(js "Link", js "/x")])
    /\ Enhanced.processHtml E linkMarkup (Some (AsFormat text)) None = Throw TypeError.
Proof.
  intros E P P0 I0 R.
  destruct (link_opened E P) as (t & OM & OE).
  pose (d := [el "a" [("href"%string, "/x"%string)]
                [emptyElement "head"; Text (js "Link")]]).
  assert (T : renderText E [] = Throw TypeError).
  { unfold renderText. rewrite P0. reflexivity. }
  assert (M : exists a d', extractMain E d = Ok ([], a, d')).
  { destruct (extractMain_without_article E d R) as [H | [a H]];
      rewrite H; unfold bodyMarkup; cbn; rewrite I0; eexists; eexists; reflexivity. }
  destruct M as (a & d' & M).
  split; [|split; [|split]].
  - destruct (minimal_markdown_returns E linkMarkup (Some markdown) None _
                (el "a" [("href"%string, "/x"%string)]
                    [emptyElement "head"; Text (js "Link")])
                ltac:(discriminate) OM eq_refl) as (r & H & L).
    exists r. split; [exact H|]. rewrite L. reflexivity.
  - unfold Minimal.processHtml. cbv zeta. rewrite OM. cbn [bind snd fst].
    change (extractMain E (Minimal.sanitize _)) with (extractMain E d).
    rewrite M. cbn [bind fst snd Minimal.render]. now rewrite T.
  - intros md Tm.
    pose (o := Enhanced.effectiveOptions (Some (AsFormat markdown)) None).
    assert (S : Enhanced.sanitize E o d = Ok d) by reflexivity.
    assert (W : Enhanced.workingMarkup E o d = Ok ([], a)).
    { unfold Enhanced.workingMarkup. cbn [o Enhanced.effectiveOptions targetSelector
                                           Enhanced.selectTarget bind].
      now rewrite M. }
    destruct (enhanced_markdown_returns E linkMarkup (Some (AsFormat markdown)) None
                _ d ([], a) md I (OE o eq_refl eq_refl) S W Tm) as (r & H & L & _).
    exists r. split; [exact H|]. rewrite L. reflexivity.
  - pose (o := Enhanced.effectiveOptions (Some (AsFormat text)) None).
    unfold Enhanced.processHtml. cbv zeta. fold o.
    rewrite (OE o eq_refl eq_refl). cbn [bind snd fst].
    assert (S : Enhanced.sanitize E o d = Ok d) by reflexivity.
    fold d. rewrite S. cbn [bind].
    assert (W : Enhanced.workingMarkup E o d = Ok ([], a)).
    { unfold Enhanced.workingMarkup. cbn [o Enhanced.effectiveOptions targetSelector
                                           Enhanced.selectTarget bind].
      now rewrite M. }
    rewrite W. cbn [bind fst snd o Enhanced.effectiveOptions format Enhanced.render].
    now rewrite T.
Qed.

Lemma format_decides_witness :
  (exists r, Minimal.processHtml linkEnv linkMarkup (Some markdown) None = Ok r
             /\ links r = [(js "Link", js "/x")])
  /\ Minimal.processHtml linkEnv linkMarkup (Some text) None = Throw TypeError.
Proof.
  destruct (format_decides_whether_the_call_returns linkEnv eq_refl eq_refl eq_refl I)
    as (H1 & H2 & _).
  split; [exact H1 | exact H2].
Defined.
